(** * ObsidianScripts: a shallow embedding of the vault batch tools

    The Python scripts of the repository read Markdown notes, rewrite
    tags, wikilinks and navigation rows with regular expressions and
    literal [str.replace], and write the result back with optional
    backups.  This development embeds the parts of

      - [convert_tags_to_wikilinks.py]
      - [simplify_wikilinks.py]
      - [fix_daily_navigation.py]
      - [clean_done_tags_vault.py]
      - [tag_inventory.py]
      - [add_yaml_to_files_without_yaml.py]

    that the specification speaks about, and states and proves the
    specification's sentences about them.

    Conventions.  A Python [str] is a list of Unicode code points
    ([text]); a file is a list of bytes stored in a finite map from
    paths to contents; [open(...).read()] decodes the bytes and applies
    universal-newline translation; [print] is recorded as an event with
    the arguments of the call; [try]/[except] is an error monad over the
    file system and the standard output. *)

From Stdlib Require Import NArith ZArith Lia Bool.
From Stdlib Require Import Strings.Byte Strings.Ascii Strings.String.
From Stdlib Require Import Sorting.Sorted Sorting.Permutation.
From stdpp Require Import base option list gmap strings sorting.

Set Default Proof Using "Type".

(** ** Text and bytes *)

(** A code point. *)
Definition char := N.

(** A Python [str]. *)
Definition text := list N.

(** *** Codecs *)

Module Codec.

Local Open Scope N_scope.

(** A continuation byte [10xxxxxx]. *)
Definition is_cont (b : N) : bool := (128 <=? b) && (b <? 192).

(** Strict UTF-8 decoding of a sequence of byte values, as done by
    [open(path, "r", encoding="utf-8").read()]: overlong forms,
    surrogates and code points above U+10FFFF are errors
    ([UnicodeDecodeError], here [None]). *)
Fixpoint utf8_decode_N (bs : list N) : option text :=
  match bs with
  | [] => Some []
  | b0 :: r0 =>
    if b0 <? 128 then cons b0 <$> utf8_decode_N r0
    else if (194 <=? b0) && (b0 <? 224) then
      match r0 with
      | b1 :: r1 =>
        if is_cont b1
        then cons ((b0 - 192) * 64 + (b1 - 128)) <$> utf8_decode_N r1
        else None
      | _ => None
      end
    else if (224 <=? b0) && (b0 <? 240) then
      match r0 with
      | b1 :: b2 :: r2 =>
        if is_cont b1 && is_cont b2
           && negb ((b0 =? 224) && (b1 <? 160))
           && negb ((b0 =? 237) && (160 <=? b1))
        then cons ((b0 - 224) * 4096 + (b1 - 128) * 64 + (b2 - 128))
               <$> utf8_decode_N r2
        else None
      | _ => None
      end
    else if (240 <=? b0) && (b0 <? 245) then
      match r0 with
      | b1 :: b2 :: b3 :: r3 =>
        if is_cont b1 && is_cont b2 && is_cont b3
           && negb ((b0 =? 240) && (b1 <? 144))
           && negb ((b0 =? 244) && (144 <=? b1))
        then cons ((b0 - 240) * 262144 + (b1 - 128) * 4096
                   + (b2 - 128) * 64 + (b3 - 128))
               <$> utf8_decode_N r3
        else None
      | _ => None
      end
    else None
  end.

Definition utf8_decode (bs : list byte) : option text :=
  utf8_decode_N (Byte.to_N <$> bs).

(** The bytes of one code point in UTF-8; surrogates and values above
    U+10FFFF cannot be encoded ([UnicodeEncodeError]). *)
Definition utf8_encode_char (c : N) : option (list N) :=
  if c <? 128 then Some [c]
  else if c <? 2048 then Some [192 + c / 64; 128 + c mod 64]
  else if c <? 65536 then
    if (55296 <=? c) && (c <? 57344) then None
    else Some [224 + c / 4096; 128 + (c / 64) mod 64; 128 + c mod 64]
  else if c <? 1114112 then
    Some [240 + c / 262144; 128 + (c / 4096) mod 64;
          128 + (c / 64) mod 64; 128 + c mod 64]
  else None.

Definition utf8_encode (t : text) : option (list byte) :=
  ns ← mapM utf8_encode_char t; mapM Byte.of_N (concat ns).

(** latin-1 maps every byte to the code point of the same value and
    back; a code point above U+00FF cannot be encoded. *)
Definition latin1_decode (bs : list byte) : text := Byte.to_N <$> bs.

Definition latin1_encode (t : text) : option (list byte) :=
  mapM Byte.of_N t.

(** Universal newlines of text-mode reading: both a carriage return
    followed by a line feed and a lone carriage return are read as one
    line feed. *)
Fixpoint universal_newlines (t : text) : text :=
  match t with
  | [] => []
  | c :: r =>
    if c =? 13 then
      10 :: match r with
            | d :: r' => if d =? 10 then universal_newlines r'
                         else universal_newlines r
            | [] => universal_newlines r
            end
    else c :: universal_newlines r
  end.

End Codec.

(** A text literal: the code points of a UTF-8 string of this file. *)
Definition txt (s : string) : text :=
  default [] (Codec.utf8_decode (list_byte_of_string s)).

(** The line feed and the double quote. *)
Definition nl : text := [10%N].
Definition quote : text := [34%N].

Example txt_arrows : txt "←← [[" = [8592; 8592; 32; 91; 91]%N.
Proof. vm_compute. reflexivity. Qed.

(** ** Python string operations *)

Module Str.

(** [s.startswith(pre)]. *)
Fixpoint startswith (pre s : text) : bool :=
  match pre, s with
  | [], _ => true
  | p :: pre', c :: s' => (p =? c)%N && startswith pre' s'
  | _ :: _, [] => false
  end.

(** The first index, counted from [i], at which [sub] occurs in [s]. *)
Fixpoint find_at (sub s : text) (i : nat) : option nat :=
  if startswith sub s then Some i
  else match s with
       | [] => None
       | _ :: s' => find_at sub s' (S i)
       end.

(** [s.find(sub, start)]: the index of the first occurrence at or
    after [start], or [-1]. *)
Definition find (s sub : text) (start : nat) : Z :=
  match find_at sub (drop start s) start with
  | Some i => Z.of_nat i
  | None => (-1)%Z
  end.

(** [sub in s]. *)
Definition contains (sub s : text) : bool :=
  match find_at sub s 0 with Some _ => true | None => false end.

(** The last index, counted from [i], at which [sub] occurs in [s]. *)
Fixpoint rfind_at (sub s : text) (i : nat) : option nat :=
  match s with
  | [] => if startswith sub [] then Some i else None
  | _ :: s' =>
    match rfind_at sub s' (S i) with
    | Some j => Some j
    | None => if startswith sub s then Some i else None
    end
  end.

(** The scan of [s.replace(old, new)] for a non-empty [old]: [skip]
    counts the characters of a replaced occurrence still to be
    dropped. *)
Fixpoint replace_scan (old new : text) (skip : nat) (s : text) : text :=
  match s with
  | [] => []
  | c :: s' =>
    match skip with
    | S k => replace_scan old new k s'
    | O =>
      if startswith old s
      then new ++ replace_scan old new (length old - 1) s'
      else c :: replace_scan old new 0 s'
    end
  end.

(** [s.replace(old, new)]: every non-overlapping occurrence, left to
    right.  An empty [old] matches before every character and at the
    end. *)
Definition replace (s old new : text) : text :=
  match old with
  | [] => new ++ concat ((λ c, c :: new) <$> s)
  | _ :: _ => replace_scan old new 0 s
  end.

(** [str.isspace] of one code point, which is also the class [\s] of
    [re] on [str] patterns. *)
Definition is_space (c : N) : bool :=
  ((9 <=? c) && (c <=? 13) || (28 <=? c) && (c <=? 32)
   || (c =? 133) || (c =? 160) || (c =? 5760)
   || (8192 <=? c) && (c <=? 8202)
   || (c =? 8232) || (c =? 8233) || (c =? 8239) || (c =? 8287)
   || (c =? 12288))%N.

Fixpoint lstrip (s : text) : text :=
  match s with
  | c :: s' => if is_space c then lstrip s' else s
  | [] => []
  end.

(** [s.strip()]. *)
Definition strip (s : text) : text := reverse (lstrip (reverse (lstrip s))).

(** [s.split(sep, maxsplit)] for a non-empty separator. *)
Fixpoint split (sep : text) (maxsplit : nat) (s : text) : list text :=
  match maxsplit with
  | O => [s]
  | S m =>
    match find_at sep s 0 with
    | None => [s]
    | Some i => take i s :: split sep m (drop (i + length sep) s)
    end
  end.

(** [s.split(sep)]: no bound on the number of splits. *)
Definition split_all (sep s : text) : list text := split sep (length s) s.

(** [sep.join(parts)]. *)
Fixpoint join (sep : text) (parts : list text) : text :=
  match parts with
  | [] => []
  | [p] => p
  | p :: ps => p ++ sep ++ join sep ps
  end.

(** [a == b] on strings. *)
Definition eqb (a b : text) : bool := bool_decide (a = b).

(** [a < b] on strings: lexicographic on code points. *)
Fixpoint ltb (a b : text) : bool :=
  match a, b with
  | _, [] => false
  | [], _ :: _ => true
  | x :: a', y :: b' => (x <? y)%N || (x =? y)%N && ltb a' b'
  end.

End Str.

Example replace_example :
  Str.replace (txt "a-b-a") (txt "a") (txt "xy") = txt "xy-b-xy".
Proof. vm_compute. reflexivity. Qed.

Example split_example :
  Str.split (txt "---") 2 (txt "---a---b---c") = [txt ""; txt "a"; txt "b---c"].
Proof. vm_compute. reflexivity. Qed.

Example strip_example : Str.strip (txt "  a b " ++ [10%N]) = txt "a b".
Proof. vm_compute. reflexivity. Qed.

(** ** The regular expressions of [re]

    A backtracking matcher for the constructs the scripts' patterns
    use.  Alternatives are tried in the order of Python's engine
    (greedy repetition prefers one more iteration, lazy repetition
    prefers to stop), so the first successful path is the match that
    [re] reports. *)

Module Re.

Inductive re :=
| Eps
| Lit (c : N)                    (* one literal character *)
| Cls (p : N → bool)             (* a character class *)
| Seq (a b : re)
| Opt (a : re)                   (* [a?] *)
| Star (greedy : bool) (a : re)  (* [a*] and [a*?] *)
| Grp (i : nat) (a : re)         (* capturing group number [i] *)
| NotBehind (p : N → bool)       (* [(?<!p)] for a class [p] *)
| NotAhead (a : re)              (* [(?!a)] *)
| Boundary (w : N → bool).       (* [\b] for the word class [w] *)

(** [a+] and [a+?]. *)
Definition Plus (greedy : bool) (a : re) : re := Seq a (Star greedy a).

(** A literal string, as produced by [re.escape]. *)
Definition lit (s : text) : re := foldr (λ c r, Seq (Lit c) r) Eps s.

(** The matcher's position: the character before it (for lookbehind
    and [\b]), the text still to read, and the groups captured on the
    current path. *)
Record mstate := MState {
  prev : option N;
  rest : text;
  caps : list (nat * text)
}.

Definition advance (c : N) (t : text) (s : mstate) : mstate :=
  {| prev := Some c; rest := t; caps := caps s |}.

(** Group [i] captured the text read between [s] and [s']. *)
Definition capture (i : nat) (s s' : mstate) : mstate :=
  {| prev := prev s'; rest := rest s';
     caps := (i, take (length (rest s) - length (rest s')) (rest s))
               :: caps s' |}.

Definition is_w (w : N → bool) (o : option N) : bool :=
  match o with Some c => w c | None => false end.

(** [rmatch r k s]: match [r] at [s] and continue with [k];
    [None] makes the matcher backtrack. *)
Fixpoint rmatch (r : re) (k : mstate → option mstate) (s : mstate)
  {struct r} : option mstate :=
  match r with
  | Eps => k s
  | Lit c =>
    match rest s with
    | x :: t => if (x =? c)%N then k (advance x t s) else None
    | [] => None
    end
  | Cls p =>
    match rest s with
    | x :: t => if p x then k (advance x t s) else None
    | [] => None
    end
  | Seq a b => rmatch a (rmatch b k) s
  | Opt a =>
    match rmatch a k s with
    | Some f => Some f
    | None => k s
    end
  | Star greedy a =>
    (fix loop (n : nat) (s : mstate) {struct n} : option mstate :=
       match n with
       | O => k s
       | S n' =>
         let more :=
           rmatch a
             (λ s', if bool_decide (length (rest s') < length (rest s))
                    then loop n' s' else None) s in
         if greedy
         then match more with Some f => Some f | None => k s end
         else match k s with Some f => Some f | None => more end
       end) (length (rest s)) s
  | Grp i a => rmatch a (λ s', k (capture i s s')) s
  | NotBehind p => if is_w p (prev s) then None else k s
  | NotAhead a =>
    match rmatch a Some s with
    | Some _ => None
    | None => k s
    end
  | Boundary w =>
    if xorb (is_w w (prev s)) (is_w w (head (rest s))) then k s else None
  end.

(** A match object: offset, matched text ([group(0)]) and groups. *)
Record rmatch_obj := Match {
  m_start : nat;
  m_text : text;
  m_caps : list (nat * text)
}.

Fixpoint cap_lookup (i : nat) (g : list (nat * text)) : option text :=
  match g with
  | [] => None
  | (j, t) :: g' => if Nat.eqb i j then Some t else cap_lookup i g'
  end.

(** [m.group(i)] for [i > 0]: [None] when the group took no part in
    the match. *)
Definition group (m : rmatch_obj) (i : nat) : option text :=
  cap_lookup i (m_caps m).

(** What the top of the matcher accepts: after an empty match the next
    search starts at the same place with [must_advance] set, and a
    path that ends where it started is then refused, which makes the
    matcher backtrack into its other alternatives. *)
Definition accept (must_advance : bool) (s : text) (f : mstate)
  : option mstate :=
  if must_advance && bool_decide (length (rest f) = length s)
  then None else Some f.

(** The match of [r] that starts exactly at the current position: the
    text it read and the groups. *)
Definition match_here (r : re) (must_advance : bool) (before : option N)
  (s : text) : option (text * list (nat * text)) :=
  match rmatch r (accept must_advance s)
          {| prev := before; rest := s; caps := [] |} with
  | Some f => Some (take (length s - length (rest f)) s, caps f)
  | None => None
  end.

(** [re.finditer]: leftmost matches, each search resuming at the end
    of the previous match.  [skip] counts the characters of the last
    match still to pass.  An empty match is reported as well; the
    search goes on at the same place for a match that is not empty,
    and moves on by one character when there is none. *)
Fixpoint finditer_from (r : re) (before : option N) (pos skip : nat)
  (s : text) : list rmatch_obj :=
  match s with
  | [] =>
    match skip with
    | S _ => []
    | O =>
      match match_here r false before [] with
      | Some (m, g) => [{| m_start := pos; m_text := m; m_caps := g |}]
      | None => []
      end
    end
  | c :: s' =>
    match skip with
    | S k => finditer_from r (Some c) (S pos) k s'
    | O =>
      match match_here r false before s with
      | Some ([], g) =>
        {| m_start := pos; m_text := []; m_caps := g |}
          :: match match_here r true before s with
             | Some (m, g') =>
               {| m_start := pos; m_text := m; m_caps := g' |}
                 :: finditer_from r (Some c) (S pos) (length m - 1) s'
             | None => finditer_from r (Some c) (S pos) 0 s'
             end
      | Some (m, g) =>
        {| m_start := pos; m_text := m; m_caps := g |}
          :: finditer_from r (Some c) (S pos) (length m - 1) s'
      | None => finditer_from r (Some c) (S pos) 0 s'
      end
    end
  end.

Definition finditer (r : re) (s : text) : list rmatch_obj :=
  finditer_from r None 0 0 s.

(** [re.findall] for a pattern without capturing groups. *)
Definition findall (r : re) (s : text) : list text :=
  m_text <$> finditer r s.

(** [re.search]: the first match, if any. *)
Definition search (r : re) (s : text) : option rmatch_obj :=
  head (finditer r s).

(** The text that [re.sub] joins from the matches [ms] of [s], [pos]
    being the offset at which [s] starts: the text before each match,
    what [repl] makes of the match, and the text after the last
    match. *)
Fixpoint rebuild (repl : rmatch_obj → text) (ms : list rmatch_obj)
  (pos : nat) (s : text) : text :=
  match ms with
  | [] => s
  | m :: ms' =>
    let b := m_start m - pos in
    let e := b + length (m_text m) in
    take b s ++ repl m ++ rebuild repl ms' (pos + e) (drop e s)
  end.

(** [re.sub] with a function of the match as replacement. *)
Definition sub_with (r : re) (repl : rmatch_obj → text) (s : text) : text :=
  rebuild repl (finditer r s) 0 s.

(** [re.sub] with a replacement text without backslash, which stands
    for itself. *)
Definition sub (r : re) (repl : text) (s : text) : text :=
  sub_with r (λ _, repl) s.

(** A parsed replacement template: literal texts and references to
    groups, [\g<0>] being the whole match. *)
Inductive piece :=
| PLit (t : text)
| PGroup (i : nat).

(** The expansion of a template at one match; a group that took no
    part in the match expands to the empty text. *)
Definition expand (template : list piece) (m : rmatch_obj) : text :=
  concat ((λ p, match p with
                | PLit t => t
                | PGroup O => m_text m
                | PGroup i => default [] (group m i)
                end) <$> template).

End Re.

(** ** Files, standard output and exceptions *)

(** A path is a Python [str] as well. *)
Definition path := text.

Inductive exn :=
| FileNotFoundError
| PermissionError
| UnicodeDecodeError
| UnicodeEncodeError
| ValueError
| IndexError
| ReError.

Inductive encoding := Utf8 | Latin1.

(** One [print] call of the scripts, with its arguments. *)
Inductive event :=
| PrintConverted (n : nat) (p : path)
| PrintErrorProcessing (p : path) (e : exn)
| PrintErrorAlternate (p : path) (e : exn)
| PrintSkippingLarge (p : path)
| PrintSkippingFile (p : path) (e : exn)
| PrintModified (p : path) (n : nat)
| PrintModifiedLatin1 (p : path) (n : nat)
| PrintWarningNotModified (n : nat) (p : path)
| PrintDebugFound (p : path)
| PrintDebugCounts (with_parens standalone : nat) (found : list text)
| PrintFixedNavigation (p : path)
| PrintFoundFiles (n : nat)
| PrintProgress (i total : nat)
| PrintSampleFiles (ps : list path)
| PrintNoSampleFiles
| PrintSummary (total_files : nat) (modified_files : list (path * nat))
    (total_tags : nat)
| PrintErrorExtracting (p : path) (e : exn).

(** The world a script runs in: the regular files with their bytes, the
    paths that cannot be opened for writing, and what has been printed
    so far. *)
Record world := World {
  files : gmap (list N) (list byte);
  locked : gset (list N);
  stdout : list event
}.

Inductive result (A : Type) :=
| Ok (a : A)
| Raise (e : exn).
Arguments Ok {A} a.
Arguments Raise {A} e.

(** Computations that read and write the world and may raise. *)
Definition M (A : Type) : Type := world → world * result A.

Definition ret {A} (a : A) : M A := λ w, (w, Ok a).

Definition raise {A} (e : exn) : M A := λ w, (w, Raise e).

Definition bind {A B} (m : M A) (k : A → M B) : M B :=
  λ w, match m w with
       | (w', Ok a) => k a w'
       | (w', Raise e) => (w', Raise e)
       end.

(** [try: m except Exception as e: h e]. *)
Definition try_except {A} (m : M A) (h : exn → M A) : M A :=
  λ w, match m w with
       | (w', Ok a) => (w', Ok a)
       | (w', Raise e) => h e w'
       end.

Notation "'let*' x ':=' m 'in' k" := (bind m (λ x, k))
  (at level 10, x pattern, m at level 100, k at level 200,
   format "'[v' 'let*'  x  ':='  m  'in' '/' k ']'").

Definition when (b : bool) (m : M unit) : M unit := if b then m else ret tt.

Definition print (e : event) : M unit :=
  λ w, ({| files := files w; locked := locked w; stdout := stdout w ++ [e] |},
        Ok tt).

Definition decode (enc : encoding) (bs : list byte) : option text :=
  match enc with
  | Utf8 => Codec.utf8_decode bs
  | Latin1 => Some (Codec.latin1_decode bs)
  end.

Definition encode (enc : encoding) (t : text) : option (list byte) :=
  match enc with
  | Utf8 => Codec.utf8_encode t
  | Latin1 => Codec.latin1_encode t
  end.

(** [with open(p, "r", encoding=enc) as f: f.read()]. *)
Definition read_text (enc : encoding) (p : path) : M text :=
  λ w, match files w !! p with
       | None => (w, Raise FileNotFoundError)
       | Some bs =>
         match decode enc bs with
         | None => (w, Raise UnicodeDecodeError)
         | Some t => (w, Ok (Codec.universal_newlines t))
         end
       end.

Definition set_file (p : path) (bs : list byte) (w : world) : world :=
  {| files := <[p := bs]> (files w); locked := locked w; stdout := stdout w |}.

(** [with open(p, "w", encoding=enc) as f: f.write(t)]: opening
    truncates the file, and the text is encoded when it is written. *)
Definition write_text (enc : encoding) (p : path) (t : text) : M unit :=
  λ w, if bool_decide (p ∈ locked w) then (w, Raise PermissionError)
       else match encode enc t with
            | None => (set_file p [] w, Raise UnicodeEncodeError)
            | Some bs => (set_file p bs w, Ok tt)
            end.

(** [os.path.getsize(p)]. *)
Definition getsize (p : path) : M nat :=
  λ w, match files w !! p with
       | None => (w, Raise FileNotFoundError)
       | Some bs => (w, Ok (length bs))
       end.

(** A pure step that may raise. *)
Definition lift {A} (r : result A) : M A := λ w, (w, r).

(** ** The scripts *)

Section Scripts.

(** Two tables of the Python runtime that the repository does not
    contain: [str.isalnum] above the ASCII range (consulted by [\w]
    and [\b]), and what [re]'s template parser makes of a replacement
    text that contains a backslash, for a pattern without groups: the
    pieces of the template, or the exception that the parser raises
    ([re.error], or [IndexError] for the name of a group that the
    pattern does not have). *)
Variable unicode_alnum : N → bool.
Variable parse_template : text → result (list Re.piece).

(** The class [\w] on [str] patterns. *)
Definition is_word (c : N) : bool :=
  if (c <? 128)%N
  then ((48 <=? c) && (c <=? 57) || (65 <=? c) && (c <=? 90)
        || (97 <=? c) && (c <=? 122) || (c =? 95))%N
  else unicode_alnum c.

(** A negated class [[^...]]. *)
Definition none_of (cs : text) (c : N) : bool :=
  negb (bool_decide (c ∈ cs)).

Definition seqs (rs : list Re.re) : Re.re := foldr Re.Seq Re.Eps rs.

(** What [re.sub] makes of the replacement text [repl] before it
    looks for a match: a text without backslash stands for itself, any
    other text goes through the template parser. *)
Definition compile_template (repl : text) : result (list Re.piece) :=
  if bool_decide (92%N ∈ repl)
  then parse_template repl
  else Ok [Re.PLit repl].

(** *** convert_tags_to_wikilinks.py *)

(** The class [[a-zA-Z0-9_.-]]. *)
Definition tag_segment_char (c : N) : bool :=
  ((48 <=? c) && (c <=? 57) || (65 <=? c) && (c <=? 90)
   || (97 <=? c) && (c <=? 122) || (c =? 95) || (c =? 46) || (c =? 45))%N.

(** [tag_pattern]: [(?<!\w)TAG(?!\w)] under [exact_match], and
    [(?<!\w)TAG(?:/[a-zA-Z0-9_.-]+)*(?!\w)] otherwise. *)
Definition tag_pattern (tag : text) (exact_match : bool) : Re.re :=
  if exact_match
  then seqs [Re.NotBehind is_word; Re.lit tag; Re.NotAhead (Re.Cls is_word)]
  else seqs [Re.NotBehind is_word; Re.lit tag;
             Re.Star true
               (Re.Seq (Re.Lit 47) (Re.Plus true (Re.Cls tag_segment_char)));
             Re.NotAhead (Re.Cls is_word)].

(** The split of the content into front matter and body (lines
    79-89). *)
Definition split_frontmatter (content : text) : text * text :=
  let yaml_end :=
    if Str.startswith (txt "---") content
    then Some (Str.find content (txt "---") 3)
    else None in
  match yaml_end with
  | Some e =>
    if (0 <? e)%Z
    then (take (Z.to_nat e + 3) content, drop (Z.to_nat e + 3) content)
    else ([], content)
  | None => ([], content)
  end.

(** The [[[wikilink]]] text. *)
Definition wikilink_text (wikilink : text) : text :=
  txt "[[" ++ wikilink ++ txt "]]".

(** The state of the loop over the lines of the front matter. *)
Record yaml_loop := YamlLoop {
  modified_yaml_lines : list text;
  in_tags_block : bool;
  yaml_count : nat
}.

(** One iteration of the loop over [yaml_lines] (lines 114-142). *)
Definition yaml_step (tag wikilink yaml_content : text) (exact_match : bool)
  (st : yaml_loop) (line : text) : yaml_loop :=
  let out := modified_yaml_lines st in
  if Str.startswith (txt "tags:") (Str.strip line) then
    {| modified_yaml_lines := out ++ [line]; in_tags_block := true;
       yaml_count := yaml_count st |}
  else if in_tags_block st && Str.startswith (txt "-") (Str.strip line) then
    let tag_in_line := Str.strip (drop 1 (Str.strip line)) in
    if Str.eqb tag_in_line (Str.strip tag)
       || negb exact_match && Str.startswith (Str.strip tag) tag_in_line
    then
      if negb (Str.contains (txt "related:") yaml_content)
      then {| modified_yaml_lines :=
                out ++ [txt "related:" ++ nl ++ txt "  - " ++ quote
                          ++ wikilink_text wikilink ++ quote];
              in_tags_block := true; yaml_count := yaml_count st |}
      else {| modified_yaml_lines := out; in_tags_block := true;
              yaml_count := S (yaml_count st) |}
    else {| modified_yaml_lines := out ++ [line]; in_tags_block := true;
            yaml_count := yaml_count st |}
  else
    if Str.startswith (txt "related:") (Str.strip line)
       && bool_decide (0 < yaml_count st)
    then {| modified_yaml_lines :=
              out ++ [line; txt "  - " ++ quote ++ wikilink_text wikilink
                              ++ quote];
            in_tags_block := false; yaml_count := 0 |}
    else {| modified_yaml_lines := out ++ [line]; in_tags_block := false;
            yaml_count := yaml_count st |}.

(** The front matter after the conversion, and the final
    [yaml_count] (lines 107-144). *)
Definition convert_yaml_block (tag wikilink yaml_content : text)
  (convert_yaml exact_match : bool) : text * nat :=
  if convert_yaml && negb (Str.eqb yaml_content [])
  then
    let st := foldl (yaml_step tag wikilink yaml_content exact_match)
                {| modified_yaml_lines := []; in_tags_block := false;
                   yaml_count := 0 |}
                (Str.split_all nl yaml_content) in
    (Str.join nl (modified_yaml_lines st), yaml_count st)
  else (yaml_content, 0).

(** The text computed from the content of a file that contains the
    tag: [modified_content] and the number of tags counted (lines
    79-147).  [re.sub] raises when the replacement template is
    malformed, and expands the template at every match. *)
Definition convert_content (tag wikilink : text)
  (convert_yaml exact_match : bool) (content : text) : result (text * nat) :=
  let '(yaml_content, body_content) := split_frontmatter content in
  let pat := tag_pattern tag exact_match in
  let tag_count := length (Re.findall pat body_content) in
  match compile_template (wikilink_text wikilink) with
  | Raise e => Raise e
  | Ok template =>
    let body_content := Re.sub_with pat (Re.expand template) body_content in
    let '(yaml_content, yaml_count) :=
      convert_yaml_block tag wikilink yaml_content convert_yaml exact_match in
    Ok (yaml_content ++ body_content, tag_count + yaml_count)
  end.

(** [convert_tag_to_wikilink] (lines 47-171). *)
Definition convert_tag_to_wikilink (file_path : path) (tag wikilink : text)
  (create_backup dry_run convert_yaml exact_match : bool) : M (bool * nat) :=
  try_except
    (let* content := read_text Utf8 file_path in
     if negb (Str.contains tag content) then ret (false, 0)
     else
       let* r :=
         lift (convert_content tag wikilink convert_yaml exact_match content) in
       let '(modified_content, n) := r in
       if negb (Str.eqb content modified_content) then
         let* _ :=
           when (negb dry_run)
             (let* _ :=
                when create_backup
                  (write_text Utf8
                     (file_path ++ txt "." ++ Str.replace tag (txt "#") []
                        ++ txt ".backup")
                     content) in
              let* _ := write_text Utf8 file_path modified_content in
              print (PrintConverted n file_path)) in
         ret (true, n)
       else ret (false, 0))
    (λ e, let* _ := print (PrintErrorProcessing file_path e) in
          ret (false, 0)).

(** *** simplify_wikilinks.py *)

(** [WIKILINK_PATTERN]:
    [\[\[([^|\]]*?/+)([^/\]|]+)(?:\|[^|\]]*?)?\]\]]. *)
Definition WIKILINK_PATTERN : Re.re :=
  seqs [Re.lit (txt "[[");
        Re.Grp 1 (Re.Seq (Re.Star false (Re.Cls (none_of (txt "|]"))))
                    (Re.Plus true (Re.Lit 47)));
        Re.Grp 2 (Re.Plus true (Re.Cls (none_of (txt "/]|"))));
        Re.Opt (Re.Seq (Re.Lit 124) (Re.Star false (Re.Cls (none_of (txt "|]")))));
        Re.lit (txt "]]")].

(** [s.index(sub)] and [s.rindex(sub)]. *)
Definition index (s sub : text) : result nat :=
  match Str.find_at sub s 0 with Some i => Ok i | None => Raise ValueError end.

Definition rindex (s sub : text) : result nat :=
  match Str.rfind_at sub s 0 with Some i => Ok i | None => Raise ValueError end.

(** The replacement computed for one match (lines 81-91). *)
Definition simplified_link (m : Re.rmatch_obj) : result text :=
  let full_match := Re.m_text m in
  let note_name := default [] (Re.group m 2) in
  if Str.contains (txt "|") full_match then
    match index full_match (txt "|") with
    | Raise e => Raise e
    | Ok pipe_index =>
      match rindex full_match (txt "]]") with
      | Raise e => Raise e
      | Ok closing_index =>
        let alias_part := drop pipe_index (take closing_index full_match) in
        Ok (txt "[[" ++ note_name ++ alias_part)
      end
    end
  else Ok (txt "[[" ++ note_name ++ txt "]]").

(** The lists [matches] and [replacements] (lines 77-94), as pairs. *)
Fixpoint link_replacements (ms : list Re.rmatch_obj)
  : result (list (text * text)) :=
  match ms with
  | [] => Ok []
  | m :: ms' =>
    match simplified_link m with
    | Raise e => Raise e
    | Ok r =>
      match link_replacements ms' with
      | Raise e => Raise e
      | Ok l => Ok ((Re.m_text m, r) :: l)
      end
    end
  end.

(** The loop [modified_content = modified_content.replace(matches[i],
    replacements[i])] (lines 102-104). *)
Definition replace_each (content : text) (pairs : list (text * text)) : text :=
  foldl (λ acc p, Str.replace acc (fst p) (snd p)) content pairs.

(** [simplify_wikilinks] (lines 51-129). *)
Definition simplify_wikilinks (file_path : path)
  (create_backup dry_run : bool) (max_size_kb : Z) : M (bool * nat) :=
  try_except
    (let* size := getsize file_path in
     if (1024 * max_size_kb <? Z.of_nat size)%Z then
       let* _ := print (PrintSkippingLarge file_path) in ret (false, 0)
     else
       let* content := read_text Utf8 file_path in
       let* pairs := lift (link_replacements (Re.finditer WIKILINK_PATTERN content)) in
       let link_count := length pairs in
       if Nat.eqb link_count 0 then ret (false, 0)
       else
         let modified_content := replace_each content pairs in
         if negb (Str.eqb content modified_content) then
           let* _ :=
             when (negb dry_run)
               (let* _ :=
                  when create_backup
                    (write_text Utf8 (file_path ++ txt ".backup") content) in
                let* _ := write_text Utf8 file_path modified_content in
                print (PrintModified file_path link_count)) in
           ret (true, link_count)
         else ret (false, 0))
    (λ e, let* _ := print (PrintSkippingFile file_path e) in
          ret (false, 0)).

(** *** fix_daily_navigation.py *)

Definition DAILY_NOTES_DIR : text := txt "01 - Calendar/Daily".
Definition WEEKLY_NOTES_DIR : text := txt "01 - Calendar/Weekly".

(** [\s*]. *)
Definition ws : Re.re := Re.Star true (Re.Cls Str.is_space).

(** One slot of the row: [\[\[([^\]/|]+)(?:\s*\|([^\]/]+))?]. *)
Definition nav_slot (target alias : nat) : Re.re :=
  seqs [Re.lit (txt "[[");
        Re.Grp target (Re.Plus true (Re.Cls (none_of (txt "]/|"))));
        Re.Opt (seqs [ws; Re.Lit 124;
                      Re.Grp alias (Re.Plus true (Re.Cls (none_of (txt "]/"))))])].

(** The separator between two slots: [\s*\/\s*]. *)
Definition nav_sep : Re.re := seqs [ws; Re.Lit 47; ws].

(** [BROKEN_NAV_PATTERN]. *)
Definition BROKEN_NAV_PATTERN : Re.re :=
  seqs [Re.lit (txt "←←"); ws;
        nav_slot 1 2; nav_sep; nav_slot 3 4; nav_sep;
        nav_slot 5 6; nav_sep; nav_slot 7 8;
        ws; Re.lit (txt "→→")].

(** The alias of a slot after [if alias: alias = alias.strip()], as
    the row prints it: [f" |{alias}" if alias else ""]. *)
Definition alias_suffix (alias : option text) : text :=
  match alias with
  | None => []
  | Some a =>
    let a' := if Str.eqb a [] then a else Str.strip a in
    if Str.eqb a' [] then [] else txt " |" ++ a'
  end.

(** [fixed_nav_row] (lines 73-104). *)
Definition fixed_nav_row (m : Re.rmatch_obj) : text :=
  let target i := Str.strip (default [] (Re.group m i)) in
  txt "←← [[" ++ WEEKLY_NOTES_DIR ++ txt "/" ++ target 1
    ++ alias_suffix (Re.group m 2)
    ++ txt "]] / [[" ++ DAILY_NOTES_DIR ++ txt "/" ++ target 3
    ++ alias_suffix (Re.group m 4)
    ++ txt "]] / [[" ++ DAILY_NOTES_DIR ++ txt "/" ++ target 5
    ++ alias_suffix (Re.group m 6)
    ++ txt "]] / [[" ++ WEEKLY_NOTES_DIR ++ txt "/" ++ target 7
    ++ alias_suffix (Re.group m 8)
    ++ txt "]] →→".

(** [fix_navigation_links] (lines 51-129). *)
Definition fix_navigation_links (file_path : path)
  (create_backup dry_run : bool) : M (bool * nat) :=
  try_except
    (let* content := read_text Utf8 file_path in
     match Re.search BROKEN_NAV_PATTERN content with
     | None => ret (false, 0)
     | Some nav_match =>
       let nav_row := Re.m_text nav_match in
       let modified_content :=
         Str.replace content nav_row (fixed_nav_row nav_match) in
       if negb (Str.eqb content modified_content) then
         let* _ :=
           when (negb dry_run)
             (let* _ :=
                when create_backup
                  (write_text Utf8 (file_path ++ txt ".navfix.backup") content) in
              let* _ := write_text Utf8 file_path modified_content in
              print (PrintFixedNavigation file_path)) in
         ret (true, 1)
       else ret (false, 0)
     end)
    (λ e, let* _ := print (PrintErrorProcessing file_path e) in
          ret (false, 0)).

(** *** clean_done_tags_vault.py *)

(** [DONE_WITH_PARENS_PATTERN]: [#done\s*\([^)]*\)]. *)
Definition DONE_WITH_PARENS_PATTERN : Re.re :=
  seqs [Re.lit (txt "#done"); ws; Re.Lit 40;
        Re.Star true (Re.Cls (none_of (txt ")"))); Re.Lit 41].

(** [DONE_STANDALONE_PATTERN]: [#done\b(?!\s*\()]. *)
Definition DONE_STANDALONE_PATTERN : Re.re :=
  seqs [Re.lit (txt "#done"); Re.Boundary is_word;
        Re.NotAhead (seqs [ws; Re.Lit 40])].

(** [r"\b" + re.escape(match) + r"\b"]. *)
Definition bounded (m : text) : Re.re :=
  seqs [Re.Boundary is_word; Re.lit m; Re.Boundary is_word].

(** The two lists of matches, [modified_content] and [tag_count]
    (lines 73-98, repeated at lines 134-150). *)
Definition clean_content (content : text) : list text * list text * text :=
  let matches_with_parens := Re.findall DONE_WITH_PARENS_PATTERN content in
  let matches_standalone := Re.findall DONE_STANDALONE_PATTERN content in
  let modified_content :=
    foldl (λ acc m, Str.replace acc m []) content matches_with_parens in
  let modified_content :=
    foldl (λ acc m, Re.sub (bounded m) [] acc) modified_content
      matches_standalone in
  (matches_with_parens, matches_standalone, modified_content).

(** The body of the [except UnicodeDecodeError] handler (lines
    128-171). *)
Definition clean_done_tags_latin1 (file_path : path)
  (create_backup dry_run : bool) : M (bool * nat) :=
  try_except
    (let* content := read_text Latin1 file_path in
     let '(matches_with_parens, matches_standalone, modified_content) :=
       clean_content content in
     let tag_count := length (matches_with_parens ++ matches_standalone) in
     if Nat.eqb tag_count 0 then ret (false, 0)
     else if negb (Str.eqb content modified_content) then
       let* _ :=
         when (negb dry_run)
           (let* _ :=
              when create_backup
                (write_text Latin1 (file_path ++ txt ".backup") content) in
            let* _ := write_text Latin1 file_path modified_content in
            print (PrintModifiedLatin1 file_path tag_count)) in
       ret (true, tag_count)
     else ret (false, 0))
    (λ e, let* _ := print (PrintErrorAlternate file_path e) in
          ret (false, 0)).

(** [clean_done_tags] (lines 51-174). *)
Definition clean_done_tags (file_path : path)
  (create_backup dry_run verbose : bool) : M (bool * nat) :=
  try_except
    (let* content := read_text Utf8 file_path in
     let* _ :=
       when (verbose && Str.contains (txt "#done") content)
         (print (PrintDebugFound file_path)) in
     let '(matches_with_parens, matches_standalone, modified_content) :=
       clean_content content in
     let total_matches := matches_with_parens ++ matches_standalone in
     let tag_count := length total_matches in
     let* _ :=
       when (verbose && bool_decide (0 < tag_count))
         (print (PrintDebugCounts (length matches_with_parens)
                   (length matches_standalone) total_matches)) in
     if Nat.eqb tag_count 0 then ret (false, 0)
     else if negb (Str.eqb content modified_content) then
       let* _ :=
         when (negb dry_run)
           (let* _ :=
              when create_backup
                (write_text Utf8 (file_path ++ txt ".backup") content) in
            let* _ := write_text Utf8 file_path modified_content in
            print (PrintModified file_path tag_count)) in
       ret (true, tag_count)
     else
       let* _ :=
         when (bool_decide (0 < tag_count))
           (print (PrintWarningNotModified tag_count file_path)) in
       ret (false, 0))
    (λ e, match e with
          | UnicodeDecodeError =>
            clean_done_tags_latin1 file_path create_backup dry_run
          | _ =>
            let* _ := print (PrintErrorProcessing file_path e) in
            ret (false, 0)
          end).

(** The loop that collects up to five sample files under [verbose]
    (lines 200-210); a file that cannot be read is passed over. *)
Fixpoint sample_scan (md_files : list path) (sample_files : list path)
  : M (list path) :=
  match md_files with
  | [] => ret sample_files
  | file_path :: md_files' =>
    let* step :=
      try_except
        (let* content := read_text Utf8 file_path in
         if Str.contains (txt "#done") content
         then ret (sample_files ++ [file_path],
                   bool_decide (5 ≤ length (sample_files ++ [file_path])))
         else ret (sample_files, false))
        (λ _, ret (sample_files, false)) in
    if snd step then ret (fst step) else sample_scan md_files' (fst step)
  end.

(** The accumulators of the main loop of [process_vault]. *)
Record batch := Batch {
  modified_files : list (path * nat);
  total_tags : nat
}.

(** The main loop (lines 221-231), from index [i]. *)
Fixpoint clean_loop (create_backup dry_run verbose : bool)
  (file_count i : nat) (md_files : list path) (acc : batch) : M batch :=
  match md_files with
  | [] => ret acc
  | file_path :: md_files' =>
    let* _ := when (Nat.eqb (i mod 100) 0) (print (PrintProgress (i + 1) file_count)) in
    let* r := clean_done_tags file_path create_backup dry_run verbose in
    let '(was_modified, tags_removed) := r in
    clean_loop create_backup dry_run verbose file_count (S i) md_files'
      (if was_modified
       then {| modified_files := modified_files acc ++ [(file_path, tags_removed)];
               total_tags := total_tags acc + tags_removed |}
       else acc)
  end.

(** [process_vault] of clean_done_tags_vault.py (lines 177-233), for
    the list [md_files] that [glob.glob] returned. *)
Definition process_vault (md_files : list path)
  (create_backup dry_run verbose : bool)
  : M (list (path * nat) * nat * nat) :=
  let file_count := length md_files in
  let* _ := print (PrintFoundFiles file_count) in
  let* _ :=
    when verbose
      (let* sample_files := sample_scan md_files [] in
       if bool_decide (sample_files ≠ [])
       then print (PrintSampleFiles sample_files)
       else print PrintNoSampleFiles) in
  let* acc :=
    clean_loop create_backup dry_run verbose file_count 0 md_files
      {| modified_files := []; total_tags := 0 |} in
  ret (modified_files acc, total_tags acc, length md_files).

(** The summary that [main] prints from the value of [process_vault]
    (lines 269-282). *)
Definition summary_report (r : list (path * nat) * nat * nat) : event :=
  let '(modified_files, total_tags_removed, total_files) := r in
  PrintSummary total_files modified_files total_tags_removed.

(** *** tag_inventory.py *)

(** [TAG_PATTERN]: [#[a-zA-Z0-9_/.-]+]. *)
Definition TAG_PATTERN : Re.re :=
  seqs [Re.Lit 35;
        Re.Plus true (Re.Cls (λ c, tag_segment_char c || (c =? 47)%N))].

(** [scan_file_for_tags] (lines 47-67). *)
Definition scan_file_for_tags (file_path : path) : M (list text) :=
  try_except
    (let* content := read_text Utf8 file_path in
     ret (Re.findall TAG_PATTERN content))
    (λ e, let* _ := print (PrintErrorProcessing file_path e) in ret []).

(** A [collections.Counter]: the keys in the order of their first
    insertion, each with its count. *)
Fixpoint counter_add (tag : text) (counter : list (text * nat))
  : list (text * nat) :=
  match counter with
  | [] => [(tag, 1)]
  | (t, n) :: counter' =>
    if Str.eqb t tag then (t, S n) :: counter'
    else (t, n) :: counter_add tag counter'
  end.

(** [tag_counter.update(file_tags)]. *)
Definition counter_update (counter : list (text * nat)) (file_tags : list text)
  : list (text * nat) :=
  foldl (λ c t, counter_add t c) counter file_tags.

(** The loop of [inventory_tags] (lines 88-101), from index [i]. *)
Fixpoint inventory_loop (exclude_done : bool) (file_count i : nat)
  (md_files : list path) (tag_counter : list (text * nat))
  : M (list (text * nat)) :=
  match md_files with
  | [] => ret tag_counter
  | file_path :: md_files' =>
    let* _ := when (Nat.eqb (i mod 100) 0) (print (PrintProgress (i + 1) file_count)) in
    let* file_tags := scan_file_for_tags file_path in
    let file_tags :=
      if exclude_done
      then filter (λ tag, Str.startswith (txt "#done") tag = false) file_tags
      else file_tags in
    inventory_loop exclude_done file_count (S i) md_files'
      (counter_update tag_counter file_tags)
  end.

(** [inventory_tags] (lines 70-103), for the list [md_files] that
    [glob.glob] returned. *)
Definition inventory_tags (md_files : list path) (exclude_done : bool)
  : M (list (text * nat) * nat) :=
  let file_count := length md_files in
  let* _ := print (PrintFoundFiles file_count) in
  let* tag_counter := inventory_loop exclude_done file_count 0 md_files [] in
  ret (tag_counter, file_count).

(** [filtered_tags] (lines 119-121). *)
Definition filtered_tags (tag_counter : list (text * nat)) (min_count : Z)
  : list (text * nat) :=
  filter (λ p, (min_count ≤ Z.of_nat (snd p))%Z) tag_counter.

(** The comparison of two sort keys [(-x[1], x[0])]: [key x <= key y]
    on tuples. *)
Definition key_le (x y : text * nat) : bool :=
  let kx := (- Z.of_nat (snd x))%Z in
  let ky := (- Z.of_nat (snd y))%Z in
  (kx <? ky)%Z || (kx =? ky)%Z && negb (Str.ltb (fst y) (fst x)).

(** [sorted] is stable, and the result of a stable sort is fixed by
    the key order; insertion from the right is such a sort. *)
Fixpoint insert_by {A} (le : A → A → bool) (x : A) (l : list A) : list A :=
  match l with
  | [] => [x]
  | y :: l' => if le x y then x :: l else y :: insert_by le x l'
  end.

Definition sorted_by {A} (le : A → A → bool) (l : list A) : list A :=
  foldr (insert_by le) [] l.

(** [sorted_tags] (line 124). *)
Definition sorted_tags (tag_counter : list (text * nat)) (min_count : Z)
  : list (text * nat) :=
  sorted_by key_le (filtered_tags tag_counter min_count).

(** The rows of the table of the report (lines 160-163): tag, count
    and suggested wikilink. *)
Definition table_rows (tag_counter : list (text * nat)) (min_count : Z)
  : list (text * nat * text) :=
  (λ p, (fst p, snd p,
         Str.replace (Str.replace (fst p) (txt "#") []) (txt "/") (txt " - ")))
    <$> sorted_tags tag_counter min_count.

(** *** add_yaml_to_files_without_yaml.py *)

(** The split computed by [extract_content_parts] from the content of
    a file (lines 109-119). *)
Definition split_document (content : text) : text * text :=
  if Str.startswith (txt "---") content then
    let parts := Str.split (txt "---") 2 content in
    if bool_decide (3 ≤ length parts)
    then (Str.strip (default [] (parts !! 1)),
          Str.strip (default [] (parts !! 2)))
    else ([], Str.strip content)
  else ([], Str.strip content).

(** [extract_content_parts] (lines 94-122). *)
Definition extract_content_parts (filepath : path) : M (text * text) :=
  try_except
    (let* content := read_text Utf8 filepath in
     ret (split_document content))
    (λ e, let* _ := print (PrintErrorExtracting filepath e) in
          ret ([], [])).

(** *** The batches of the other scripts *)

(** The loop of [process_vault] of convert_tags_to_wikilinks.py (lines
    207-218), from index [i]. *)
Fixpoint convert_loop (tag wikilink : text)
  (create_backup dry_run convert_yaml exact_match : bool)
  (file_count i : nat) (md_files : list path) (acc : batch) : M batch :=
  match md_files with
  | [] => ret acc
  | file_path :: md_files' =>
    let* _ := when (Nat.eqb (i mod 100) 0) (print (PrintProgress (i + 1) file_count)) in
    let* r := convert_tag_to_wikilink file_path tag wikilink create_backup
                dry_run convert_yaml exact_match in
    let '(was_modified, tags_converted) := r in
    convert_loop tag wikilink create_backup dry_run convert_yaml exact_match
      file_count (S i) md_files'
      (if was_modified
       then {| modified_files := modified_files acc ++ [(file_path, tags_converted)];
               total_tags := total_tags acc + tags_converted |}
       else acc)
  end.

(** [process_vault] of convert_tags_to_wikilinks.py (lines 174-219),
    for the list [md_files] that [glob.glob] returned. *)
Definition convert_process_vault (md_files : list path) (tag wikilink : text)
  (create_backup dry_run convert_yaml exact_match : bool)
  : M (list (path * nat) * nat * nat) :=
  let file_count := length md_files in
  let* _ := print (PrintFoundFiles file_count) in
  let* acc :=
    convert_loop tag wikilink create_backup dry_run convert_yaml exact_match
      file_count 0 md_files {| modified_files := []; total_tags := 0 |} in
  ret (modified_files acc, total_tags acc, file_count).

(** A slice [l[lo:hi]] with step 1: a negative index counts from the
    end, and both indices are clipped to the list. *)
Definition slice_index (len i : Z) : Z :=
  Z.max 0 (Z.min len (if (i <? 0)%Z then (i + len)%Z else i)).

Definition slice {A} (l : list A) (lo hi : option Z) : list A :=
  let len := Z.of_nat (length l) in
  let lo := from_option (slice_index len) 0%Z lo in
  let hi := from_option (slice_index len) len hi in
  take (Z.to_nat (hi - lo)) (drop (Z.to_nat lo) l).

(** [a <= b] on strings. *)
Definition path_le (a b : path) : bool := negb (Str.ltb b a).

(** The files that [process_vault] of simplify_wikilinks.py goes
    through (lines 150-163): the sorted list, cut by [start_at] and
    [max_files]. *)
Definition batch_files (md_files : list path) (start_at : Z)
  (max_files : option Z) : list path :=
  let md_files := sorted_by path_le md_files in
  let md_files :=
    if (0 <? start_at)%Z then slice md_files (Some start_at) None
    else md_files in
  match max_files with
  | Some n => slice md_files None (Some n)
  | None => md_files
  end.

(** The loop of [process_vault] of simplify_wikilinks.py (lines
    171-182), from index [i]. *)
Fixpoint simplify_loop (create_backup dry_run : bool) (max_size_kb : Z)
  (file_count i : nat) (md_files : list path) (acc : batch) : M batch :=
  match md_files with
  | [] => ret acc
  | file_path :: md_files' =>
    let* _ :=
      when (Nat.eqb (i mod 50) 0 || (Z.of_nat i =? Z.of_nat file_count - 1)%Z)
        (print (PrintProgress (i + 1) file_count)) in
    let* r := simplify_wikilinks file_path create_backup dry_run max_size_kb in
    let '(was_modified, links_simplified) := r in
    simplify_loop create_backup dry_run max_size_kb file_count (S i) md_files'
      (if was_modified
       then {| modified_files := modified_files acc ++ [(file_path, links_simplified)];
               total_tags := total_tags acc + links_simplified |}
       else acc)
  end.

(** What [process_vault] of simplify_wikilinks.py does from the line
    that announces the number of files on (lines 165-184), for the
    files left after the cuts. *)
Definition simplify_batch (md_files : list path)
  (create_backup dry_run : bool) (max_size_kb : Z)
  : M (list (path * nat) * nat * nat) :=
  let file_count := length md_files in
  let* _ := print (PrintFoundFiles file_count) in
  let* acc :=
    simplify_loop create_backup dry_run max_size_kb file_count 0 md_files
      {| modified_files := []; total_tags := 0 |} in
  ret (modified_files acc, total_tags acc, file_count).

(** The loop of [process_daily_notes] (lines 153-164), from index [i];
    the accumulator holds [modified_files] and [total_fixes]. *)
Fixpoint daily_loop (create_backup dry_run : bool) (file_count i : nat)
  (daily_files : list path) (acc : list path * nat) : M (list path * nat) :=
  match daily_files with
  | [] => ret acc
  | file_path :: daily_files' =>
    let* _ :=
      when (Nat.eqb (i mod 20) 0 || (Z.of_nat i =? Z.of_nat file_count - 1)%Z)
        (print (PrintProgress (i + 1) file_count)) in
    let* r := fix_navigation_links file_path create_backup dry_run in
    let '(was_modified, fixes) := r in
    daily_loop create_backup dry_run file_count (S i) daily_files'
      (if was_modified then (fst acc ++ [file_path], snd acc + fixes) else acc)
  end.

(** [process_daily_notes] (lines 132-165), for the list [daily_files]
    that [glob.glob] returned. *)
Definition process_daily_notes (daily_files : list path)
  (create_backup dry_run : bool) : M (list path * nat * nat) :=
  let file_count := length daily_files in
  let* _ := print (PrintFoundFiles file_count) in
  let* acc := daily_loop create_backup dry_run file_count 0 daily_files ([], 0) in
  ret (fst acc, snd acc, file_count).

(** *** add_yaml_to_files_without_yaml.py: the summary and the new file *)

(** The mark that stands for the text left out of a summary. *)
Definition truncated_mark : text :=
  nl ++ nl ++ txt "[...content truncated...]" ++ nl ++ nl.

(** [extract_content_summary] (lines 157-183). *)
Definition extract_content_summary (content : text) (max_length : Z) : text :=
  let len := Z.of_nat (length content) in
  if (len <=? max_length)%Z then content
  else
    let first_portion := (max_length / 2)%Z in
    let last_portion := (max_length / 4)%Z in
    let middle_sample := (max_length - first_portion - last_portion)%Z in
    let first_part := slice content None (Some first_portion) in
    let middle_part :=
      slice content (Some (len / 2 - middle_sample / 2)%Z)
        (Some (len / 2 + middle_sample / 2)%Z) in
    let last_part := slice content (Some (- last_portion)%Z) None in
    first_part ++ truncated_mark ++ middle_part ++ truncated_mark ++ last_part.

(** The content that [process_all_markdown_files] writes back for the
    generated front matter [yaml_content] and the body [main_content]
    (lines 383-387). *)
Definition new_content (yaml_content main_content : text) : text :=
  txt "---" ++ nl ++ Str.strip yaml_content ++ nl ++ txt "---" ++ nl ++ nl
    ++ main_content.

(** *** The check for a front matter *)

(** The lines that reading a text file line by line yields: every line
    ends with its line feed, except the last one when the text does not
    end with a line feed.  [cur] is the line read so far. *)
Fixpoint file_lines_from (cur t : text) : list text :=
  match t with
  | [] => match cur with [] => [] | _ :: _ => [cur] end
  | c :: t' =>
    if (c =? 10)%N then (cur ++ [c]) :: file_lines_from [] t'
    else file_lines_from (cur ++ [c]) t'
  end.

Definition file_lines (t : text) : list text := file_lines_from [] t.

(** The loop that looks for the closing line, [i] being the index that
    [enumerate] gives to the line at the head: the loop ends after the
    first line whose index is greater than [limit]. *)
Fixpoint closing_line_scan (limit i : nat) (lines : list text) : bool :=
  match lines with
  | [] => false
  | line :: lines' =>
    if Str.eqb (Str.strip line) (txt "---") then true
    else if bool_decide (limit < i) then false
    else closing_line_scan limit (S i) lines'
  end.

(** What the two [has_yaml_front_matter] compute from the text of a
    file that can be read: an empty file yields the empty string as
    its first line. *)
Definition front_matter_check (limit : nat) (content : text) : bool :=
  let first_line := Str.strip (default [] (head (file_lines content))) in
  if negb (Str.eqb first_line (txt "---")) then false
  else closing_line_scan limit 0 (tail (file_lines content)).

(** [has_yaml_front_matter] of add_yaml_to_files_without_yaml.py (lines
    76-84) gives up after index 30, that of find_missing_yaml.py (lines
    49-57) after index 45. *)
Definition has_yaml_front_matter : text → bool := front_matter_check 30.

Definition find_missing_has_yaml_front_matter : text → bool :=
  front_matter_check 45.

(** ** Properties of the string operations *)

Lemma startswith_spec (pre s : text) :
  Str.startswith pre s = true ↔ ∃ r, s = pre ++ r.
Proof.
  revert s. induction pre as [|p pre IH]; intros s; simpl.
  - split; [eauto | done].
  - destruct s as [|c s].
    + split; [done | intros [r Hr]; discriminate].
    + rewrite andb_true_iff, N.eqb_eq, IH. split.
      * intros [-> [r ->]]. eauto.
      * intros [r Hr]. injection Hr as -> ->. eauto.
Qed.

Lemma startswith_app (pre r : text) : Str.startswith pre (pre ++ r) = true.
Proof. apply startswith_spec. eauto. Qed.

(** [s] has an occurrence of [sub]. *)
Definition occurs (sub s : text) : Prop := ∃ a b, s = a ++ sub ++ b.

Lemma find_at_Some (sub s : text) (i j : nat) :
  Str.find_at sub s i = Some j →
  ∃ a b, s = a ++ sub ++ b ∧ j = i + length a.
Proof.
  revert i. induction s as [|c s IH]; intros i; simpl.
  - destruct (Str.startswith sub []) eqn:E; [|done].
    intros [= <-]. apply startswith_spec in E as [r Hr].
    exists [], r. simpl. split; [done | lia].
  - destruct (Str.startswith sub (c :: s)) eqn:E.
    + intros [= <-]. apply startswith_spec in E as [r Hr].
      exists [], r. simpl. split; [done | lia].
    + intros H. apply IH in H as (a & b & -> & ->).
      exists (c :: a), b. simpl. split; [done | lia].
Qed.

Lemma find_at_None (sub s : text) (i : nat) :
  Str.find_at sub s i = None → ¬ occurs sub s.
Proof.
  revert i. induction s as [|c s IH]; intros i; simpl.
  - destruct (Str.startswith sub []) eqn:E; [done|].
    intros _ (a & b & H). destruct a; [|done]. simpl in H.
    rewrite H, startswith_app in E. done.
  - destruct (Str.startswith sub (c :: s)) eqn:E; [done|].
    intros H (a & b & Hab). destruct a as [|x a]; simpl in Hab.
    + rewrite Hab, startswith_app in E. done.
    + injection Hab as -> ->. eapply IH; [done|]. by exists a, b.
Qed.

(** [sub in s] holds exactly when [s] has an occurrence of [sub]. *)
Lemma contains_spec (sub s : text) :
  Str.contains sub s = true ↔ occurs sub s.
Proof.
  unfold Str.contains. destruct (Str.find_at sub s 0) eqn:E.
  - split; [|done]. intros _.
    apply find_at_Some in E as (a & b & -> & _). by exists a, b.
  - split; [done|]. intros H. by apply find_at_None in E.
Qed.

Lemma contains_false (sub s : text) :
  Str.contains sub s = false ↔ ¬ occurs sub s.
Proof.
  rewrite <- contains_spec. destruct (Str.contains sub s); split; congruence.
Qed.

(** ** Running the scripts *)

(** Unfolds the monad so that a script can be run step by step. *)
Ltac run :=
  unfold try_except, bind, ret, raise, lift, when, print,
    read_text, getsize, decode in *;
  simpl.

(** What [read_text] returns for a file that decodes. *)
Lemma read_text_ok (enc : encoding) (p : path) (w : world) (bs : list byte)
  (raw : text) :
  files w !! p = Some bs → decode enc bs = Some raw →
  read_text enc p w = (w, Ok (Codec.universal_newlines raw)).
Proof. intros Hf Hd. unfold read_text. by rewrite Hf, Hd. Qed.

(** ** convert_tags_to_wikilinks.py: a file without the tag *)

(** C9: for every file whose content has no occurrence of the tag
    string, [convert_tag_to_wikilink] returns [(False, 0)] and leaves the
    world (files and output) as it was, whatever the backup, dry-run,
    convert-yaml and exact-match flags are. *)
Theorem convert_tag_absent_is_noop (file_path tag wikilink : text)
  (create_backup dry_run convert_yaml exact_match : bool)
  (w : world) (bs : list byte) (raw : text) :
  files w !! file_path = Some bs →
  Codec.utf8_decode bs = Some raw →
  ¬ occurs tag (Codec.universal_newlines raw) →
  convert_tag_to_wikilink file_path tag wikilink create_backup dry_run
    convert_yaml exact_match w = (w, Ok (false, 0)).
Proof.
  intros Hf Hd Hno. apply contains_false in Hno.
  unfold convert_tag_to_wikilink, try_except, bind.
  rewrite (read_text_ok Utf8 _ _ bs raw) by done.
  by rewrite Hno.
Qed.

(** ** The no-op short circuit *)

Lemma eqb_refl (a : text) : Str.eqb a a = true.
Proof. unfold Str.eqb. by apply bool_decide_eq_true. Qed.

(** C5: when the text computed for a file equals the text read from it,
    no file is written or created and the function returns
    [(False, 0)], whatever the dry-run and backup flags are; this holds
    for the tag conversion, the wikilink simplification, the navigation
    fix and the tag cleaner. *)
Theorem unchanged_text_is_skipped (file_path : path) (w : world)
  (bs : list byte) (raw : text) :
  files w !! file_path = Some bs →
  Codec.utf8_decode bs = Some raw →
  let content := Codec.universal_newlines raw in
  (∀ tag wikilink create_backup dry_run convert_yaml exact_match n,
     convert_content tag wikilink convert_yaml exact_match content
       = Ok (content, n) →
     convert_tag_to_wikilink file_path tag wikilink create_backup dry_run
       convert_yaml exact_match w = (w, Ok (false, 0)))
  ∧ (∀ create_backup dry_run max_size_kb pairs,
       link_replacements (Re.finditer WIKILINK_PATTERN content) = Ok pairs →
       replace_each content pairs = content →
       let r := simplify_wikilinks file_path create_backup dry_run max_size_kb w in
       files (fst r) = files w ∧ snd r = Ok (false, 0))
  ∧ (∀ create_backup dry_run nav_match,
       Re.search BROKEN_NAV_PATTERN content = Some nav_match →
       Str.replace content (Re.m_text nav_match) (fixed_nav_row nav_match)
         = content →
       fix_navigation_links file_path create_backup dry_run w
         = (w, Ok (false, 0)))
  ∧ (∀ create_backup dry_run verbose,
       snd (clean_content content) = content →
       let r := clean_done_tags file_path create_backup dry_run verbose w in
       files (fst r) = files w ∧ snd r = Ok (false, 0)).
Proof.
  intros Hf Hd content.
  pose proof (read_text_ok Utf8 _ _ _ _ Hf Hd) as Hr. fold content in Hr.
  split; [|split; [|split]].
  - intros tag wikilink b d y e n Hc.
    unfold convert_tag_to_wikilink, try_except, bind. rewrite Hr.
    destruct (Str.contains tag content); [|done]. simpl.
    unfold lift. rewrite Hc. by rewrite eqb_refl.
  - intros b d k pairs Hp Hrep.
    unfold simplify_wikilinks, try_except, bind, getsize. rewrite Hf.
    destruct (_ <? _)%Z; [done|]. rewrite Hr. unfold lift. rewrite Hp.
    destruct (length pairs =? 0); [done|]. by rewrite Hrep, eqb_refl.
  - intros b d m Hs Hrep.
    unfold fix_navigation_links, try_except, bind. rewrite Hr, Hs.
    by rewrite Hrep, eqb_refl.
  - intros b d v Hc.
    unfold clean_done_tags, try_except, bind. rewrite Hr.
    destruct (clean_content content) as [[mp ms] modified]. simpl in Hc.
    subst modified. rewrite eqb_refl. simpl.
    unfold when, print, ret.
    destruct (v && Str.contains (txt "#done") content),
      (v && bool_decide (0 < length (mp ++ ms))),
      (length (mp ++ ms) =? 0), (bool_decide (0 < length (mp ++ ms)));
      done.
Qed.

(** ** fix_daily_navigation.py: one row per call *)

(** The text of a file as UTF-8 would read it back. *)
Definition content_of (p : path) (w : world) : option text :=
  files w !! p ≫= Codec.utf8_decode.

(** A note with two different broken rows. *)
Definition two_rows_note : world :=
  {| files := {[ txt "d.md" := list_byte_of_string
       "←← [[W1 / [[D1 / [[D2 / [[W2 →→ then ←← [[W3 |a / [[D3 / [[D4 / [[W4 →→" ]};
     locked := ∅; stdout := [] |}.


(** ** convert_tags_to_wikilinks.py: exact and hierarchical matching *)

(** C1: on ["#project/alpha and #project"] with tag [#project] and
    target [Projects], the exact-match pattern matches twice, the first
    match being the root of the nested tag, and the rewrite is
    ["[[Projects]]/alpha and [[Projects]]"]; without exact matching the
    rewrite is ["[[Projects]] and [[Projects]]"].  The nested tag is
    therefore not left untouched by the exact mode. *)
Theorem scenario_A_exact_mode_rewrites_nested_root :
  Re.findall (tag_pattern (txt "#project") true)
    (txt "#project/alpha and #project") = [txt "#project"; txt "#project"]
  ∧ convert_content (txt "#project") (txt "Projects") false true
      (txt "#project/alpha and #project")
    = Ok (txt "[[Projects]]/alpha and [[Projects]]", 2)
  ∧ convert_content (txt "#project") (txt "Projects") false false
      (txt "#project/alpha and #project")
    = Ok (txt "[[Projects]] and [[Projects]]", 2).
Proof. repeat split; vm_compute; reflexivity. Qed.

(** ** add_yaml_to_files_without_yaml.py: the splitter *)

Lemma occurs_cons (sub s : text) (c : N) : occurs sub s → occurs sub (c :: s).
Proof. intros (a & b & ->). by exists (c :: a), b. Qed.

(** A prefix occurrence of [sub] that starts inside a non-empty [y]
    lies within [y] followed by all but the last character of [sub]. *)
Lemma prefix_within (sub y b : text) :
  y ≠ [] → Str.startswith sub (y ++ sub ++ b) = true →
  occurs sub (y ++ removelast sub).
Proof.
  intros Hy Hs. destruct (decide (sub = [])) as [->|Hsub].
  { exists [], (y ++ []). done. }
  destruct (exists_last Hsub) as (p & l & ->).
  rewrite removelast_last.
  apply startswith_spec in Hs as [r Hr].
  assert (Hy' : 0 < length y) by (destruct y; [done | simpl; lia]).
  assert (H1 : take (length (p ++ [l])) (y ++ (p ++ [l]) ++ b) = p ++ [l]).
  { rewrite Hr. by rewrite take_app_length. }
  exists [], (drop (length (p ++ [l])) (y ++ p)). simpl.
  rewrite <- (take_drop (length (p ++ [l])) (y ++ p)) at 1. f_equal.
  etrans; [|exact H1].
  replace (y ++ (p ++ [l]) ++ b) with ((y ++ p) ++ [l] ++ b)
    by (by rewrite <- !(assoc_L (++))).
  symmetry. apply take_app_le. rewrite !length_app. simpl. lia.
Qed.

(** The first occurrence of [sub] in [y ++ sub ++ b] is the displayed
    one when none starts earlier. *)
Lemma find_at_first (sub y b : text) (i : nat) :
  sub ≠ [] → ¬ occurs sub (y ++ removelast sub) →
  Str.find_at sub (y ++ sub ++ b) i = Some (i + length y).
Proof.
  intros Hsub. revert i. induction y as [|x y IH]; intros i Hno.
  - simpl. destruct (sub ++ b) eqn:E; simpl;
      rewrite <- ?E, startswith_app; f_equal; lia.
  - simpl. destruct (Str.startswith sub (x :: y ++ sub ++ b)) eqn:E.
    + exfalso. apply Hno. by apply (prefix_within sub (x :: y) b).
    + rewrite IH; [f_equal; lia|]. intros H. apply Hno.
      by apply occurs_cons.
Qed.

Lemma find_at_prefix (sub s : text) (i : nat) :
  Str.startswith sub s = true → Str.find_at sub s i = Some i.
Proof. intros H. destruct s; simpl; by rewrite H. Qed.

Lemma split_S (sep : text) (m : nat) (s : text) :
  Str.split sep (S m) s
  = match Str.find_at sep s 0 with
    | None => [s]
    | Some i => take i s :: Str.split sep m (drop (i + length sep) s)
    end.
Proof. reflexivity. Qed.

Lemma split_prefix (sep rest : text) (m : nat) :
  Str.split sep (S m) (sep ++ rest) = [] :: Str.split sep m rest.
Proof.
  rewrite split_S, find_at_prefix by apply startswith_app.
  simpl. by rewrite drop_app_length.
Qed.

Lemma split_none (sep s : text) (m : nat) :
  ¬ occurs sep s → Str.split sep m s = [s].
Proof.
  intros Hno. destruct m; [done|]. rewrite split_S.
  destruct (Str.find_at sep s 0) eqn:E; [|done].
  apply find_at_Some in E as (a & b & -> & _). exfalso. apply Hno.
  by exists a, b.
Qed.

Lemma split_first (sep y b : text) (m : nat) :
  sep ≠ [] → ¬ occurs sep (y ++ removelast sep) →
  Str.split sep (S m) (y ++ sep ++ b) = y :: Str.split sep m b.
Proof.
  intros Hsep Hno. rewrite split_S, (find_at_first sep y b 0) by done.
  simpl. rewrite take_app_length. f_equal. f_equal.
  rewrite (assoc_L (++)). apply drop_app_length'.
  rewrite length_app. lia.
Qed.

(** C4, as the code has it: a document has a metadata block when its
    text starts with the three characters [---] and a second [---]
    follows; the block is the text strictly between the first two
    occurrences, trimmed, and the body is the text after the second,
    trimmed.  For a text that does not start with [---], or has no
    second [---], the block is empty and the body is the whole trimmed
    text. *)
Theorem split_document_spec (content : text) :
  (¬ (∃ rest, content = txt "---" ++ rest) →
   split_document content = ([], Str.strip content))
  ∧ (∀ rest, content = txt "---" ++ rest → ¬ occurs (txt "---") rest →
     split_document content = ([], Str.strip content))
  ∧ (∀ y b, content = txt "---" ++ y ++ txt "---" ++ b →
     ¬ occurs (txt "---") (y ++ txt "--") →
     split_document content = (Str.strip y, Str.strip b)).
Proof.
  split; [|split].
  - intros Hno. unfold split_document.
    destruct (Str.startswith (txt "---") content) eqn:E; [|done].
    apply startswith_spec in E. done.
  - intros rest -> Hno. unfold split_document.
    rewrite startswith_app, split_prefix, split_none by done. done.
  - intros y b -> Hno. unfold split_document.
    rewrite startswith_app, split_prefix, split_first by done. done.
Qed.

(** ** Reapplying a rule *)

(** [re.sub] returns its subject when the pattern has no match. *)
Lemma sub_with_no_match (r : Re.re) (repl : Re.rmatch_obj → text) (s : text) :
  Re.findall r s = [] → Re.sub_with r repl s = s.
Proof.
  unfold Re.findall, Re.sub_with. intros H.
  apply fmap_nil_inv in H. by rewrite H.
Qed.

Lemma sub_no_match (r : Re.re) (repl s : text) :
  Re.findall r s = [] → Re.sub r repl s = s.
Proof. apply sub_with_no_match. Qed.

(** The two parts of [split_frontmatter] make up the content. *)
Lemma split_frontmatter_app (content : text) :
  fst (split_frontmatter content) ++ snd (split_frontmatter content) = content.
Proof.
  unfold split_frontmatter.
  destruct (Str.startswith (txt "---") content); [|done].
  destruct (0 <? Str.find content (txt "---") 3)%Z; [|done].
  apply take_drop.
Qed.

(** C3, as the code has it: a pass over a file in which the rule's
    pattern has no match writes nothing and returns [(False, 0)] (for
    the tag conversion: no match in the body, with the front matter
    left alone); so a second pass is a no-op on every output of a first
    pass that has no match left. *)
Theorem pass_without_match_is_noop (file_path : path) (w : world)
  (bs : list byte) (raw : text) :
  files w !! file_path = Some bs →
  Codec.utf8_decode bs = Some raw →
  let content := Codec.universal_newlines raw in
  (∀ tag wikilink create_backup dry_run exact_match,
     Re.findall (tag_pattern tag exact_match) (snd (split_frontmatter content))
       = [] →
     let r := convert_tag_to_wikilink file_path tag wikilink create_backup
                dry_run false exact_match w in
     files (fst r) = files w ∧ snd r = Ok (false, 0))
  ∧ (∀ create_backup dry_run max_size_kb,
       Re.findall WIKILINK_PATTERN content = [] →
       let r := simplify_wikilinks file_path create_backup dry_run max_size_kb w in
       files (fst r) = files w ∧ snd r = Ok (false, 0))
  ∧ (∀ create_backup dry_run,
       Re.search BROKEN_NAV_PATTERN content = None →
       fix_navigation_links file_path create_backup dry_run w
         = (w, Ok (false, 0))).
Proof.
  intros Hf Hd content.
  pose proof (read_text_ok Utf8 _ _ _ _ Hf Hd) as Hr. fold content in Hr.
  split; [|split].
  - intros tag wikilink b d e Hno.
    unfold convert_tag_to_wikilink, try_except, bind. rewrite Hr.
    destruct (Str.contains tag content); [|done]. simpl.
    unfold lift, convert_content.
    pose proof (split_frontmatter_app content) as Happ.
    destruct (split_frontmatter content) as [yaml body]. simpl in Hno, Happ.
    rewrite Hno. destruct (compile_template (wikilink_text wikilink)); [|done].
    rewrite sub_with_no_match by done. simpl. rewrite Happ.
    by rewrite eqb_refl.
  - intros b d k Hno.
    unfold simplify_wikilinks, try_except, bind, getsize. rewrite Hf.
    destruct (_ <? _)%Z; [done|]. rewrite Hr.
    unfold Re.findall in Hno. apply fmap_nil_inv in Hno. by rewrite Hno.
  - intros b d Hs.
    unfold fix_navigation_links, try_except, bind. by rewrite Hr, Hs.
Qed.

(** ** clean_done_tags_vault.py: errors in the batch *)

(** A [try] whose handler always returns does so itself. *)
Lemma try_except_returns {A} (m : M A) (h : exn → M A) :
  (∀ e w, ∃ w' a, h e w = (w', Ok a)) →
  ∀ w, ∃ w' a, try_except m h w = (w', Ok a).
Proof.
  intros Hh w. unfold try_except. destruct (m w) as [w' [a|e]]; eauto.
Qed.

Lemma clean_done_tags_latin1_returns (file_path : path)
  (create_backup dry_run : bool) (w : world) :
  ∃ w' r, clean_done_tags_latin1 file_path create_backup dry_run w = (w', Ok r).
Proof.
  apply try_except_returns. intros e w0. unfold bind, print, ret. simpl. eauto.
Qed.

Lemma clean_done_tags_returns (file_path : path)
  (create_backup dry_run verbose : bool) (w : world) :
  ∃ w' r, clean_done_tags file_path create_backup dry_run verbose w = (w', Ok r).
Proof.
  apply try_except_returns. intros e w0.
  destruct e; try apply clean_done_tags_latin1_returns;
    unfold bind, print, ret; simpl; eauto.
Qed.

Lemma sample_scan_returns (md_files sample_files : list path) (w : world) :
  ∃ w' l, sample_scan md_files sample_files w = (w', Ok l).
Proof.
  revert sample_files w. induction md_files as [|p ps IH]; intros acc w.
  - simpl. unfold ret. eauto.
  - simpl. unfold bind at 1.
    destruct (try_except_returns
                (let* content := read_text Utf8 p in
                 if Str.contains (txt "#done") content
                 then ret (acc ++ [p], bool_decide (5 ≤ length (acc ++ [p])))
                 else ret (acc, false))
                (λ _, ret (acc, false))
                ltac:(intros; unfold ret; eauto) w) as (w1 & step & ->).
    destruct (snd step); [unfold ret; eauto | apply IH].
Qed.

(** ** tag_inventory.py: the order of the report *)

(** *** The order on strings *)

Lemma ltb_irrefl (a : text) : Str.ltb a a = false.
Proof.
  induction a as [|x a IH]; [done|]. simpl.
  by rewrite N.ltb_irrefl, N.eqb_refl, IH.
Qed.

Lemma ltb_trans (a b c : text) :
  Str.ltb a b = true → Str.ltb b c = true → Str.ltb a c = true.
Proof.
  revert b c. induction a as [|x a IH]; intros [|y b] [|z c]; simpl; try done.
  rewrite !orb_true_iff, !andb_true_iff, !N.ltb_lt, !N.eqb_eq.
  intros [Hxy|[-> Hab]] [Hyz|[-> Hbc]].
  - left. lia.
  - by left.
  - by left.
  - right. split; [done|]. by apply (IH b).
Qed.

Lemma ltb_total (a b : text) :
  Str.ltb a b = false → Str.ltb b a = false → a = b.
Proof.
  revert b. induction a as [|x a IH]; intros [|y b]; simpl; try done.
  rewrite !orb_false_iff, !andb_false_iff, !N.ltb_ge, !N.eqb_neq.
  intros [Hxy Hab] [Hyx Hba].
  assert (x = y) as -> by lia. f_equal. apply IH.
  - by destruct Hab.
  - by destruct Hba.
Qed.

(** *** The order of the sort keys *)

(** Row [x] stands before row [y]: its count is greater, or the counts
    are equal and its tag is the smaller string. *)
Definition row_before (x y : text * nat) : Prop :=
  snd y < snd x ∨ (snd x = snd y ∧ Str.ltb (fst x) (fst y) = true).

Definition row_le (x y : text * nat) : Prop := key_le x y = true.

Lemma key_le_spec (x y : text * nat) :
  key_le x y = true
  ↔ snd y < snd x ∨ (snd x = snd y ∧ Str.ltb (fst y) (fst x) = false).
Proof.
  unfold key_le.
  rewrite orb_true_iff, andb_true_iff, negb_true_iff, Z.ltb_lt, Z.eqb_eq.
  split; (intros [H|[H1 H2]]; [left; lia | right; split; [lia | done]]).
Qed.

Local Instance row_le_trans : Transitive row_le.
Proof.
  intros x y z. unfold row_le. rewrite !key_le_spec.
  intros [Hxy|[Hxy Hl1]] [Hyz|[Hyz Hl2]]; try (left; lia).
  right. split; [lia|].
  destruct (Str.ltb (fst z) (fst x)) eqn:E; [|done].
  destruct (Str.ltb (fst y) (fst z)) eqn:E2.
  - by rewrite (ltb_trans _ _ _ E2 E) in Hl1.
  - by rewrite (ltb_total _ _ E2 Hl2), E in Hl1.
Qed.

Local Instance row_le_antisymm : AntiSymm (=) row_le.
Proof.
  intros [t1 c1] [t2 c2]. unfold row_le. rewrite !key_le_spec. simpl.
  intros [H1|[H1 Hl1]] [H2|[H2 Hl2]]; try lia.
  f_equal; [by apply ltb_total | done].
Qed.

Local Instance row_le_total : Total row_le.
Proof.
  intros x y. unfold row_le. rewrite !key_le_spec.
  destruct (lt_eq_lt_dec (snd x) (snd y)) as [[H|H]|H]; [by right; left| |by left; left].
  destruct (Str.ltb (fst y) (fst x)) eqn:E.
  - right. right. split; [done|].
    destruct (Str.ltb (fst x) (fst y)) eqn:E2; [|done].
    pose proof (ltb_trans _ _ _ E E2) as Hyy. by rewrite ltb_irrefl in Hyy.
  - left. by right.
Qed.

(** *** The sort *)

Lemma insert_by_Permutation {A} (le : A → A → bool) (x : A) (l : list A) :
  insert_by le x l ≡ₚ x :: l.
Proof.
  induction l as [|y l IH]; [done|]. simpl.
  destruct (le x y); [done|]. rewrite IH. apply Permutation_swap.
Qed.

Lemma sorted_by_Permutation {A} (le : A → A → bool) (l : list A) :
  sorted_by le l ≡ₚ l.
Proof.
  induction l as [|x l IH]; [done|]. unfold sorted_by in *. simpl.
  by rewrite insert_by_Permutation, IH.
Qed.

Lemma insert_by_Sorted (x : text * nat) (l : list (text * nat)) :
  Sorted row_le l → Sorted row_le (insert_by key_le x l).
Proof.
  induction 1 as [|y l Hs IH Hhd]; simpl.
  - by repeat constructor.
  - destruct (key_le x y) eqn:E.
    + by repeat constructor.
    + assert (row_le y x) as Hyx.
      { destruct (row_le_total x y) as [H|H]; [|done].
        unfold row_le in H. congruence. }
      constructor; [done|].
      destruct Hhd as [|z l Hyz]; simpl.
      * by constructor.
      * destruct (key_le x z); by constructor.
Qed.

Lemma sorted_by_Sorted (l : list (text * nat)) :
  Sorted row_le (sorted_by key_le l).
Proof.
  induction l as [|x l IH]; [constructor|]. by apply insert_by_Sorted.
Qed.

(** *** The counter *)

(** [tag_counter[tag]]. *)
Fixpoint counter_get (counter : list (text * nat)) (tag : text) : nat :=
  match counter with
  | [] => 0
  | (t, n) :: counter' => if Str.eqb t tag then n else counter_get counter' tag
  end.

(** The number of times [tag] was matched. *)
Definition occurrences (tag : text) (tags : list text) : nat :=
  length (filter (λ t, t = tag) tags).

Lemma eqb_eq (a b : text) : Str.eqb a b = true ↔ a = b.
Proof. unfold Str.eqb. apply bool_decide_eq_true. Qed.

Lemma counter_add_keys (tag : text) (counter : list (text * nat)) :
  (counter_add tag counter).*1
  = if bool_decide (tag ∈ counter.*1) then counter.*1 else counter.*1 ++ [tag].
Proof.
  induction counter as [|[t n] c IH]; [done|]. cbn [counter_add].
  destruct (Str.eqb t tag) eqn:E.
  - apply eqb_eq in E as ->. rewrite !fmap_cons. cbn [fst].
    rewrite bool_decide_eq_true_2; [done | left].
  - rewrite !fmap_cons. cbn [fst]. rewrite IH.
    assert (t ≠ tag) as Hne by (intros ->; by rewrite eqb_refl in E).
    destruct (bool_decide (tag ∈ c.*1)) eqn:D.
    + apply bool_decide_eq_true in D.
      rewrite bool_decide_eq_true_2; [done | by right].
    + apply bool_decide_eq_false in D.
      rewrite bool_decide_eq_false_2; [done|].
      rewrite elem_of_cons. intros [?|?]; by subst.
Qed.

Lemma counter_add_NoDup (tag : text) (counter : list (text * nat)) :
  NoDup counter.*1 → NoDup (counter_add tag counter).*1.
Proof.
  intros H. rewrite counter_add_keys.
  destruct (bool_decide (tag ∈ counter.*1)) eqn:D; [done|].
  apply bool_decide_eq_false in D. apply NoDup_app. split; [done|].
  split; [|apply NoDup_singleton].
  intros x Hx Hx'. apply list_elem_of_singleton in Hx'. by subst.
Qed.

Lemma counter_get_add (tag tag' : text) (counter : list (text * nat)) :
  counter_get (counter_add tag counter) tag'
  = if decide (tag' = tag) then S (counter_get counter tag)
    else counter_get counter tag'.
Proof.
  induction counter as [|[t n] c IH]; simpl.
  - destruct (Str.eqb tag tag') eqn:E.
    + apply eqb_eq in E as ->. by rewrite decide_True.
    + rewrite decide_False; [done|]. intros ->. by rewrite eqb_refl in E.
  - destruct (Str.eqb t tag) eqn:E; simpl.
    + apply eqb_eq in E as ->.
      destruct (Str.eqb tag tag') eqn:E'.
      * apply eqb_eq in E' as ->. by rewrite decide_True.
      * rewrite decide_False; [done|]. intros ->. by rewrite eqb_refl in E'.
    + destruct (Str.eqb t tag') eqn:E'; [|done].
      apply eqb_eq in E' as ->.
      rewrite decide_False; [done|]. intros ->. by rewrite eqb_refl in E.
Qed.

Lemma counter_get_absent (tag : text) (counter : list (text * nat)) :
  tag ∉ counter.*1 → counter_get counter tag = 0.
Proof.
  induction counter as [|[t n] c IH]; [done|]. simpl. intros Hn.
  apply not_elem_of_cons in Hn as [Hne Hn].
  destruct (Str.eqb t tag) eqn:E; [|by apply IH].
  apply eqb_eq in E. by subst.
Qed.

Lemma elem_of_counter (tag : text) (n : nat) (counter : list (text * nat)) :
  NoDup counter.*1 →
  (tag, n) ∈ counter ↔ tag ∈ counter.*1 ∧ counter_get counter tag = n.
Proof.
  induction counter as [|[t m] c IH]; simpl; intros Hnd.
  - split; [by intros ?%elem_of_nil | by intros [?%elem_of_nil _]].
  - apply NoDup_cons in Hnd as [Hnotin Hnd].
    rewrite !elem_of_cons, (IH Hnd).
    destruct (Str.eqb t tag) eqn:E.
    + apply eqb_eq in E as ->. split.
      * intros [[= ->]|[Hin _]]; [by split; [left|] | done].
      * intros [_ ->]. by left.
    + assert (t ≠ tag) as Hne by (intros ->; by rewrite eqb_refl in E).
      split.
      * intros [[= ? ?]|[Hin Hget]]; [by subst|]. split; [by right | done].
      * intros [[?|Hin] Hget]; [by subst|]. right. done.
Qed.

Lemma occurrences_cons (tag t : text) (tags : list text) :
  occurrences tag (t :: tags)
  = (if decide (t = tag) then 1 else 0) + occurrences tag tags.
Proof.
  unfold occurrences. rewrite filter_cons. by destruct (decide (t = tag)).
Qed.

Lemma occurrences_pos (tag : text) (tags : list text) :
  tag ∈ tags ↔ 0 < occurrences tag tags.
Proof.
  induction tags as [|t tags IH].
  - split; [by intros ?%elem_of_nil | unfold occurrences; simpl; lia].
  - rewrite occurrences_cons, elem_of_cons, IH.
    destruct (decide (t = tag)) as [->|Hne].
    + split; [lia | by left].
    + split; [intros [?|?]; [by subst | lia] | right; lia].
Qed.

Lemma occurrences_Permutation (tag : text) (tags tags' : list text) :
  tags ≡ₚ tags' → occurrences tag tags = occurrences tag tags'.
Proof. intros H. unfold occurrences. by rewrite H. Qed.

(** What [update] leaves in the counter. *)
Lemma counter_update_spec (tags : list text) (counter : list (text * nat)) :
  NoDup counter.*1 →
  NoDup (counter_update counter tags).*1
  ∧ (∀ tag, tag ∈ (counter_update counter tags).*1
            ↔ tag ∈ counter.*1 ∨ tag ∈ tags)
  ∧ (∀ tag, counter_get (counter_update counter tags) tag
            = counter_get counter tag + occurrences tag tags).
Proof.
  clear unicode_alnum parse_template.
  revert counter. induction tags as [|t tags IH]; intros c Hnd.
  - simpl. split; [done|]. split.
    + intros tag. split; [by left | by intros [?|?%elem_of_nil]].
    + intros tag. unfold occurrences. simpl. lia.
  - unfold counter_update in *. simpl.
    destruct (IH (counter_add t c) (counter_add_NoDup _ _ Hnd))
      as (H1 & H2 & H3).
    split; [done|]. split.
    + intros tag. rewrite H2, counter_add_keys, elem_of_cons.
      destruct (bool_decide (t ∈ c.*1)) eqn:D.
      * apply bool_decide_eq_true in D. split; [tauto|].
        intros [?|[->|?]]; tauto.
      * rewrite elem_of_app, list_elem_of_singleton. tauto.
    + intros tag. rewrite H3, counter_get_add, occurrences_cons.
      destruct (decide (tag = t)) as [->|Hne].
      * rewrite decide_True by done. lia.
      * rewrite decide_False by done. lia.
Qed.

Lemma elem_of_counter_update (tags : list text) (tag : text) (n : nat) :
  (tag, n) ∈ counter_update [] tags ↔ n = occurrences tag tags ∧ 0 < n.
Proof.
  destruct (counter_update_spec tags [] (NoDup_nil_2)) as (H1 & H2 & H3).
  rewrite (elem_of_counter _ _ _ H1), H2, H3. simpl.
  split.
  - intros [[?%elem_of_nil|Hin] <-]; [done|].
    split; [done | by apply occurrences_pos].
  - intros [-> Hpos]. split; [right; by apply occurrences_pos | done].
Qed.

Lemma counter_update_NoDup (tags : list text) : NoDup (counter_update [] tags).
Proof.
  destruct (counter_update_spec tags [] (NoDup_nil_2)) as (H1 & _).
  by apply (NoDup_fmap_1 fst).
Qed.

Lemma row_before_strict (l : list (text * nat)) :
  StronglySorted row_le l → NoDup l → StronglySorted row_before l.
Proof.
  induction 1 as [|x l Hs IH Hall]; intros Hnd; [constructor|].
  apply NoDup_cons in Hnd as [Hx Hnd]. constructor; [by apply IH|].
  rewrite Forall_forall in *. intros y Hy.
  pose proof (Hall y Hy) as Hle. unfold row_le in Hle.
  apply key_le_spec in Hle as [Hlt|[Heq Hl]]; [by left|]. right.
  split; [done|]. destruct (Str.ltb (fst x) (fst y)) eqn:E; [done|].
  exfalso. apply Hx. destruct x as [tx cx], y as [ty cy]. simpl in *.
  by rewrite (ltb_total _ _ E Hl), Heq.
Qed.

(** C8: the table of the report is ordered by descending count and,
    among equal counts, by ascending tag text; it holds exactly the
    matched tags with their numbers of occurrences that reach
    [min_count]; and it depends only on the multiset of matched tags,
    not on the order in which they were found. *)
Theorem sorted_tags_order_is_deterministic (tags : list text) (min_count : Z) :
  let report := sorted_tags (counter_update [] tags) min_count in
  StronglySorted row_before report
  ∧ (∀ tag n, (tag, n) ∈ report
              ↔ n = occurrences tag tags ∧ 0 < n ∧ (min_count ≤ Z.of_nat n)%Z)
  ∧ (∀ tags', tags ≡ₚ tags' →
       sorted_tags (counter_update [] tags') min_count = report).
Proof.
  clear unicode_alnum parse_template.
  intros report. unfold report, sorted_tags.
  assert (Hperm : ∀ l, sorted_by key_le (filtered_tags (counter_update [] l) min_count)
                       ≡ₚ filtered_tags (counter_update [] l) min_count)
    by (intros; apply sorted_by_Permutation).
  assert (Hnd : ∀ l, NoDup (filtered_tags (counter_update [] l) min_count))
    by (intros; apply NoDup_filter, counter_update_NoDup).
  assert (Hin : ∀ l tag n, (tag, n) ∈ filtered_tags (counter_update [] l) min_count
                ↔ n = occurrences tag l ∧ 0 < n ∧ (min_count ≤ Z.of_nat n)%Z).
  { intros l tag n. unfold filtered_tags.
    rewrite list_elem_of_filter, elem_of_counter_update. simpl. tauto. }
  split; [|split].
  - apply row_before_strict.
    + apply Sorted_StronglySorted; [apply _ | apply sorted_by_Sorted].
    + by rewrite Hperm.
  - intros tag n. by rewrite Hperm, Hin.
  - intros tags' Hp.
    apply (Sorted_unique row_le); [apply sorted_by_Sorted..|].
    rewrite !Hperm. apply NoDup_Permutation; [done..|].
    intros [tag n]. rewrite !Hin. by rewrite (occurrences_Permutation _ _ _ Hp).
Qed.

(** ** clean_done_tags_vault.py: the latin-1 fallback *)

(** *** latin-1 *)

(** A text that latin-1 can encode. *)
Definition latin1_text (t : text) : Prop := Forall (λ c, (c ≤ 255)%N) t.

Lemma latin1_encode_decode (bs : list byte) :
  Codec.latin1_encode (Codec.latin1_decode bs) = Some bs.
Proof.
  unfold Codec.latin1_encode, Codec.latin1_decode. apply mapM_Some_2.
  induction bs as [|b bs IH]; constructor; [apply Byte.of_to_N | done].
Qed.

Lemma latin1_decode_encode (t : text) (bs : list byte) :
  Codec.latin1_encode t = Some bs → Codec.latin1_decode bs = t.
Proof.
  unfold Codec.latin1_encode, Codec.latin1_decode. intros H.
  apply mapM_Some_1 in H. induction H as [|c b t bs Hc _ IH]; [done|].
  rewrite fmap_cons. f_equal; [by apply Byte.to_of_N | done].
Qed.

Lemma latin1_encode_total (t : text) :
  latin1_text t → ∃ bs, Codec.latin1_encode t = Some bs.
Proof.
  unfold Codec.latin1_encode. induction 1 as [|c t Hc _ [bs IH]].
  - by exists [].
  - destruct (Byte.of_N c) as [b|] eqn:E.
    + exists (b :: bs). apply mapM_Some_2. constructor; [done|].
      by apply mapM_Some_1.
    + apply Byte.of_N_None_iff in E. lia.
Qed.

Lemma latin1_decode_text (bs : list byte) : latin1_text (Codec.latin1_decode bs).
Proof.
  unfold latin1_text, Codec.latin1_decode. apply Forall_fmap, Forall_true.
  intros b. apply Byte.to_N_bounded.
Qed.

(** *** What reading and cleaning keep *)

Lemma universal_newlines_Forall (P : N → Prop) (t : text) :
  P 10%N → Forall P t → Forall P (Codec.universal_newlines t).
Proof.
  intros H10. remember (length t) as n eqn:Hn.
  revert t Hn. induction (lt_wf n) as [n _ IH]. intros t -> Ht.
  destruct t as [|c r]; [constructor|]. simpl.
  apply Forall_cons in Ht as [Hc Hr].
  destruct (c =? 13)%N.
  - constructor; [done|]. destruct r as [|d r'].
    + constructor.
    + apply Forall_cons in Hr as [Hd Hr'].
      destruct (d =? 10)%N.
      * apply (IH (length r')); [simpl; lia | done | done].
      * apply (IH (length (d :: r'))); [simpl; lia | done | by constructor].
  - constructor; [done|]. apply (IH (length r)); [simpl; lia | done | done].
Qed.

(** A file without carriage returns is read as it is. *)
Lemma universal_newlines_id (t : text) :
  13%N ∉ t → Codec.universal_newlines t = t.
Proof.
  induction t as [|c r IH]; [done|]. intros Hn.
  apply not_elem_of_cons in Hn as [Hc Hr]. simpl.
  destruct (c =? 13)%N eqn:E; [apply N.eqb_eq in E; by subst|].
  by rewrite IH.
Qed.

Lemma replace_scan_Forall (P : N → Prop) (old s : text) (skip : nat) :
  Forall P s → Forall P (Str.replace_scan old [] skip s).
Proof.
  intros Hs. revert skip. induction Hs as [|c s Hc Hs IH]; intros skip.
  - constructor.
  - simpl. destruct skip; [|apply IH].
    destruct (Str.startswith old (c :: s)); [apply IH|].
    by constructor.
Qed.

Lemma replace_Forall (P : N → Prop) (old s : text) :
  Forall P s → Forall P (Str.replace s old []).
Proof.
  intros Hs. unfold Str.replace. destruct old; [|by apply replace_scan_Forall].
  simpl. induction Hs; simpl; by constructor.
Qed.

Lemma rebuild_Forall (P : N → Prop) (ms : list Re.rmatch_obj) (pos : nat)
  (s : text) :
  Forall P s → Forall P (Re.rebuild (λ _, []) ms pos s).
Proof.
  revert pos s. induction ms as [|m ms IH]; intros pos s Hs; [done|].
  cbn [Re.rebuild]. apply Forall_app. split; [by apply Forall_take|].
  apply IH. by apply Forall_drop.
Qed.

Lemma sub_Forall (P : N → Prop) (r : Re.re) (s : text) :
  Forall P s → Forall P (Re.sub r [] s).
Proof. apply rebuild_Forall. Qed.

Lemma foldl_Forall {A} (P : N → Prop) (f : text → A → text) (l : list A)
  (init : text) :
  (∀ acc m, Forall P acc → Forall P (f acc m)) →
  Forall P init → Forall P (foldl f init l).
Proof.
  intros Hf. revert init. induction l as [|m l IH]; intros init Hi; [done|].
  simpl. by apply IH, Hf.
Qed.

(** Cleaning only removes characters. *)
Lemma clean_content_Forall (P : N → Prop) (content : text) :
  Forall P content → Forall P (snd (clean_content content)).
Proof.
  intros Hc. unfold clean_content. simpl.
  apply foldl_Forall; [intros; by apply sub_Forall|].
  apply foldl_Forall; [intros; by apply replace_Forall | done].
Qed.

(** *** The fallback *)

Lemma backup_path_ne (file_path : path) :
  file_path ++ txt ".backup" ≠ file_path.
Proof.
  intros H. apply (f_equal length) in H. rewrite length_app in H.
  simpl in H. lia.
Qed.

(** ** Literal replacement *)






(** ** What a call may write *)

(** [m] leaves every file outside [S] as it was, whether it returns
    or raises; it may print. *)
Definition writes_within {A} (S : path → Prop) (m : M A) : Prop :=
  ∀ w, locked (fst (m w)) = locked w
       ∧ ∀ p, ¬ S p → files (fst (m w)) !! p = files w !! p.

Lemma writes_within_ret {A} (S : path → Prop) (a : A) : writes_within S (ret a).
Proof. by intros w. Qed.

Lemma writes_within_lift {A} (S : path → Prop) (r : result A) :
  writes_within S (lift r).
Proof. by intros w. Qed.

Lemma writes_within_print (S : path → Prop) (e : event) :
  writes_within S (print e).
Proof. by intros w. Qed.

Lemma writes_within_read_text (S : path → Prop) (enc : encoding) (p : path) :
  writes_within S (read_text enc p).
Proof.
  intros w. unfold read_text.
  destruct (files w !! p) as [bs|]; [|done]. by destruct (decode enc bs).
Qed.

Lemma writes_within_getsize (S : path → Prop) (p : path) :
  writes_within S (getsize p).
Proof. intros w. unfold getsize. by destruct (files w !! p). Qed.

Lemma writes_within_write_text (S : path → Prop) (enc : encoding) (p : path)
  (t : text) :
  S p → writes_within S (write_text enc p t).
Proof.
  intros HS w. unfold write_text. case_bool_decide; [done|].
  destruct (encode enc t); simpl; (split; [done|]); intros q Hq;
    apply lookup_insert_ne; by intros ->.
Qed.

Lemma writes_within_bind {A B} (S : path → Prop) (m : M A) (k : A → M B) :
  writes_within S m → (∀ a, writes_within S (k a)) →
  writes_within S (bind m k).
Proof.
  intros Hm Hk w. unfold bind. specialize (Hm w).
  destruct (m w) as [w1 [a|e]]; simpl in Hm; [|done].
  destruct Hm as [Hl Hf], (Hk a w1) as [Hl' Hf'].
  split; [congruence|]. intros p Hp. by rewrite Hf', Hf.
Qed.

Lemma writes_within_try_except {A} (S : path → Prop) (m : M A)
  (h : exn → M A) :
  writes_within S m → (∀ e, writes_within S (h e)) →
  writes_within S (try_except m h).
Proof.
  intros Hm Hh w. unfold try_except. specialize (Hm w).
  destruct (m w) as [w1 [a|e]]; simpl in Hm; [done|].
  destruct Hm as [Hl Hf], (Hh e w1) as [Hl' Hf'].
  split; [congruence|]. intros p Hp. by rewrite Hf', Hf.
Qed.

Lemma writes_within_when (S : path → Prop) (b : bool) (m : M unit) :
  (b = true → writes_within S m) → writes_within S (when b m).
Proof. destruct b; simpl; [auto | intros _; apply writes_within_ret]. Qed.

Lemma writes_within_mono {A} (S S' : path → Prop) (m : M A) :
  (∀ p, S p → S' p) → writes_within S m → writes_within S' m.
Proof.
  intros HS Hm w. destruct (Hm w) as [Hl Hf]. split; [done|].
  intros p Hp. apply Hf. auto.
Qed.

(** A call that may write nowhere leaves the files as they were. *)
Lemma writes_within_nowhere {A} (m : M A) (w : world) :
  writes_within (λ _, False) m → files (fst (m w)) = files w.
Proof.
  intros Hm. apply map_eq. intros p. destruct (Hm w) as [_ Hf].
  apply Hf. intros [].
Qed.

(** The steps of a script, taken one at a time. *)
Ltac writes_step :=
  first
    [ apply writes_within_ret
    | apply writes_within_lift
    | apply writes_within_print
    | apply writes_within_read_text
    | apply writes_within_getsize
    | apply writes_within_bind; [|intros ?]
    | apply writes_within_try_except; [|intros ?]
    | apply writes_within_when; intros ?
    | match goal with
      | |- writes_within _ (if ?b then _ else _) => destruct b
      | |- writes_within _ (match ?x with _ => _ end) => destruct x
      | |- writes_within _ (let '(_, _) := ?x in _) => destruct x
      end ].

(** The paths that the write phase of a script may touch: the note,
    and its backup when one is asked for; none in a dry run. *)
Definition may_write (file_path backup_path : path)
  (create_backup dry_run : bool) (p : path) : Prop :=
  dry_run = false
  ∧ (p = file_path ∨ (create_backup = true ∧ p = backup_path)).

Lemma convert_tag_to_wikilink_writes (file_path tag wikilink : text)
  (create_backup dry_run convert_yaml exact_match : bool) :
  writes_within
    (may_write file_path
       (file_path ++ txt "." ++ Str.replace tag (txt "#") [] ++ txt ".backup")
       create_backup dry_run)
    (convert_tag_to_wikilink file_path tag wikilink create_backup dry_run
       convert_yaml exact_match).
Proof.
  unfold convert_tag_to_wikilink, may_write. repeat writes_step.
  all: apply writes_within_write_text; destruct dry_run; auto.
Qed.

Lemma simplify_wikilinks_writes (file_path : path)
  (create_backup dry_run : bool) (max_size_kb : Z) :
  writes_within
    (may_write file_path (file_path ++ txt ".backup") create_backup dry_run)
    (simplify_wikilinks file_path create_backup dry_run max_size_kb).
Proof.
  unfold simplify_wikilinks, may_write. repeat writes_step.
  all: apply writes_within_write_text; destruct dry_run; auto.
Qed.

Lemma fix_navigation_links_writes (file_path : path)
  (create_backup dry_run : bool) :
  writes_within
    (may_write file_path (file_path ++ txt ".navfix.backup") create_backup dry_run)
    (fix_navigation_links file_path create_backup dry_run).
Proof.
  unfold fix_navigation_links, may_write. repeat writes_step.
  all: apply writes_within_write_text; destruct dry_run; auto.
Qed.

Lemma clean_done_tags_latin1_writes (file_path : path)
  (create_backup dry_run : bool) :
  writes_within
    (may_write file_path (file_path ++ txt ".backup") create_backup dry_run)
    (clean_done_tags_latin1 file_path create_backup dry_run).
Proof.
  unfold clean_done_tags_latin1, may_write. repeat writes_step.
  all: apply writes_within_write_text; destruct dry_run; auto.
Qed.

Lemma clean_done_tags_writes (file_path : path)
  (create_backup dry_run verbose : bool) :
  writes_within
    (may_write file_path (file_path ++ txt ".backup") create_backup dry_run)
    (clean_done_tags file_path create_backup dry_run verbose).
Proof.
  unfold clean_done_tags.
  apply writes_within_try_except;
    [|intros []; try apply clean_done_tags_latin1_writes;
      repeat writes_step].
  unfold may_write. repeat writes_step.
  all: apply writes_within_write_text; destruct dry_run; auto.
Qed.

(** A call for a note that does not exist writes nothing. *)
Lemma convert_missing_note (file_path : path) (tag wikilink : text)
  (create_backup dry_run convert_yaml exact_match : bool) (w : world) :
  files w !! file_path = None →
  files (fst (convert_tag_to_wikilink file_path tag wikilink create_backup
                dry_run convert_yaml exact_match w)) = files w.
Proof.
  intros Hf. unfold convert_tag_to_wikilink, try_except, bind, read_text.
  by rewrite Hf.
Qed.

Lemma simplify_missing_note (file_path : path) (create_backup dry_run : bool)
  (max_size_kb : Z) (w : world) :
  files w !! file_path = None →
  files (fst (simplify_wikilinks file_path create_backup dry_run
                max_size_kb w)) = files w.
Proof.
  intros Hf. unfold simplify_wikilinks, try_except, bind, getsize.
  by rewrite Hf.
Qed.

Lemma fix_missing_note (file_path : path) (create_backup dry_run : bool)
  (w : world) :
  files w !! file_path = None →
  files (fst (fix_navigation_links file_path create_backup dry_run w))
  = files w.
Proof.
  intros Hf. unfold fix_navigation_links, try_except, bind, read_text.
  by rewrite Hf.
Qed.

Lemma clean_missing_note (file_path : path)
  (create_backup dry_run verbose : bool) (w : world) :
  files w !! file_path = None →
  files (fst (clean_done_tags file_path create_backup dry_run verbose w))
  = files w.
Proof.
  intros Hf. unfold clean_done_tags, try_except, bind, read_text.
  by rewrite Hf.
Qed.

(** [m] creates no file outside [C]. *)
Definition creates_within {A} (C : path → Prop) (m : M A) : Prop :=
  ∀ w p, ¬ C p → files w !! p = None → files (fst (m w)) !! p = None.

Lemma creates_within_ret {A} (C : path → Prop) (a : A) : creates_within C (ret a).
Proof. by intros w p. Qed.

Lemma creates_within_print (C : path → Prop) (e : event) :
  creates_within C (print e).
Proof. by intros w p. Qed.

Lemma creates_within_bind {A B} (C : path → Prop) (m : M A) (k : A → M B) :
  creates_within C m → (∀ a, creates_within C (k a)) →
  creates_within C (bind m k).
Proof.
  intros Hm Hk w p Hp Hnone. unfold bind. specialize (Hm w p Hp Hnone).
  destruct (m w) as [w1 [a|e]]; simpl in Hm; [|done]. by apply Hk.
Qed.

Lemma creates_within_when (C : path → Prop) (b : bool) (m : M unit) :
  creates_within C m → creates_within C (when b m).
Proof. destruct b; simpl; [done | intros _; apply creates_within_ret]. Qed.

Lemma creates_within_mono {A} (C C' : path → Prop) (m : M A) :
  (∀ p, C p → C' p) → creates_within C m → creates_within C' m.
Proof. intros HC Hm w p Hp. apply Hm. auto. Qed.

(** A script creates no file but the backup of its note. *)
Lemma creates_only_backup {A} (file_path backup_path : path)
  (create_backup dry_run : bool) (m : M A) :
  writes_within (may_write file_path backup_path create_backup dry_run) m →
  (∀ w, files w !! file_path = None → files (fst (m w)) = files w) →
  creates_within
    (λ p, dry_run = false ∧ create_backup = true ∧ p = backup_path) m.
Proof.
  intros Hw Hmissing w p Hp Hnone.
  destruct (decide (p = file_path)) as [->|Hne].
  - by rewrite Hmissing.
  - destruct (Hw w) as [_ Hf]. rewrite Hf; [done|].
    unfold may_write. intros [Hd [?|[Hb ?]]]; [done|]. by apply Hp.
Qed.

(** *** The batches *)

(** The paths that a batch over [md_files] may touch. *)
Definition batch_may_write (md_files : list path) (backup_of : path → path)
  (create_backup dry_run : bool) (p : path) : Prop :=
  ∃ f, f ∈ md_files ∧ may_write f (backup_of f) create_backup dry_run p.

(** The backups that a batch over [md_files] may create. *)
Definition batch_may_create (md_files : list path) (backup_of : path → path)
  (create_backup dry_run : bool) (p : path) : Prop :=
  ∃ f, f ∈ md_files
       ∧ dry_run = false ∧ create_backup = true ∧ p = backup_of f.

Lemma batch_may_write_head (f : path) (md_files : list path)
  (backup_of : path → path) (create_backup dry_run : bool) (p : path) :
  may_write f (backup_of f) create_backup dry_run p →
  batch_may_write (f :: md_files) backup_of create_backup dry_run p.
Proof. intros H. exists f. split; [left | done]. Qed.

Lemma batch_may_write_tail (f : path) (md_files : list path)
  (backup_of : path → path) (create_backup dry_run : bool) (p : path) :
  batch_may_write md_files backup_of create_backup dry_run p →
  batch_may_write (f :: md_files) backup_of create_backup dry_run p.
Proof. intros (g & Hg & H). exists g. split; [by right | done]. Qed.

Lemma batch_may_create_head (f : path) (md_files : list path)
  (backup_of : path → path) (create_backup dry_run : bool) (p : path) :
  dry_run = false ∧ create_backup = true ∧ p = backup_of f →
  batch_may_create (f :: md_files) backup_of create_backup dry_run p.
Proof. intros H. exists f. split; [left | done]. Qed.

Lemma batch_may_create_tail (f : path) (md_files : list path)
  (backup_of : path → path) (create_backup dry_run : bool) (p : path) :
  batch_may_create md_files backup_of create_backup dry_run p →
  batch_may_create (f :: md_files) backup_of create_backup dry_run p.
Proof. intros (g & Hg & H). exists g. split; [by right | done]. Qed.

(** What the frame of a batch says about a single path. *)
Lemma batch_frame {A} (md_files : list path) (backup_of : path → path)
  (create_backup dry_run : bool) (m : M A) (w : world) :
  writes_within (batch_may_write md_files backup_of create_backup dry_run) m →
  creates_within (batch_may_create md_files backup_of create_backup dry_run) m →
  (dry_run = true → files (fst (m w)) = files w)
  ∧ (∀ p, (∀ f, f ∈ md_files →
             p ≠ f ∧ (create_backup = true → p ≠ backup_of f)) →
          files (fst (m w)) !! p = files w !! p)
  ∧ (∀ p, files w !! p = None →
          (create_backup = true → ∀ f, f ∈ md_files → p ≠ backup_of f) →
          files (fst (m w)) !! p = None).
Proof.
  intros Hw Hc. split; [|split].
  - intros ->. apply map_eq. intros p. apply (Hw w).
    by intros (f & _ & [? _]).
  - intros p Hp. apply (Hw w). intros (f & Hf & [_ [->|[Hb ->]]]).
    + by destruct (Hp f Hf).
    + by destruct (Hp f Hf) as [_ H]; apply H.
  - intros p Hnone Hp. apply (Hc w); [|done].
    intros (f & Hf & _ & Hb & ->). by apply (Hp Hb f).
Qed.

Lemma creates_within_of_writes {A} (C : path → Prop) (m : M A) :
  writes_within C m → creates_within C m.
Proof. intros Hm w p Hp Hnone. destruct (Hm w) as [_ Hf]. by rewrite Hf. Qed.

(** The step of a loop over the files: the progress line, the call for
    the file at the head, and the loop over the rest. *)
Ltac loop_frame f backup_of Hwrites Hmissing IH :=
  split;
  [ apply writes_within_bind;
      [apply writes_within_when; intros _; apply writes_within_print|];
    intros _; apply writes_within_bind;
      [ eapply writes_within_mono; [apply batch_may_write_head|];
        apply Hwrites
      | intros [? ?]; eapply writes_within_mono; [apply batch_may_write_tail|];
        apply IH ]
  | apply creates_within_bind;
      [apply creates_within_when, creates_within_print|];
    intros _; apply creates_within_bind;
      [ eapply creates_within_mono; [apply batch_may_create_head|];
        apply (creates_only_backup f (backup_of f)); [apply Hwrites|];
        intros w Hf; by apply Hmissing
      | intros [? ?]; eapply creates_within_mono; [apply batch_may_create_tail|];
        apply IH ] ].

Lemma convert_loop_writes (tag wikilink : text)
  (create_backup dry_run convert_yaml exact_match : bool)
  (file_count : nat) (md_files : list path) (i : nat) (acc : batch) :
  let backup_of f :=
    f ++ txt "." ++ Str.replace tag (txt "#") [] ++ txt ".backup" in
  writes_within (batch_may_write md_files backup_of create_backup dry_run)
    (convert_loop tag wikilink create_backup dry_run convert_yaml exact_match
       file_count i md_files acc)
  ∧ creates_within (batch_may_create md_files backup_of create_backup dry_run)
      (convert_loop tag wikilink create_backup dry_run convert_yaml exact_match
         file_count i md_files acc).
Proof.
  intros backup_of. revert i acc.
  induction md_files as [|f fs IH]; intros i acc; cbn [convert_loop].
  - split; [apply writes_within_ret | apply creates_within_ret].
  - loop_frame f backup_of convert_tag_to_wikilink_writes convert_missing_note IH.
Qed.

Lemma simplify_loop_writes (create_backup dry_run : bool) (max_size_kb : Z)
  (file_count : nat) (md_files : list path) (i : nat) (acc : batch) :
  let backup_of f := f ++ txt ".backup" in
  writes_within (batch_may_write md_files backup_of create_backup dry_run)
    (simplify_loop create_backup dry_run max_size_kb file_count i md_files acc)
  ∧ creates_within (batch_may_create md_files backup_of create_backup dry_run)
      (simplify_loop create_backup dry_run max_size_kb file_count i md_files acc).
Proof.
  intros backup_of. revert i acc.
  induction md_files as [|f fs IH]; intros i acc; cbn [simplify_loop].
  - split; [apply writes_within_ret | apply creates_within_ret].
  - loop_frame f backup_of simplify_wikilinks_writes simplify_missing_note IH.
Qed.

Lemma daily_loop_writes (create_backup dry_run : bool)
  (file_count : nat) (daily_files : list path) (i : nat)
  (acc : list path * nat) :
  let backup_of f := f ++ txt ".navfix.backup" in
  writes_within (batch_may_write daily_files backup_of create_backup dry_run)
    (daily_loop create_backup dry_run file_count i daily_files acc)
  ∧ creates_within (batch_may_create daily_files backup_of create_backup dry_run)
      (daily_loop create_backup dry_run file_count i daily_files acc).
Proof.
  intros backup_of. revert i acc.
  induction daily_files as [|f fs IH]; intros i acc; cbn [daily_loop].
  - split; [apply writes_within_ret | apply creates_within_ret].
  - loop_frame f backup_of fix_navigation_links_writes fix_missing_note IH.
Qed.

Lemma clean_loop_writes (create_backup dry_run verbose : bool)
  (file_count : nat) (md_files : list path) (i : nat) (acc : batch) :
  let backup_of f := f ++ txt ".backup" in
  writes_within (batch_may_write md_files backup_of create_backup dry_run)
    (clean_loop create_backup dry_run verbose file_count i md_files acc)
  ∧ creates_within (batch_may_create md_files backup_of create_backup dry_run)
      (clean_loop create_backup dry_run verbose file_count i md_files acc).
Proof.
  intros backup_of. revert i acc.
  induction md_files as [|f fs IH]; intros i acc; cbn [clean_loop].
  - split; [apply writes_within_ret | apply creates_within_ret].
  - loop_frame f backup_of clean_done_tags_writes clean_missing_note IH.
Qed.

(** The scan for sample files only reads. *)
Lemma sample_scan_writes (S : path → Prop) (md_files sample_files : list path) :
  writes_within S (sample_scan md_files sample_files).
Proof.
  revert sample_files.
  induction md_files as [|f fs IH]; intros acc; cbn [sample_scan].
  - apply writes_within_ret.
  - apply writes_within_bind; [repeat writes_step|].
    intros [l b]. simpl. destruct b; [apply writes_within_ret | apply IH].
Qed.

(** The whole batch: the line that announces the files, the loop, and
    the value returned. *)
Ltac batch_frame_of Hloop :=
  apply batch_frame;
  [ apply writes_within_bind; [apply writes_within_print|];
    intros _; apply writes_within_bind; [apply Hloop|];
    intros ?; apply writes_within_ret
  | apply creates_within_bind; [apply creates_within_print|];
    intros _; apply creates_within_bind; [apply Hloop|];
    intros ?; apply creates_within_ret ].

(** X1: a batch of tag conversions in a dry run leaves every file as
    it was; otherwise the only files whose content can differ after
    the batch are the listed notes and, when backups are asked for,
    their backups [<note>.<tag without #>.backup]; and the only files
    that can come into existence are such backups. *)
Theorem convert_batch_writes_notes_and_backups (md_files : list path)
  (tag wikilink : text) (create_backup dry_run convert_yaml exact_match : bool)
  (w : world) :
  let backup_of f :=
    f ++ txt "." ++ Str.replace tag (txt "#") [] ++ txt ".backup" in
  let w' := fst (convert_process_vault md_files tag wikilink create_backup
                   dry_run convert_yaml exact_match w) in
  (dry_run = true → files w' = files w)
  ∧ (∀ p, (∀ f, f ∈ md_files →
             p ≠ f ∧ (create_backup = true → p ≠ backup_of f)) →
          files w' !! p = files w !! p)
  ∧ (∀ p, files w !! p = None →
          (create_backup = true → ∀ f, f ∈ md_files → p ≠ backup_of f) →
          files w' !! p = None).
Proof.
  intros backup_of w'. unfold w', convert_process_vault.
  batch_frame_of convert_loop_writes.
Qed.

(** X2: a batch of wikilink simplifications in a dry run leaves every
    file as it was; otherwise the only files whose content can differ
    after the batch are the listed notes and, when backups are asked
    for, their backups [<note>.backup]; and the only files that can
    come into existence are such backups. *)
Theorem simplify_batch_writes_notes_and_backups (md_files : list path)
  (create_backup dry_run : bool) (max_size_kb : Z) (w : world) :
  let backup_of f := f ++ txt ".backup" in
  let w' := fst (simplify_batch md_files create_backup dry_run max_size_kb w) in
  (dry_run = true → files w' = files w)
  ∧ (∀ p, (∀ f, f ∈ md_files →
             p ≠ f ∧ (create_backup = true → p ≠ backup_of f)) →
          files w' !! p = files w !! p)
  ∧ (∀ p, files w !! p = None →
          (create_backup = true → ∀ f, f ∈ md_files → p ≠ backup_of f) →
          files w' !! p = None).
Proof.
  intros backup_of w'. unfold w', simplify_batch.
  batch_frame_of simplify_loop_writes.
Qed.

(** X3: a batch of navigation fixes in a dry run leaves every file as
    it was; otherwise the only files whose content can differ after
    the batch are the listed daily notes and, when backups are asked
    for, their backups [<note>.navfix.backup]; and the only files that
    can come into existence are such backups. *)
Theorem daily_batch_writes_notes_and_backups (daily_files : list path)
  (create_backup dry_run : bool) (w : world) :
  let backup_of f := f ++ txt ".navfix.backup" in
  let w' := fst (process_daily_notes daily_files create_backup dry_run w) in
  (dry_run = true → files w' = files w)
  ∧ (∀ p, (∀ f, f ∈ daily_files →
             p ≠ f ∧ (create_backup = true → p ≠ backup_of f)) →
          files w' !! p = files w !! p)
  ∧ (∀ p, files w !! p = None →
          (create_backup = true → ∀ f, f ∈ daily_files → p ≠ backup_of f) →
          files w' !! p = None).
Proof.
  intros backup_of w'. unfold w', process_daily_notes.
  batch_frame_of daily_loop_writes.
Qed.

(** X4: a batch of tag cleanings in a dry run leaves every file as it
    was, with or without the verbose scan and whatever the encoding of
    the notes; otherwise the only files whose content can differ after
    the batch are the listed notes and, when backups are asked for,
    their backups [<note>.backup]; and the only files that can come
    into existence are such backups. *)
Theorem clean_batch_writes_notes_and_backups (md_files : list path)
  (create_backup dry_run verbose : bool) (w : world) :
  let backup_of f := f ++ txt ".backup" in
  let w' := fst (process_vault md_files create_backup dry_run verbose w) in
  (dry_run = true → files w' = files w)
  ∧ (∀ p, (∀ f, f ∈ md_files →
             p ≠ f ∧ (create_backup = true → p ≠ backup_of f)) →
          files w' !! p = files w !! p)
  ∧ (∀ p, files w !! p = None →
          (create_backup = true → ∀ f, f ∈ md_files → p ≠ backup_of f) →
          files w' !! p = None).
Proof.
  intros backup_of w'. unfold w', process_vault.
  assert (∀ S, writes_within S
            (when verbose
               (let* sample_files := sample_scan md_files [] in
                if bool_decide (sample_files ≠ [])
                then print (PrintSampleFiles sample_files)
                else print PrintNoSampleFiles))) as Hscan.
  { intros S. apply writes_within_when. intros _.
    apply writes_within_bind; [apply sample_scan_writes|].
    intros l. destruct (bool_decide (l ≠ [])); apply writes_within_print. }
  apply batch_frame.
  - apply writes_within_bind; [apply writes_within_print|].
    intros _. apply writes_within_bind; [apply Hscan|].
    intros _. apply writes_within_bind; [apply clean_loop_writes|].
    intros ?. apply writes_within_ret.
  - apply creates_within_bind; [apply creates_within_print|].
    intros _. apply creates_within_bind;
      [apply creates_within_of_writes, Hscan|].
    intros _. apply creates_within_bind; [apply clean_loop_writes|].
    intros ?. apply creates_within_ret.
Qed.

(** ** What the batches return *)

Lemma convert_tag_to_wikilink_returns (file_path : path) (tag wikilink : text)
  (create_backup dry_run convert_yaml exact_match : bool) (w : world) :
  ∃ w' r, convert_tag_to_wikilink file_path tag wikilink create_backup dry_run
            convert_yaml exact_match w = (w', Ok r).
Proof.
  apply try_except_returns. intros e w0. unfold bind, print, ret. simpl. eauto.
Qed.

Lemma simplify_wikilinks_returns (file_path : path)
  (create_backup dry_run : bool) (max_size_kb : Z) (w : world) :
  ∃ w' r, simplify_wikilinks file_path create_backup dry_run max_size_kb w
          = (w', Ok r).
Proof.
  apply try_except_returns. intros e w0. unfold bind, print, ret. simpl. eauto.
Qed.

(** A navigation fix counts one fix for a modified note and none
    otherwise. *)
Lemma fix_navigation_links_returns (file_path : path)
  (create_backup dry_run : bool) (w : world) :
  ∃ w' (modified : bool),
    fix_navigation_links file_path create_backup dry_run w
    = (w', Ok (modified, if modified then 1 else 0)).
Proof.
  unfold fix_navigation_links, try_except, bind, read_text, when,
    write_text, print, ret.
  repeat (case_match; simplify_eq/=);
    first [ eexists; exists true; reflexivity
          | eexists; exists false; reflexivity ].
Qed.

Lemma progress_line_returns (b : bool) (e : event) (w : world) :
  ∃ w1, when b (print e) w = (w1, Ok tt).
Proof. unfold when, print, ret. destruct b; eauto. Qed.

(** The accumulators after a loop over the files: the files found
    modified are appended in the order of the list, and the total
    grows by the sum of their counts. *)
Lemma clean_loop_accounts (create_backup dry_run verbose : bool)
  (file_count : nat) (md_files : list path) (i : nat) (acc : batch)
  (w : world) :
  ∃ w' l,
    clean_loop create_backup dry_run verbose file_count i md_files acc w
    = (w', Ok {| modified_files := modified_files acc ++ l;
                 total_tags := total_tags acc + sum_list l.*2 |})
    ∧ l.*1 `sublist_of` md_files.
Proof.
  revert i acc w. induction md_files as [|f fs IH]; intros i acc w;
    cbn [clean_loop].
  - exists w, []. rewrite app_nil_r. simpl. rewrite Nat.add_0_r.
    by destruct acc.
  - unfold bind at 1.
    destruct (progress_line_returns (i mod 100 =? 0)
                (PrintProgress (i + 1) file_count) w) as [w1 ->].
    unfold bind at 1.
    destruct (clean_done_tags_returns f create_backup dry_run verbose w1)
      as (w2 & [b n] & ->).
    destruct b.
    + destruct (IH (S i) {| modified_files := modified_files acc ++ [(f, n)];
                            total_tags := total_tags acc + n |} w2)
        as (w3 & l & -> & Hsub).
      exists w3, ((f, n) :: l). cbn [modified_files total_tags].
      rewrite <- (assoc_L (++)). simpl. rewrite Nat.add_assoc.
      split; [done | by apply sublist_skip].
    + destruct (IH (S i) acc w2) as (w3 & l & -> & Hsub).
      exists w3, l. split; [done | by apply sublist_cons].
Qed.

Lemma daily_loop_accounts (create_backup dry_run : bool)
  (file_count : nat) (daily_files : list path) (i : nat)
  (acc : list path * nat) (w : world) :
  ∃ w' l,
    daily_loop create_backup dry_run file_count i daily_files acc w
    = (w', Ok (fst acc ++ l, snd acc + length l))
    ∧ l `sublist_of` daily_files.
Proof.
  revert i acc w. induction daily_files as [|f fs IH]; intros i acc w;
    cbn [daily_loop].
  - exists w, []. rewrite app_nil_r. simpl. rewrite Nat.add_0_r.
    by destruct acc.
  - unfold bind at 1.
    destruct (progress_line_returns
                ((i mod 20 =? 0) || (Z.of_nat i =? Z.of_nat file_count - 1)%Z)
                (PrintProgress (i + 1) file_count) w) as [w1 ->].
    unfold bind at 1.
    destruct (fix_navigation_links_returns f create_backup dry_run w1)
      as (w2 & b & ->).
    destruct b.
    + destruct (IH (S i) (fst acc ++ [f], snd acc + 1) w2)
        as (w3 & l & -> & Hsub).
      exists w3, (f :: l). cbn [fst snd].
      rewrite <- (assoc_L (++)). simpl. rewrite <- Nat.add_assoc.
      split; [done | by apply sublist_skip].
    + destruct (IH (S i) acc w2) as (w3 & l & -> & Hsub).
      exists w3, l. split; [done | by apply sublist_cons].
Qed.

(** A run of the loop of a batch: before the call on the file of
    index [i] the loop prints a progress line when [announce i] holds,
    then [call] runs on the file, in the world that the call before it
    left.  [rs] holds the values of the calls, in order. *)
Inductive runs (announce : nat → bool) (file_count : nat)
  (call : path → M (bool * nat))
  : nat → list path → world → list (bool * nat) → world → Prop :=
| runs_nil i w : runs announce file_count call i [] w [] w
| runs_cons i f fs w w1 w2 r rs w' :
    when (announce i) (print (PrintProgress (i + 1) file_count)) w
    = (w1, Ok tt) →
    call f w1 = (w2, Ok r) →
    runs announce file_count call (S i) fs w2 rs w' →
    runs announce file_count call i (f :: fs) w (r :: rs) w'.

(** The files whose call reported a modification, each with the count
    of its call. *)
Definition reported (fs : list path) (rs : list (bool * nat))
  : list (path * nat) :=
  omap (λ p : path * (bool * nat),
          if fst (snd p) then Some (fst p, snd (snd p)) else None)
    (zip fs rs).

Lemma reported_sublist (fs : list path) (rs : list (bool * nat)) :
  (reported fs rs).*1 `sublist_of` fs.
Proof.
  revert rs. induction fs as [|f fs IH]; intros rs; [done|].
  destruct rs as [|[b n] rs]; [apply sublist_nil_l|].
  unfold reported. cbn [zip zip_with omap list_omap fst snd].
  destruct b; cbn [fmap list_fmap fst].
  - apply sublist_skip, IH.
  - apply sublist_cons, IH.
Qed.

(** A file is listed with a count exactly when a call on it returned
    [True] with that count. *)
Lemma reported_spec (fs : list path) (rs : list (bool * nat)) (p : path)
  (n : nat) :
  (p, n) ∈ reported fs rs
  ↔ ∃ i, fs !! i = Some p ∧ rs !! i = Some (true, n).
Proof.
  revert rs. induction fs as [|f fs IH]; intros rs.
  - split; [by intros ?%elem_of_nil | by intros (i & ? & _)].
  - destruct rs as [|[b k] rs].
    { split; [by intros ?%elem_of_nil | by intros (i & _ & ?)]. }
    assert (Htail : (p, n) ∈ reported fs rs
                    ↔ ∃ i, (f :: fs) !! S i = Some p
                           ∧ ((b, k) :: rs) !! S i = Some (true, n))
      by apply IH.
    unfold reported in *. cbn [zip zip_with omap list_omap fst snd].
    destruct b.
    + rewrite elem_of_cons, Htail. split.
      * intros [[= -> ->]|(i & Hi)]; [by exists 0 | by exists (S i)].
      * intros ([|i] & Hf & Hr); [left | right; by exists i].
        simpl in Hf, Hr. congruence.
    + rewrite Htail. split.
      * intros (i & Hi). by exists (S i).
      * intros ([|i] & Hf & Hr); [done | by exists i].
Qed.

(** A loop that calls [call] on each file and keeps the files reported
    as modified returns what [reported] says of the run of its
    calls. *)
Lemma loop_runs (loop : nat → list path → batch → M batch)
  (announce : nat → bool) (file_count : nat) (call : path → M (bool * nat)) :
  (∀ i acc, loop i [] acc = ret acc) →
  (∀ i f fs acc,
     loop i (f :: fs) acc
     = (let* _ := when (announce i) (print (PrintProgress (i + 1) file_count)) in
        let* r := call f in
        let '(was_modified, n) := r in
        loop (S i) fs
          (if was_modified
           then {| modified_files := modified_files acc ++ [(f, n)];
                   total_tags := total_tags acc + n |}
           else acc))) →
  (∀ f w, ∃ w' r, call f w = (w', Ok r)) →
  ∀ fs i acc w,
    ∃ w' rs,
      runs announce file_count call i fs w rs w'
      ∧ loop i fs acc w
        = (w', Ok {| modified_files := modified_files acc ++ reported fs rs;
                     total_tags := total_tags acc
                                   + sum_list (reported fs rs).*2 |}).
Proof.
  intros Hnil Hcons Hcall fs.
  induction fs as [|f fs IH]; intros i acc w.
  - exists w, []. split; [constructor|]. rewrite Hnil. unfold ret, reported.
    simpl. rewrite app_nil_r, Nat.add_0_r. by destruct acc.
  - rewrite Hcons. unfold bind at 1.
    destruct (progress_line_returns (announce i)
                (PrintProgress (i + 1) file_count) w) as [w1 Hw1].
    rewrite Hw1. unfold bind at 1.
    destruct (Hcall f w1) as (w2 & [b n] & Hw2). rewrite Hw2.
    destruct (IH (S i)
                (if b
                 then {| modified_files := modified_files acc ++ [(f, n)];
                         total_tags := total_tags acc + n |}
                 else acc) w2) as (w3 & rs & Hruns & ->).
    exists w3, ((b, n) :: rs). split; [by econstructor|].
    unfold reported. cbn [zip zip_with omap list_omap fst snd].
    destruct b; cbn [modified_files total_tags fmap list_fmap sum_list snd].
    + by rewrite <- (assoc_L (++)), Nat.add_assoc.
    + done.
Qed.

(** X5: a batch of tag conversions always runs to its end.  It calls
    the conversion on every file of the list, in order, each call in
    the world that the call before it left; its value lists exactly
    the files whose call reported a modification, in that order, each
    with the count of that call; the total is the sum of the listed
    counts, and the number of files is the length of the list of
    files. *)
Theorem convert_batch_accounts (md_files : list path) (tag wikilink : text)
  (create_backup dry_run convert_yaml exact_match : bool) (w : world) :
  let call file_path :=
    convert_tag_to_wikilink file_path tag wikilink create_backup dry_run
      convert_yaml exact_match in
  let w0 := {| files := files w; locked := locked w;
               stdout := stdout w ++ [PrintFoundFiles (length md_files)] |} in
  ∃ w' rs,
    runs (λ i, i mod 100 =? 0) (length md_files) call 0 md_files w0 rs w'
    ∧ convert_process_vault md_files tag wikilink create_backup dry_run
        convert_yaml exact_match w
      = (w', Ok (reported md_files rs, sum_list (reported md_files rs).*2,
                 length md_files))
    ∧ (reported md_files rs).*1 `sublist_of` md_files.
Proof.
  intros call w0. unfold convert_process_vault, bind, print. fold w0.
  destruct (loop_runs
              (λ i fs acc, convert_loop tag wikilink create_backup dry_run
                             convert_yaml exact_match (length md_files) i fs acc)
              (λ i, i mod 100 =? 0) (length md_files) call
              ltac:(done) ltac:(done)
              ltac:(intros; apply convert_tag_to_wikilink_returns)
              md_files 0 {| modified_files := []; total_tags := 0 |} w0)
    as (w' & rs & Hruns & ->).
  exists w', rs. split; [done|]. split; [done | apply reported_sublist].
Qed.

(** X6: a batch of wikilink simplifications always runs to its end.
    It calls the simplification on every file of the list, in order,
    each call in the world that the call before it left; its value
    lists exactly the files whose call reported a modification, in
    that order, each with the count of that call; the total is the sum
    of the listed counts, and the number of files is the length of the
    list of files. *)
Theorem simplify_batch_accounts (md_files : list path)
  (create_backup dry_run : bool) (max_size_kb : Z) (w : world) :
  let call file_path :=
    simplify_wikilinks file_path create_backup dry_run max_size_kb in
  let announce i :=
    (i mod 50 =? 0) || (Z.of_nat i =? Z.of_nat (length md_files) - 1)%Z in
  let w0 := {| files := files w; locked := locked w;
               stdout := stdout w ++ [PrintFoundFiles (length md_files)] |} in
  ∃ w' rs,
    runs announce (length md_files) call 0 md_files w0 rs w'
    ∧ simplify_batch md_files create_backup dry_run max_size_kb w
      = (w', Ok (reported md_files rs, sum_list (reported md_files rs).*2,
                 length md_files))
    ∧ (reported md_files rs).*1 `sublist_of` md_files.
Proof.
  intros call announce w0. unfold simplify_batch, bind, print. fold w0.
  destruct (loop_runs
              (λ i fs acc, simplify_loop create_backup dry_run max_size_kb
                             (length md_files) i fs acc)
              announce (length md_files) call
              ltac:(done) ltac:(done)
              ltac:(intros; apply simplify_wikilinks_returns)
              md_files 0 {| modified_files := []; total_tags := 0 |} w0)
    as (w' & rs & Hruns & ->).
  exists w', rs. split; [done|]. split; [done | apply reported_sublist].
Qed.

(** X7: a batch of navigation fixes always runs to its end; its value
    lists, in the order of the files, the daily notes that a call
    reported as modified; the total number of fixes is the number of
    listed notes, since a call fixes one row at most; and the number
    of files is the length of the list of files. *)
Theorem daily_batch_accounts (daily_files : list path)
  (create_backup dry_run : bool) (w : world) :
  ∃ w' modified,
    process_daily_notes daily_files create_backup dry_run w
    = (w', Ok (modified, length modified, length daily_files))
    ∧ modified `sublist_of` daily_files.
Proof.
  unfold process_daily_notes, bind, print.
  destruct (daily_loop_accounts create_backup dry_run
              (length daily_files) daily_files 0 ([], 0)
              {| files := files w; locked := locked w;
                 stdout := stdout w ++ [PrintFoundFiles (length daily_files)] |})
    as (w' & l & -> & Hsub).
  by exists w', l.
Qed.

(** X8: the total that a batch of tag cleanings returns is the sum of
    the counts of the files it lists as modified, and these files are
    listed in the order of the files of the batch. *)
Theorem clean_batch_accounts (md_files : list path)
  (create_backup dry_run verbose : bool) (w : world) :
  ∃ w' modified,
    process_vault md_files create_backup dry_run verbose w
    = (w', Ok (modified, sum_list modified.*2, length md_files))
    ∧ modified.*1 `sublist_of` md_files.
Proof.
  unfold process_vault.
  unfold bind at 1. unfold print at 1. cbv beta iota.
  unfold bind at 1.
  assert (∃ w1,
            when verbose
              (let* sample_files := sample_scan md_files [] in
               if bool_decide (sample_files ≠ [])
               then print (PrintSampleFiles sample_files)
               else print PrintNoSampleFiles)
              {| files := files w; locked := locked w;
                 stdout := stdout w ++ [PrintFoundFiles (length md_files)] |}
            = (w1, Ok tt)) as [w1 ->].
  { destruct verbose; simpl; [|unfold ret; eauto].
    unfold bind.
    destruct (sample_scan_returns md_files []
                {| files := files w; locked := locked w;
                   stdout := stdout w ++ [PrintFoundFiles (length md_files)] |})
      as (w1 & l & ->).
    destruct (bool_decide (l ≠ [])); unfold print; eauto. }
  unfold bind.
  destruct (clean_loop_accounts create_backup dry_run verbose
              (length md_files) md_files 0
              {| modified_files := []; total_tags := 0 |} w1)
    as (w' & l & -> & Hsub).
  by exists w', l.
Qed.

(** ** simplify_wikilinks.py: the files of a run *)

Lemma slice_all {A} (l : list A) : slice l None None = l.
Proof.
  unfold slice. simpl. rewrite Z.sub_0_r, Nat2Z.id. apply firstn_all.
Qed.

Lemma slice_to {A} (l : list A) (n : Z) :
  (0 ≤ n)%Z → slice l None (Some n) = take (Z.to_nat n) l.
Proof.
  intros Hn. unfold slice, slice_index. simpl.
  rewrite (proj2 (Z.ltb_ge n 0)) by done. rewrite Z.sub_0_r.
  change (Z.to_nat 0) with 0. rewrite drop_0.
  destruct (decide (n ≤ Z.of_nat (length l))%Z).
  - f_equal. lia.
  - rewrite !take_ge; [done | lia | lia].
Qed.

Lemma slice_to_negative {A} (l : list A) (n : Z) :
  (n < 0)%Z → slice l None (Some n) = take (length l - Z.to_nat (- n)) l.
Proof.
  intros Hn. unfold slice, slice_index. simpl.
  rewrite (proj2 (Z.ltb_lt n 0)) by done.
  change (Z.to_nat 0) with 0. rewrite drop_0. f_equal. lia.
Qed.

Lemma slice_from {A} (l : list A) (n : Z) :
  (0 ≤ n)%Z → slice l (Some n) None = drop (Z.to_nat n) l.
Proof.
  intros Hn. unfold slice, slice_index. simpl.
  rewrite (proj2 (Z.ltb_ge n 0)) by done.
  destruct (decide (n ≤ Z.of_nat (length l))%Z).
  - replace (Z.to_nat (0 `max` (Z.of_nat (length l) `min` n)))
      with (Z.to_nat n) by lia.
    apply take_ge. rewrite length_drop. lia.
  - replace (Z.to_nat (0 `max` (Z.of_nat (length l) `min` n)))
      with (length l) by lia.
    rewrite !drop_ge by lia. apply take_nil.
Qed.

Lemma path_le_total (a b : path) : path_le a b = false → path_le b a = true.
Proof.
  unfold path_le. rewrite negb_false_iff, negb_true_iff. intros Hba.
  destruct (Str.ltb a b) eqn:Hab; [|done].
  pose proof (ltb_trans _ _ _ Hab Hba) as H. by rewrite ltb_irrefl in H.
Qed.

Lemma insert_by_Sorted_total {A} (le : A → A → bool) (x : A) (l : list A) :
  (∀ a b, le a b = false → le b a = true) →
  Sorted (λ a b, le a b = true) l →
  Sorted (λ a b, le a b = true) (insert_by le x l).
Proof.
  intros Htot. induction 1 as [|y l Hs IH Hhd]; simpl.
  - by repeat constructor.
  - destruct (le x y) eqn:E.
    + by repeat constructor.
    + constructor; [done|].
      destruct Hhd as [|z l Hyz]; simpl.
      * constructor. by apply Htot.
      * destruct (le x z); constructor; [by apply Htot | done].
Qed.

Lemma sorted_by_Sorted_total {A} (le : A → A → bool) (l : list A) :
  (∀ a b, le a b = false → le b a = true) →
  Sorted (λ a b, le a b = true) (sorted_by le l).
Proof.
  intros Htot. induction l as [|x l IH]; [constructor|].
  by apply insert_by_Sorted_total.
Qed.

Lemma sorted_paths_ascending (md_files : list path) :
  Sorted (λ a b, Str.ltb b a = false) (sorted_by path_le md_files).
Proof.
  pose proof (sorted_by_Sorted_total path_le md_files path_le_total) as H.
  induction H as [|a l Hs IH Hhd]; [constructor|].
  constructor; [done|].
  destruct Hhd as [|b l Hab]; constructor.
  unfold path_le in Hab. by apply negb_true_iff in Hab.
Qed.

(** X9: the files of a run of the wikilink simplification are a window
    of the list of files in ascending order of their paths.  A
    [start_at] that is not positive is ignored; otherwise that many
    files are passed over; a [max_files] that is not negative bounds
    the number of files, and a negative one drops that many files from
    the end.  A run over the first [n] files and a run that starts at
    [n] cover the ordered list once. *)
Theorem batch_files_window (md_files : list path) :
  let ordered := sorted_by path_le md_files in
  ordered ≡ₚ md_files
  ∧ Sorted (λ a b, Str.ltb b a = false) ordered
  ∧ (∀ start_at max_files, (start_at ≤ 0)%Z →
       batch_files md_files start_at max_files
       = batch_files md_files 0 max_files)
  ∧ (∀ start_at, (0 ≤ start_at)%Z →
       batch_files md_files start_at None = drop (Z.to_nat start_at) ordered)
  ∧ (∀ start_at n, (0 ≤ start_at)%Z → (0 ≤ n)%Z →
       batch_files md_files start_at (Some n)
       = take (Z.to_nat n) (drop (Z.to_nat start_at) ordered))
  ∧ (∀ start_at n, (0 ≤ start_at)%Z → (n < 0)%Z →
       batch_files md_files start_at (Some n)
       = take (length ordered - Z.to_nat start_at - Z.to_nat (- n))
           (drop (Z.to_nat start_at) ordered))
  ∧ (∀ n, (0 ≤ n)%Z →
       batch_files md_files 0 (Some n) ++ batch_files md_files n None
       = ordered).
Proof.
  intros ordered.
  assert (Hcut : ∀ start_at, (0 ≤ start_at)%Z →
            (if (0 <? start_at)%Z then slice ordered (Some start_at) None
             else ordered) = drop (Z.to_nat start_at) ordered).
  { intros start_at Hs. destruct (0 <? start_at)%Z eqn:E.
    - by apply slice_from.
    - apply Z.ltb_ge in E. by replace start_at with 0%Z by lia. }
  split; [apply sorted_by_Permutation|]. split.
  { apply sorted_paths_ascending. }
  split.
  { intros start_at max_files Hs. unfold batch_files.
    by rewrite (proj2 (Z.ltb_ge 0 start_at)) by done. }
  split.
  { intros start_at Hs. unfold batch_files. fold ordered. by apply Hcut. }
  split.
  { intros start_at n Hs Hn. unfold batch_files. fold ordered.
    rewrite Hcut by done. by apply slice_to. }
  split.
  { intros start_at n Hs Hn. unfold batch_files. fold ordered.
    rewrite Hcut by done. rewrite slice_to_negative by done.
    by rewrite length_drop. }
  intros n Hn. unfold batch_files. fold ordered.
  rewrite (Hcut 0%Z), (Hcut n) by lia. rewrite slice_to by done.
  change (Z.to_nat 0) with 0. rewrite drop_0. apply take_drop.
Qed.

(** ** What the patterns match *)

(** A literal matches exactly when the text starts with it. *)
Lemma rmatch_lit (m : text) (k : Re.mstate → option Re.mstate)
  (st : Re.mstate) :
  Re.rmatch (Re.lit m) k st
  = if Str.startswith m (Re.rest st)
    then k {| Re.prev := from_option Some (Re.prev st) (last m);
              Re.rest := drop (length m) (Re.rest st);
              Re.caps := Re.caps st |}
    else None.
Proof.
  revert st. induction m as [|c m IH]; intros [pv rs cs].
  - done.
  - change (Re.lit (c :: m)) with (Re.Seq (Re.Lit c) (Re.lit m)).
    cbn [Re.rmatch Re.rest]. destruct rs as [|x t]; [done|].
    cbn [Str.startswith]. rewrite N.eqb_sym.
    destruct (c =? x)%N eqn:E; [|done]. apply N.eqb_eq in E as <-.
    rewrite IH. unfold Re.advance. cbn [Re.rest Re.prev Re.caps andb].
    destruct (Str.startswith m t); [|done]. f_equal.
    rewrite last_cons. by destruct (last m).
Qed.

(** What the top of the matcher accepts is the state it was given. *)
Lemma accept_Some (must_advance : bool) (s : text) (f f' : Re.mstate) :
  Re.accept must_advance s f = Some f' → f' = f.
Proof. unfold Re.accept. destruct (_ && _); [done | by intros [= <-]]. Qed.


(** Every recorded match is a match of the pattern at the place where
    it was found, with the character before that place as the matcher
    saw it; its offset is that place. *)
Lemma finditer_from_match (r : Re.re) (s : text) (before : option N)
  (pos skip : nat) (m : Re.rmatch_obj) :
  m ∈ Re.finditer_from r before pos skip s →
  ∃ pre post must_advance,
    s = pre ++ post
    ∧ Re.m_start m = pos + length pre
    ∧ Re.match_here r must_advance (from_option Some before (last pre)) post
      = Some (Re.m_text m, Re.m_caps m).
Proof.
  revert before pos skip. induction s as [|c s IH]; intros before pos skip.
  - cbn [Re.finditer_from]. destruct skip; [|by intros ?%elem_of_nil].
    destruct (Re.match_here r false before []) as [[t g]|] eqn:E;
      [|by intros ?%elem_of_nil].
    intros ->%list_elem_of_singleton. exists [], [], false.
    split; [done|]. split; [simpl; lia | done].
  - assert (Htail : ∀ skip',
              m ∈ Re.finditer_from r (Some c) (S pos) skip' s →
              ∃ pre post must_advance,
                c :: s = pre ++ post
                ∧ Re.m_start m = pos + length pre
                ∧ Re.match_here r must_advance
                    (from_option Some before (last pre)) post
                  = Some (Re.m_text m, Re.m_caps m)).
    { intros skip' Hin.
      apply IH in Hin as (pre & post & adv & -> & Hst & Hm).
      exists (c :: pre), post, adv. split; [done|].
      split; [simpl; lia|]. rewrite last_cons. by destruct (last pre). }
    assert (Hhere : ∀ adv t g,
              Re.match_here r adv before (c :: s) = Some (t, g) →
              ∃ pre post must_advance,
                c :: s = pre ++ post
                ∧ Re.m_start {| Re.m_start := pos; Re.m_text := t;
                                Re.m_caps := g |} = pos + length pre
                ∧ Re.match_here r must_advance
                    (from_option Some before (last pre)) post
                  = Some (t, g)).
    { intros adv t g E. exists [], (c :: s), adv.
      split; [done|]. split; [simpl; lia | done]. }
    cbn [Re.finditer_from]. destruct skip; [|apply Htail].
    destruct (Re.match_here r false before (c :: s)) as [[t g]|] eqn:E;
      [|apply Htail].
    destruct t as [|x t].
    + intros [->|Hin]%elem_of_cons; [by eapply Hhere|].
      destruct (Re.match_here r true before (c :: s)) as [[t' g']|] eqn:E';
        [|by eapply Htail].
      apply elem_of_cons in Hin as [->|Hin]; [by eapply Hhere | by eapply Htail].
    + intros [->|Hin]%elem_of_cons; [by eapply Hhere | by eapply Htail].
Qed.


Lemma txt_done : txt "#done" = [35; 100; 111; 110; 101]%N.
Proof. vm_compute. reflexivity. Qed.


(** *** The paths of the matcher *)

(** [denotes r s s']: the matcher can go from [s] to [s'] through
    [r].  The matcher returns the first such path that its
    continuation accepts. *)
Inductive denotes : Re.re → Re.mstate → Re.mstate → Prop :=
| denotes_Eps s : denotes Re.Eps s s
| denotes_Lit c t s :
    Re.rest s = c :: t → denotes (Re.Lit c) s (Re.advance c t s)
| denotes_Cls (p : N → bool) x t s :
    Re.rest s = x :: t → p x = true → denotes (Re.Cls p) s (Re.advance x t s)
| denotes_Seq a b s1 s2 s3 :
    denotes a s1 s2 → denotes b s2 s3 → denotes (Re.Seq a b) s1 s3
| denotes_Opt_one a s s' : denotes a s s' → denotes (Re.Opt a) s s'
| denotes_Opt_none a s : denotes (Re.Opt a) s s
| denotes_Star_nil g a s : denotes (Re.Star g a) s s
| denotes_Star_cons g a s1 s2 s3 :
    denotes a s1 s2 → denotes (Re.Star g a) s2 s3 →
    denotes (Re.Star g a) s1 s3
| denotes_Grp i a s s' :
    denotes a s s' → denotes (Re.Grp i a) s (Re.capture i s s')
| denotes_NotBehind (p : N → bool) s :
    Re.is_w p (Re.prev s) = false → denotes (Re.NotBehind p) s s
| denotes_NotAhead a s :
    Re.rmatch a Some s = None → denotes (Re.NotAhead a) s s
| denotes_Boundary (w : N → bool) s :
    xorb (Re.is_w w (Re.prev s)) (Re.is_w w (head (Re.rest s))) = true →
    denotes (Re.Boundary w) s s.

(** Whatever the matcher returns was reached through the pattern. *)
Lemma rmatch_denotes (r : Re.re) (k : Re.mstate → option Re.mstate)
  (s f : Re.mstate) :
  Re.rmatch r k s = Some f → ∃ s', denotes r s s' ∧ k s' = Some f.
Proof.
  revert k s f.
  induction r as [|c|p|a IHa b IHb|a IHa|g a IHa|i a IHa|p|a _|w];
    intros k s f; cbn [Re.rmatch].
  - intros H. exists s. split; [constructor | done].
  - destruct (Re.rest s) as [|x t] eqn:E; [done|].
    destruct (x =? c)%N eqn:Ex; [|done]. apply N.eqb_eq in Ex as ->.
    intros H. eexists. split; [by constructor | done].
  - destruct (Re.rest s) as [|x t] eqn:E; [done|].
    destruct (p x) eqn:Ex; [|done].
    intros H. eexists. split; [by constructor | done].
  - intros H. apply IHa in H as (s1 & Ha & H).
    apply IHb in H as (s2 & Hb & H). exists s2.
    split; [by econstructor | done].
  - destruct (Re.rmatch a k s) as [f'|] eqn:E.
    + intros [= ->]. apply IHa in E as (s1 & Ha & H). exists s1.
      split; [by constructor | done].
    + intros H. exists s. split; [apply denotes_Opt_none | done].
  - generalize (length (Re.rest s)). intros n. revert s f.
    induction n as [|n IHn]; intros s f.
    + intros H. exists s. split; [constructor | done].
    + match goal with
      | |- context [Re.rmatch a ?k' s] =>
        destruct (Re.rmatch a k' s) as [f'|] eqn:E
      end.
      * assert (∃ s', denotes (Re.Star g a) s s' ∧ k s' = Some f') as Hmore.
        { apply IHa in E as (s1 & Ha & H).
          destruct (bool_decide _); [|done].
          apply IHn in H as (s2 & Hs & H). exists s2.
          split; [by econstructor | done]. }
        destruct g.
        -- by intros [= <-].
        -- destruct (k s) eqn:Ek.
           ++ intros [= <-]. exists s. split; [constructor | done].
           ++ by intros [= <-].
      * destruct g.
        -- intros H. exists s. split; [constructor | done].
        -- destruct (k s) eqn:Ek; [|done].
           intros [= <-]. exists s. split; [constructor | done].
  - intros H. apply IHa in H as (s1 & Ha & H). eexists.
    split; [by constructor | done].
  - destruct (Re.is_w p (Re.prev s)) eqn:E; [done|].
    intros H. exists s. split; [by constructor | done].
  - destruct (Re.rmatch a Some s) eqn:E; [done|].
    intros H. exists s. split; [by constructor | done].
  - destruct (xorb _ _) eqn:E; [|done].
    intros H. exists s. split; [by constructor | done].
Qed.

Lemma denotes_Eps_inv (s s' : Re.mstate) : denotes Re.Eps s s' → s' = s.
Proof. by inversion 1. Qed.

Lemma denotes_Seq_inv (a b : Re.re) (s s'' : Re.mstate) :
  denotes (Re.Seq a b) s s'' → ∃ s', denotes a s s' ∧ denotes b s' s''.
Proof. inversion 1; subst. eauto. Qed.

Lemma denotes_Opt_inv (a : Re.re) (s s' : Re.mstate) :
  denotes (Re.Opt a) s s' → denotes a s s' ∨ s' = s.
Proof. inversion 1; subst; auto. Qed.

Lemma denotes_Grp_inv (i : nat) (a : Re.re) (s s2 : Re.mstate) :
  denotes (Re.Grp i a) s s2 → ∃ s', denotes a s s' ∧ s2 = Re.capture i s s'.
Proof. inversion 1; subst. eauto. Qed.

(** A step through one character. *)
Definition reads_one (P : N → Prop) (s s' : Re.mstate) : Prop :=
  ∃ x, Re.rest s = x :: Re.rest s' ∧ P x ∧ Re.caps s' = Re.caps s.

(** A path through a text all of whose characters satisfy [P]. *)
Definition reads (P : N → Prop) (t : text) (s s' : Re.mstate) : Prop :=
  Re.rest s = t ++ Re.rest s' ∧ Forall P t ∧ Re.caps s' = Re.caps s.

Lemma denotes_Lit_inv (c : N) (s s' : Re.mstate) :
  denotes (Re.Lit c) s s' → reads_one (λ x, x = c) s s'.
Proof. inversion 1; subst. by exists c. Qed.

Lemma denotes_Cls_inv (p : N → bool) (s s' : Re.mstate) :
  denotes (Re.Cls p) s s' → reads_one (λ x, p x = true) s s'.
Proof. inversion 1; subst. by eexists. Qed.

Lemma denotes_Star_inv (P : N → Prop) (g : bool) (a : Re.re) :
  (∀ s s', denotes a s s' → reads_one P s s') →
  ∀ s s', denotes (Re.Star g a) s s' → ∃ t, reads P t s s'.
Proof.
  intros Ha s s' H. remember (Re.Star g a) as r eqn:Er.
  induction H as [| | | | | |g' a' s|g' a' s1 s2 s3 H1 _ H2 IH| | | |];
    try discriminate.
  - by exists [].
  - injection Er as -> ->.
    destruct (Ha _ _ H1) as (x & Hx & HP & Hc).
    destruct (IH eq_refl) as (t & Ht & HF & Hc').
    exists (x :: t). split; [|split].
    + by rewrite Hx, Ht.
    + by constructor.
    + congruence.
Qed.

Lemma denotes_Plus_inv (P : N → Prop) (g : bool) (a : Re.re) :
  (∀ s s', denotes a s s' → reads_one P s s') →
  ∀ s s', denotes (Re.Plus g a) s s' → ∃ t, t ≠ [] ∧ reads P t s s'.
Proof.
  intros Ha s s' H. unfold Re.Plus in H.
  apply denotes_Seq_inv in H as (s1 & H1 & H2).
  destruct (Ha _ _ H1) as (x & Hx & HP & Hc).
  destruct (denotes_Star_inv P g a Ha _ _ H2) as (t & Ht & HF & Hc').
  exists (x :: t). split; [done|]. split; [|split].
  - by rewrite Hx, Ht.
  - by constructor.
  - congruence.
Qed.

Lemma denotes_lit_inv (m : text) (s s' : Re.mstate) :
  denotes (Re.lit m) s s' → reads (λ _, True) m s s'.
Proof.
  revert s. induction m as [|c m IH]; intros s H.
  - apply denotes_Eps_inv in H as ->. by split.
  - change (Re.lit (c :: m)) with (Re.Seq (Re.Lit c) (Re.lit m)) in H.
    apply denotes_Seq_inv in H as (s1 & H1 & H2).
    apply denotes_Lit_inv in H1 as (x & Hx & -> & Hc).
    apply IH in H2 as (Ht & _ & Hc'). split; [|split].
    + by rewrite Hx, Ht.
    + by apply Forall_true.
    + congruence.
Qed.

(** The text that a group captured is the text read inside it. *)
Lemma capture_reads (P : N → Prop) (i : nat) (t : text) (s s' : Re.mstate) :
  reads P t s s' →
  Re.rest (Re.capture i s s') = Re.rest s'
  ∧ Re.caps (Re.capture i s s') = (i, t) :: Re.caps s.
Proof.
  intros (Ht & _ & Hc). unfold Re.capture. simpl. split; [done|].
  rewrite Hc, Ht, length_app, Nat.add_sub. by rewrite take_app_length.
Qed.

(** A path through a pattern reads a part of the text. *)
Lemma denotes_reads (r : Re.re) (s s' : Re.mstate) :
  denotes r s s' → ∃ t, Re.rest s = t ++ Re.rest s'.
Proof.
  induction 1 as [s|c t s Hs|p x t s Hs Hp|a b s1 s2 s3 _ [t1 H1] _ [t2 H2]
                 |a s s' _ IH|a s|g a s|g a s1 s2 s3 _ [t1 H1] _ [t2 H2]
                 |i a s s' _ IH|p s Hp|a s Ha|w s Hw];
    try (by exists []).
  - by exists [c].
  - by exists [x].
  - exists (t1 ++ t2). by rewrite H1, H2, (assoc_L (++)).
  - done.
  - exists (t1 ++ t2). by rewrite H1, H2, (assoc_L (++)).
  - done.
Qed.


Lemma denotes_NotAhead_inv (a : Re.re) (s s' : Re.mstate) :
  denotes (Re.NotAhead a) s s' → s' = s ∧ Re.rmatch a Some s = None.
Proof. by inversion 1. Qed.

Lemma denotes_Boundary_inv (w : N → bool) (s s' : Re.mstate) :
  denotes (Re.Boundary w) s s' →
  s' = s ∧ xorb (Re.is_w w (Re.prev s)) (Re.is_w w (head (Re.rest s))) = true.
Proof. by inversion 1. Qed.

(** A match was reached through the pattern, and its text is what the
    path read. *)
Lemma match_here_denotes (r : Re.re) (must_advance : bool) (before : option N)
  (s m : text) (g : list (nat * text)) :
  Re.match_here r must_advance before s = Some (m, g) →
  ∃ f, denotes r {| Re.prev := before; Re.rest := s; Re.caps := [] |} f
       ∧ s = m ++ Re.rest f ∧ g = Re.caps f.
Proof.
  unfold Re.match_here.
  destruct (Re.rmatch r _ _) as [f|] eqn:E; [|done].
  apply rmatch_denotes in E as (f' & Hd & ->%accept_Some).
  intros [= <- <-]. exists f'. split; [done|]. split; [|done].
  apply denotes_reads in Hd as [t Ht]. simpl in Ht. rewrite Ht at 3.
  by rewrite Ht, length_app, Nat.add_sub, take_app_length.
Qed.

(** The text of a standalone match is the tag itself. *)
Lemma standalone_match_text (must_advance : bool) (before : option N)
  (s m : text) (g : list (nat * text)) :
  Re.match_here DONE_STANDALONE_PATTERN must_advance before s = Some (m, g) →
  m = txt "#done".
Proof.
  intros (f & Hd & Hs & _)%match_here_denotes.
  unfold DONE_STANDALONE_PATTERN, seqs in Hd. cbn [foldr] in Hd.
  apply denotes_Seq_inv in Hd as (s1 & H1 & Hd).
  apply denotes_Seq_inv in Hd as (s2 & H2 & Hd).
  apply denotes_Seq_inv in Hd as (s3 & H3 & Hd).
  apply denotes_Eps_inv in Hd as ->.
  apply denotes_NotAhead_inv in H3 as [-> _].
  apply denotes_Boundary_inv in H2 as [-> _].
  apply denotes_lit_inv in H1 as (R1 & _). cbn [Re.rest] in R1.
  rewrite R1 in Hs. by apply app_inv_tail in Hs.
Qed.

(** [\b#done\b] matches only after a word character. *)
Lemma bounded_done_match (must_advance : bool) (before : option N)
  (s m : text) (g : list (nat * text)) :
  Re.match_here (bounded (txt "#done")) must_advance before s = Some (m, g) →
  Re.is_w is_word before = true ∧ Str.startswith (txt "#done") s = true.
Proof.
  intros (f & Hd & Hs & _)%match_here_denotes.
  unfold bounded, seqs in Hd. cbn [foldr] in Hd.
  apply denotes_Seq_inv in Hd as (s1 & H1 & Hd).
  apply denotes_Seq_inv in Hd as (s2 & H2 & Hd).
  apply denotes_Seq_inv in Hd as (s3 & H3 & Hd).
  apply denotes_Eps_inv in Hd as ->.
  apply denotes_Boundary_inv in H1 as [-> Hx].
  apply denotes_lit_inv in H2 as (R2 & _). cbn [Re.rest Re.prev] in R2, Hx.
  split; [|rewrite R2; apply startswith_app].
  rewrite R2, txt_done in Hx. simpl in Hx.
  replace (is_word 35) with false in Hx by reflexivity.
  by rewrite xorb_false_r in Hx.
Qed.

(** ** simplify_wikilinks.py: what a link is replaced with *)

(** The parts of a match of [WIKILINK_PATTERN]: the folders with
    their slashes, the note name, which is what group 2 captures, and
    the alias with its bar, if there is one. *)
Lemma wikilink_match_parts (must_advance : bool) (before : option N)
  (s m : text) (g : list (nat * text)) :
  Re.match_here WIKILINK_PATTERN must_advance before s = Some (m, g) →
  ∃ folders slashes note tail,
    m = txt "[[" ++ folders ++ slashes ++ note ++ tail ++ txt "]]"
    ∧ Forall (λ c, none_of (txt "|]") c = true) folders
    ∧ slashes ≠ [] ∧ Forall (λ c, c = 47%N) slashes
    ∧ note ≠ [] ∧ Forall (λ c, none_of (txt "/]|") c = true) note
    ∧ (tail = []
       ∨ ∃ alias, tail = 124%N :: alias
                  ∧ Forall (λ c, none_of (txt "|]") c = true) alias)
    ∧ Re.cap_lookup 2 g = Some note.
Proof.
  intros (f & Hd & Hsm & ->)%match_here_denotes.
  unfold WIKILINK_PATTERN, seqs in Hd. cbn [foldr] in Hd.
  apply denotes_Seq_inv in Hd as (s1 & H1 & Hd).
  apply denotes_Seq_inv in Hd as (s2 & H2 & Hd).
  apply denotes_Seq_inv in Hd as (s3 & H3 & Hd).
  apply denotes_Seq_inv in Hd as (s4 & H4 & Hd).
  apply denotes_Seq_inv in Hd as (s5 & H5 & Hd).
  apply denotes_Eps_inv in Hd as ->.
  apply denotes_lit_inv in H1 as (R1 & _ & C1).
  apply denotes_Grp_inv in H2 as (s2' & H2 & ->).
  apply denotes_Seq_inv in H2 as (s1a & H2a & H2b).
  apply (denotes_Star_inv _ _ _ (denotes_Cls_inv _)) in H2a
    as (folders & R2a & F2a & C2a).
  apply (denotes_Plus_inv _ _ _ (denotes_Lit_inv _)) in H2b
    as (slashes & Hsl & R2b & F2b & C2b).
  assert (Hg1 : reads (λ _, True) (folders ++ slashes) s1 s2').
  { split; [|split].
    - by rewrite R2a, R2b, (assoc_L (++)).
    - by apply Forall_true.
    - congruence. }
  apply (capture_reads _ 1) in Hg1 as [R2 C2].
  apply denotes_Grp_inv in H3 as (s3' & H3 & ->).
  apply (denotes_Plus_inv _ _ _ (denotes_Cls_inv _)) in H3
    as (note & Hnote & R3).
  pose proof R3 as (R3' & F3 & C3').
  apply (capture_reads _ 2) in R3 as [R3 C3].
  apply denotes_lit_inv in H5 as (R5 & _ & C5).
  assert (∃ tail, Re.rest s3' = tail ++ Re.rest s4
                  ∧ Re.caps s4 = Re.caps (Re.capture 2 (Re.capture 1 s1 s2') s3')
                  ∧ (tail = []
                     ∨ ∃ alias, tail = 124%N :: alias
                        ∧ Forall (λ c, none_of (txt "|]") c = true) alias))
    as (tail & R4 & C4 & Htail).
  { apply denotes_Opt_inv in H4 as [H4| ->].
    - apply denotes_Seq_inv in H4 as (s3a & H4a & H4b).
      apply denotes_Lit_inv in H4a as (x & Rx & -> & Cx).
      apply (denotes_Star_inv _ _ _ (denotes_Cls_inv _)) in H4b
        as (alias & Ra & Fa & Ca).
      exists (124%N :: alias). split; [|split].
      + rewrite <- R3, Rx, Ra. done.
      + congruence.
      + right. by exists alias.
    - exists []. split; [by rewrite R3 | split; [done | by left]]. }
  exists folders, slashes, note, tail.
  assert (Hs : s = txt "[[" ++ folders ++ slashes ++ note ++ tail ++ txt "]]"
                    ++ Re.rest s5).
  { simpl in R1. rewrite R1, R2a, R2b, <- R2, R3', R4, R5. reflexivity. }
  assert (Hm : m = txt "[[" ++ folders ++ slashes ++ note ++ tail ++ txt "]]").
  { assert (Hs' : s = (txt "[[" ++ folders ++ slashes ++ note ++ tail
                         ++ txt "]]") ++ Re.rest s5)
      by (rewrite Hs at 1; by rewrite <- !(assoc_L (++))).
    rewrite Hs' in Hsm. by apply app_inv_tail in Hsm. }
  repeat (split; [done|]).
  rewrite C5, C4, C3. simpl. done.
Qed.

Lemma occurs_char (c : N) (s : text) : occurs [c] s ↔ c ∈ s.
Proof.
  split.
  - intros (a & b & ->). rewrite elem_of_app. right. left.
  - intros (a & b & ->)%list_elem_of_split. by exists a, b.
Qed.

Lemma startswith_length (sub s : text) :
  Str.startswith sub s = true → length sub ≤ length s.
Proof.
  intros [r ->]%startswith_spec. rewrite length_app. lia.
Qed.

Lemma rfind_at_short (sub s : text) (i : nat) :
  length s < length sub → Str.rfind_at sub s i = None.
Proof.
  revert i. induction s as [|c s IH]; intros i Hlen; simpl.
  - destruct sub; [simpl in Hlen; lia | done].
  - rewrite IH by (simpl in Hlen; lia).
    destruct (Str.startswith sub (c :: s)) eqn:E; [|done].
    apply startswith_length in E. lia.
Qed.

(** The last occurrence found in a text that ends with [sub] is the
    one at its end. *)
Lemma rfind_at_suffix (sub a : text) (i : nat) :
  sub ≠ [] → Str.rfind_at sub (a ++ sub) i = Some (i + length a).
Proof.
  intros Hsub. revert i. induction a as [|x a IH]; intros i.
  - destruct sub as [|c sub]; [done|]. simpl.
    rewrite rfind_at_short by (simpl; lia).
    rewrite N.eqb_refl. simpl.
    pose proof (startswith_app sub []) as H. rewrite app_nil_r in H.
    rewrite H. f_equal. lia.
  - simpl. rewrite IH. f_equal. lia.
Qed.

(** What a match of [WIKILINK_PATTERN] is replaced with. *)
Lemma simplified_link_parts (must_advance : bool) (before : option N)
  (post : text) (m : Re.rmatch_obj) :
  Re.match_here WIKILINK_PATTERN must_advance before post
  = Some (Re.m_text m, Re.m_caps m) →
  ∃ folders note,
    last folders = Some 47%N
    ∧ note ≠ [] ∧ (47%N ∉ note)
    ∧ ((Re.m_text m = txt "[[" ++ folders ++ note ++ txt "]]"
        ∧ simplified_link m = Ok (txt "[[" ++ note ++ txt "]]"))
       ∨ ∃ alias,
           Re.m_text m = txt "[[" ++ folders ++ note ++ txt "|" ++ alias
                         ++ txt "]]"
           ∧ simplified_link m = Ok (txt "[[" ++ note ++ txt "|" ++ alias)).
Proof.
  clear unicode_alnum parse_template.
  intros Hm.
  apply wikilink_match_parts in Hm
    as (folders & slashes & note & tail & Ht & Hf & Hsl & Fsl & Hn & Fn
        & Htail & Hg).
  assert (Hbar_f : 124%N ∉ folders).
  { intros H. rewrite Forall_forall in Hf. by apply Hf in H. }
  assert (Hbar_s : 124%N ∉ slashes).
  { intros H. rewrite Forall_forall in Fsl. by apply Fsl in H. }
  assert (Hbar_n : 124%N ∉ note).
  { intros H. rewrite Forall_forall in Fn. by apply Fn in H. }
  assert (Hslash_n : 47%N ∉ note).
  { intros H. rewrite Forall_forall in Fn. by apply Fn in H. }
  assert (Hbar_open : 124%N ∉ txt "[[")
    by (apply (bool_decide_unpack _); vm_compute; exact I).
  assert (Hbar_close : 124%N ∉ txt "]]")
    by (apply (bool_decide_unpack _); vm_compute; exact I).
  exists (folders ++ slashes), note.
  split.
  { destruct (exists_last Hsl) as (l & x & ->). rewrite (assoc_L (++)).
    rewrite last_snoc. f_equal.
    rewrite Forall_app, Forall_singleton in Fsl. by destruct Fsl. }
  split; [done|]. split; [done|].
  unfold simplified_link, Re.group. rewrite Hg, Ht. simpl default.
  destruct Htail as [->|(alias & -> & Fa)].
  - left. split; [by rewrite <- !(assoc_L (++))|].
    assert (Str.contains (txt "|")
              (txt "[[" ++ folders ++ slashes ++ note ++ [] ++ txt "]]")
            = false) as ->; [|done].
    apply contains_false. change (txt "|") with [124%N]. rewrite occurs_char.
    rewrite !not_elem_of_app. repeat split; try done. apply not_elem_of_nil.
  - right. exists alias.
    split; [by rewrite <- !(assoc_L (++))|].
    set (head_part := txt "[[" ++ folders ++ slashes ++ note).
    assert (Hfull : txt "[[" ++ folders ++ slashes ++ note ++ (124%N :: alias)
                      ++ txt "]]"
                    = head_part ++ [124%N] ++ alias ++ txt "]]").
    { unfold head_part. by rewrite <- !(assoc_L (++)). }
    rewrite Hfull.
    assert (Hno : ¬ occurs [124%N] (head_part ++ removelast [124%N])).
    { cbn [removelast]. rewrite app_nil_r, occurs_char. unfold head_part.
      rewrite !not_elem_of_app. by repeat split. }
    assert (Str.contains (txt "|") (head_part ++ [124%N] ++ alias ++ txt "]]")
            = true) as ->.
    { apply contains_spec. by exists head_part, (alias ++ txt "]]"). }
    unfold index, rindex. change (txt "|") with [124%N].
    rewrite (find_at_first [124%N] head_part (alias ++ txt "]]") 0) by done.
    replace (head_part ++ [124%N] ++ alias ++ txt "]]")
      with ((head_part ++ [124%N] ++ alias) ++ txt "]]")
      by (by rewrite <- !(assoc_L (++))).
    rewrite (rfind_at_suffix (txt "]]") _ 0) by done.
    rewrite !Nat.add_0_l, take_app_length, drop_app_length. done.
Qed.


(** X11: every wikilink that the simplification records has the form
    [[[folders/note]]] or [[[folders/note|alias]]], where the note
    name, which holds no slash, is what follows the last slash.  A
    link without an alias is replaced with [[[note]]]; a link with an
    alias is replaced with [[[note|alias], without the closing
    brackets. *)
Theorem simplified_link_of_match (content : text) (m : Re.rmatch_obj) :
  m ∈ Re.finditer WIKILINK_PATTERN content →
  ∃ folders note,
    last folders = Some 47%N
    ∧ note ≠ [] ∧ (47%N ∉ note)
    ∧ ((Re.m_text m = txt "[[" ++ folders ++ note ++ txt "]]"
        ∧ simplified_link m = Ok (txt "[[" ++ note ++ txt "]]"))
       ∨ ∃ alias,
           Re.m_text m = txt "[[" ++ folders ++ note ++ txt "|" ++ alias
                         ++ txt "]]"
           ∧ simplified_link m = Ok (txt "[[" ++ note ++ txt "|" ++ alias)).
Proof.
  intros Hin. unfold Re.finditer in Hin.
  apply finditer_from_match in Hin as (pre & post & adv & _ & _ & Hm).
  by eapply simplified_link_parts.
Qed.

(** ** Literal replacement of the recorded matches *)





(** ** clean_done_tags_vault.py: the tags without parentheses *)

(** X10: the removal of the tags without parentheses only takes a
    [#done] that follows a word character.  In a text with no tag with
    parentheses in which no [#done] follows a word character, every
    match of the standalone pattern is the text [#done], the cleaning
    leaves the text as it is, and the call writes nothing and returns
    [(False, 0)], after the warning that the tags it found were not
    removed when there are such tags. *)
Theorem standalone_done_after_non_word_is_kept (file_path : path)
  (create_backup dry_run : bool) (w : world) (bs : list byte) (raw : text) :
  files w !! file_path = Some bs →
  Codec.utf8_decode bs = Some raw →
  let content := Codec.universal_newlines raw in
  Re.findall DONE_WITH_PARENS_PATTERN content = [] →
  (∀ a c b, content = a ++ [c] ++ txt "#done" ++ b → is_word c = false) →
  let found := Re.findall DONE_STANDALONE_PATTERN content in
  Forall (λ m, m = txt "#done") found
  ∧ snd (clean_content content) = content
  ∧ clean_done_tags file_path create_backup dry_run false w
    = ({| files := files w; locked := locked w;
          stdout := stdout w
                    ++ (if bool_decide (found = []) then []
                        else [PrintWarningNotModified (length found) file_path]) |},
       Ok (false, 0)).
Proof.
  intros Hf Hd content Hparens Hword found.
  assert (H1 : Forall (λ m, m = txt "#done") found).
  { unfold found, Re.findall, Re.finditer. apply Forall_fmap, Forall_forall.
    intros m Hin.
    apply finditer_from_match in Hin as (pre & post & adv & _ & _ & Hm).
    by eapply standalone_match_text. }
  assert (H2 : Re.sub (bounded (txt "#done")) [] content = content).
  { apply sub_no_match. unfold Re.findall, Re.finditer.
    destruct (Re.finditer_from _ None 0 0 content) as [|m l] eqn:E; [done|].
    exfalso. assert (Hin : m ∈ Re.finditer_from (bounded (txt "#done")) None 0 0
                             content) by (rewrite E; left).
    apply finditer_from_match in Hin as (pre & post & adv & Hc & _ & Hm).
    apply bounded_done_match in Hm as [Hw Hs].
    apply startswith_spec in Hs as [b ->].
    destruct (last pre) as [c|] eqn:Hl; [|done]. simpl in Hw.
    apply last_Some in Hl as [a ->].
    rewrite (Hword a c b) in Hw; [done|]. by rewrite Hc, <- (assoc_L (++)). }
  assert (H3 : snd (clean_content content) = content).
  { unfold clean_content. simpl. rewrite Hparens. simpl. fold found.
    induction H1 as [|m l -> _ IH]; [done|]. simpl. by rewrite H2. }
  split; [done|]. split; [done|].
  unfold clean_done_tags, try_except, bind.
  rewrite (read_text_ok Utf8 _ _ bs raw) by done. fold content.
  destruct (clean_content content) as [[mp ms] modified] eqn:Hc.
  simpl in H3. subst modified.
  unfold clean_content in Hc. injection Hc as E1 E2 _.
  rewrite Hparens in E1. subst mp. fold found in E2. subst ms.
  simpl. unfold when, ret, print. rewrite eqb_refl. simpl.
  destruct found as [|m l]; simpl.
  - rewrite app_nil_r. by destruct w.
  - done.
Qed.

(** ** tag_inventory.py: what the inventory counts *)

(** The tags that the scan of one file contributes to the inventory: the
    matches of [TAG_PATTERN] in its text, without those that start with
    [#done] when these are excluded; none for a file that cannot be
    read. *)
Definition found_in (exclude_done : bool) (fs : gmap (list N) (list byte))
  (file_path : path) : list text :=
  match fs !! file_path ≫= Codec.utf8_decode with
  | Some raw =>
    let file_tags := Re.findall TAG_PATTERN (Codec.universal_newlines raw) in
    if exclude_done
    then filter (λ tag, Str.startswith (txt "#done") tag = false) file_tags
    else file_tags
  | None => []
  end.

Lemma elem_of_concat {A} (x : A) (ls : list (list A)) :
  x ∈ concat ls ↔ ∃ l, x ∈ l ∧ l ∈ ls.
Proof.
  induction ls as [|l ls IH]; simpl.
  - split; [by intros ?%elem_of_nil | by intros (l & _ & ?%elem_of_nil)].
  - rewrite elem_of_app, IH. split.
    + intros [H|(l' & H & Hl')]; [exists l; split; [done | left]|].
      exists l'. split; [done | by right].
    + intros (l' & H & [->|Hl']%elem_of_cons); [by left | right; eauto].
Qed.

Lemma counter_update_app (counter : list (text * nat)) (a b : list text) :
  counter_update counter (a ++ b) = counter_update (counter_update counter a) b.
Proof. apply foldl_app. Qed.

Lemma inventory_loop_spec (exclude_done : bool) (file_count : nat)
  (md_files : list path) (i : nat) (tag_counter : list (text * nat))
  (w : world) :
  ∃ w',
    inventory_loop exclude_done file_count i md_files tag_counter w
    = (w', Ok (counter_update tag_counter
                 (concat (found_in exclude_done (files w) <$> md_files))))
    ∧ files w' = files w.
Proof.
  revert i tag_counter w.
  induction md_files as [|f fs IH]; intros i c w; cbn [inventory_loop].
  - by exists w.
  - unfold bind at 1.
    destruct (progress_line_returns (i mod 100 =? 0)
                (PrintProgress (i + 1) file_count) w) as [w1 Hw1].
    assert (files w1 = files w) as Hf1.
    { revert Hw1. unfold when, print, ret.
      destruct (i mod 100 =? 0); by intros [= <-]. }
    rewrite Hw1. unfold bind at 1.
    assert (∃ w2, scan_file_for_tags f w1
                  = (w2, Ok (found_in false (files w) f))
                  ∧ files w2 = files w) as (w2 & -> & Hf2).
    { unfold scan_file_for_tags, try_except, bind, read_text, found_in.
      rewrite Hf1. destruct (files w !! f) as [bs|]; simpl.
      - destruct (Codec.utf8_decode bs) as [raw|]; simpl; by eexists.
      - by eexists. }
    destruct (IH (S i)
                (counter_update c
                   (if exclude_done
                    then filter (λ tag, Str.startswith (txt "#done") tag = false)
                           (found_in false (files w) f)
                    else found_in false (files w) f)) w2) as (w3 & -> & Hf3).
    exists w3. split; [|congruence].
    rewrite Hf2, fmap_cons. simpl concat. rewrite counter_update_app.
    do 3 f_equal. unfold found_in.
    destruct (files w !! f ≫= Codec.utf8_decode); [done|].
    by destruct exclude_done.
Qed.

(** The text of a match of [TAG_PATTERN]: a [#] and at least one
    character of the class after it. *)
Lemma tag_match_text (must_advance : bool) (before : option N) (s m : text)
  (g : list (nat * text)) :
  Re.match_here TAG_PATTERN must_advance before s = Some (m, g) →
  ∃ t, m = 35%N :: t ∧ t ≠ []
       ∧ Forall (λ c, tag_segment_char c || (c =? 47)%N = true) t.
Proof.
  intros (f & Hd & Hs & _)%match_here_denotes.
  unfold TAG_PATTERN, seqs in Hd. cbn [foldr] in Hd.
  apply denotes_Seq_inv in Hd as (s1 & H1 & Hd).
  apply denotes_Seq_inv in Hd as (s2 & H2 & Hd).
  apply denotes_Eps_inv in Hd as ->.
  apply denotes_Lit_inv in H1 as (x & Rx & -> & _).
  apply (denotes_Plus_inv _ _ _ (denotes_Cls_inv _)) in H2
    as (t & Ht & Rt & Ft & _).
  cbn [Re.rest] in Rx. rewrite Rx, Rt in Hs.
  change (35%N :: t ++ Re.rest s2) with ((35%N :: t) ++ Re.rest s2) in Hs.
  apply app_inv_tail in Hs as <-. by exists t.
Qed.

(** X12: the inventory reads every listed file and writes none.  Its
    counter has one entry for each tag found in a file that could be
    read, with the number of times the tag was found over all files
    (a file listed twice counts twice); every counted tag is a [#]
    followed by at least one character of [[a-zA-Z0-9_/.-]]; and with
    [exclude_done] no counted tag starts with [#done].  The second
    component is the number of listed files. *)
Theorem inventory_counts_every_match (md_files : list path)
  (exclude_done : bool) (w : world) :
  let found := concat (found_in exclude_done (files w) <$> md_files) in
  ∃ w' tag_counter,
    inventory_tags md_files exclude_done w
    = (w', Ok (tag_counter, length md_files))
    ∧ files w' = files w
    ∧ NoDup tag_counter.*1
    ∧ (∀ tag n, (tag, n) ∈ tag_counter ↔ n = occurrences tag found ∧ 0 < n)
    ∧ (∀ tag, tag ∈ tag_counter.*1 →
         ∃ t, tag = 35%N :: t ∧ t ≠ []
              ∧ Forall (λ c, tag_segment_char c || (c =? 47)%N = true) t)
    ∧ (exclude_done = true →
       ∀ tag, tag ∈ tag_counter.*1 → Str.startswith (txt "#done") tag = false).
Proof.
  clear unicode_alnum parse_template.
  intros found. unfold inventory_tags, bind, print.
  destruct (inventory_loop_spec exclude_done (length md_files) md_files 0 []
              {| files := files w; locked := locked w;
                 stdout := stdout w ++ [PrintFoundFiles (length md_files)] |})
    as (w' & -> & Hf).
  simpl in Hf. cbn [files]. fold found.
  exists w', (counter_update [] found). split; [done|]. split; [done|].
  destruct (counter_update_spec found [] NoDup_nil_2) as (Hnd & Hkeys & _).
  split; [done|]. split; [apply elem_of_counter_update|].
  assert (Hin : ∀ tag, tag ∈ (counter_update [] found).*1 →
            ∃ f raw, f ∈ md_files
              ∧ files w !! f ≫= Codec.utf8_decode = Some raw
              ∧ tag ∈ Re.findall TAG_PATTERN (Codec.universal_newlines raw)
              ∧ (exclude_done = true →
                 Str.startswith (txt "#done") tag = false)).
  { intros tag [?%elem_of_nil|Hin]%Hkeys; [done|].
    unfold found in Hin. apply elem_of_concat in Hin as (l & Htag & Hl).
    apply list_elem_of_fmap in Hl as (f & -> & Hf').
    unfold found_in in Htag.
    destruct (files w !! f ≫= Codec.utf8_decode) as [raw|] eqn:E;
      [|by apply elem_of_nil in Htag].
    exists f, raw. destruct exclude_done.
    - apply list_elem_of_filter in Htag as [Hd Htag]. by repeat split.
    - by repeat split. }
  split.
  - intros tag (f & raw & _ & _ & Htag & _)%Hin.
    unfold Re.findall, Re.finditer in Htag.
    apply list_elem_of_fmap in Htag as (m & -> & Hm).
    apply finditer_from_match in Hm as (pre & post & adv & _ & _ & Hm).
    by eapply tag_match_text.
  - intros Hex tag (f & raw & _ & _ & _ & Hd)%Hin. by apply Hd.
Qed.

(** ** tag_inventory.py: the suggested wikilinks *)

(** Replacing a single character rewrites the text character by
    character. *)
Lemma replace_char (s new : text) (c : N) :
  Str.replace s [c] new
  = concat ((λ x, if (x =? c)%N then new else [x]) <$> s).
Proof.
  unfold Str.replace. induction s as [|x s IH]; [done|].
  cbn [Str.replace_scan Str.startswith]. rewrite andb_true_r, N.eqb_sym.
  rewrite fmap_cons. cbn [concat]. simpl length. simpl Nat.sub.
  rewrite IH. by destruct (x =? c)%N.
Qed.

Lemma elem_of_replace_char (s new : text) (c y : N) :
  y ∈ Str.replace s [c] new
  ↔ ∃ x, x ∈ s ∧ y ∈ (if (x =? c)%N then new else [x]).
Proof.
  rewrite replace_char, elem_of_concat. split.
  - intros (l & Hy & (x & -> & Hx)%list_elem_of_fmap). eauto.
  - intros (x & Hx & Hy). eexists. split; [exact Hy|].
    apply list_elem_of_fmap. eauto.
Qed.

(** X13: the rows of the table of the report are the sorted entries of
    the counter, each with the suggested wikilink computed from its
    tag; no suggested wikilink holds a [#] or a slash, and the link
    suggested for a tag that is a [#] followed by other characters is
    not empty. *)
Theorem suggested_wikilink_is_a_plain_name (tag_counter : list (text * nat))
  (min_count : Z) :
  let rows := table_rows tag_counter min_count in
  fst <$> rows = sorted_tags tag_counter min_count
  ∧ ∀ tag n link, (tag, n, link) ∈ rows →
      link = Str.replace (Str.replace tag (txt "#") []) (txt "/") (txt " - ")
      ∧ (35%N ∉ link) ∧ (47%N ∉ link)
      ∧ ∀ c t, tag = 35%N :: c :: t → c ≠ 35%N → link ≠ [].
Proof.
  clear unicode_alnum parse_template.
  intros rows. unfold rows, table_rows. split.
  { induction (sorted_tags tag_counter min_count) as [|[t k] l IH]; [done|].
    rewrite !fmap_cons. by f_equal. }
  intros tag n link ([tag' n'] & [= -> -> ->] & _)%list_elem_of_fmap.
  cbn [fst snd]. split; [done|].
  change (txt "#") with [35%N]. change (txt "/") with [47%N].
  split; [|split].
  - intros (x & Hx & Hy)%elem_of_replace_char.
    destruct (x =? 47)%N eqn:E.
    + by repeat apply elem_of_cons in Hy as [?|Hy];
        try apply elem_of_nil in Hy.
    + apply list_elem_of_singleton in Hy as <-.
      apply elem_of_replace_char in Hx as (z & _ & Hz).
      destruct (z =? 35)%N eqn:E'; [by apply elem_of_nil in Hz|].
      apply list_elem_of_singleton in Hz as <-. by rewrite N.eqb_refl in E'.
  - intros (x & Hx & Hy)%elem_of_replace_char.
    destruct (x =? 47)%N eqn:E.
    + by repeat apply elem_of_cons in Hy as [?|Hy];
        try apply elem_of_nil in Hy.
    + apply list_elem_of_singleton in Hy as <-. by rewrite N.eqb_refl in E.
  - intros c t -> Hc.
    change (Str.replace (Str.replace (35%N :: c :: t) [35%N] []) [47%N]
              (txt " - ") ≠ []).
    rewrite (replace_char (35%N :: c :: t)). rewrite !fmap_cons. simpl concat.
    destruct (c =? 35)%N eqn:E; [by apply N.eqb_eq in E|].
    rewrite replace_char. simpl. by destruct (c =? 47)%N.
Qed.

(** ** add_yaml_to_files_without_yaml.py: the summary *)

Lemma slice_between {A} (l : list A) (lo hi : Z) :
  (0 ≤ lo)%Z → (lo ≤ hi)%Z → (hi ≤ Z.of_nat (length l))%Z →
  slice l (Some lo) (Some hi)
  = take (Z.to_nat hi - Z.to_nat lo) (drop (Z.to_nat lo) l).
Proof.
  intros H1 H2 H3. unfold slice, slice_index. simpl.
  rewrite (proj2 (Z.ltb_ge lo 0)), (proj2 (Z.ltb_ge hi 0)) by lia.
  f_equal; [lia | f_equal; lia].
Qed.

Lemma slice_from_negative {A} (l : list A) (n : Z) :
  (n < 0)%Z → (- n ≤ Z.of_nat (length l))%Z →
  slice l (Some n) None = drop (length l - Z.to_nat (- n)) l.
Proof.
  intros H1 H2. unfold slice, slice_index. simpl.
  rewrite (proj2 (Z.ltb_lt n 0)) by done.
  replace (Z.to_nat (0 `max` (Z.of_nat (length l) `min` (n + Z.of_nat (length l)))))
    with (length l - Z.to_nat (- n)) by lia.
  apply take_ge. rewrite length_drop. lia.
Qed.

Lemma length_truncated_mark : length truncated_mark = 29.
Proof. reflexivity. Qed.

(** Linear arithmetic with the quotients of [//]. *)
Ltac div_lia := zify; Z.to_euclidean_division_equations; lia.

(** X14: a content that fits into [max_length] is its own summary.
    For a longer content and a [max_length] of at least 4, the summary
    is made of the first [max_length // 2] characters, a sample from
    the middle and the last [max_length // 4] characters, with two
    marks of 29 characters between them; its length is [max_length + 57]
    or [max_length + 58], so it is longer than [max_length]. *)
Theorem summary_exceeds_max_length (content : text) (max_length : Z) :
  (4 ≤ max_length)%Z →
  let summary := extract_content_summary content max_length in
  let first_portion := Z.to_nat (max_length / 2) in
  let last_portion := Z.to_nat (max_length / 4) in
  let half :=
    Z.to_nat ((max_length - max_length / 2 - max_length / 4) / 2) in
  (Z.of_nat (length content) ≤ max_length → summary = content)%Z
  ∧ ((max_length < Z.of_nat (length content))%Z →
     summary
     = take first_portion content ++ truncated_mark
       ++ take (2 * half) (drop (length content / 2 - half) content)
       ++ truncated_mark
       ++ drop (length content - last_portion) content
     ∧ length summary = first_portion + 2 * half + last_portion + 58
     ∧ (max_length + 57 ≤ Z.of_nat (length summary) ≤ max_length + 58)%Z).
Proof.
  clear unicode_alnum parse_template.
  intros Hmax summary first_portion last_portion half.
  unfold summary, extract_content_summary. split.
  { intros H. by rewrite (proj2 (Z.leb_le _ _)). }
  intros Hlen. rewrite (proj2 (Z.leb_gt _ _)) by done.
  rewrite slice_to, slice_between, slice_from_negative by div_lia.
  replace (Z.to_nat
             (Z.of_nat (length content) / 2
              + (max_length - max_length / 2 - max_length / 4) / 2)
           - Z.to_nat
               (Z.of_nat (length content) / 2
                - (max_length - max_length / 2 - max_length / 4) / 2))
    with (2 * half) by (unfold half; div_lia).
  replace (Z.to_nat
             (Z.of_nat (length content) / 2
              - (max_length - max_length / 2 - max_length / 4) / 2))
    with (length content / 2 - half)
    by (unfold half;
        pose proof (Nat2Z.inj_div (length content) 2) as Hdiv;
        change (Z.of_nat 2) with 2%Z in Hdiv; rewrite <- Hdiv; div_lia).
  replace (Z.to_nat (- - (max_length / 4))) with last_portion
    by (unfold last_portion; lia).
  fold first_portion. split; [done|].
  assert (Hl : length
                 (take first_portion content ++ truncated_mark
                  ++ take (2 * half) (drop (length content / 2 - half) content)
                  ++ truncated_mark
                  ++ drop (length content - last_portion) content)
               = first_portion + 2 * half + last_portion + 58).
  { rewrite !length_app, !length_take, !length_drop, length_truncated_mark.
    pose proof (Nat.div_mod_eq (length content) 2) as Hdm.
    pose proof (Nat.mod_upper_bound (length content) 2 ltac:(lia)) as Hmb.
    unfold first_portion, last_portion, half. div_lia. }
  split; [done|]. rewrite Hl.
  unfold first_portion, last_portion, half. div_lia.
Qed.

(** ** add_yaml_to_files_without_yaml.py: splitting what was written *)

(** A text of white space only. *)
Definition blank (s : text) : Prop := Forall (λ c, Str.is_space c = true) s.

(** A text that does not start with white space. *)
Definition starts_clean (s : text) : Prop :=
  match s with [] => True | c :: _ => Str.is_space c = false end.

Lemma lstrip_blank (a s : text) : blank a → Str.lstrip (a ++ s) = Str.lstrip s.
Proof. induction 1 as [|c a Hc _ IH]; [done|]. simpl. by rewrite Hc. Qed.

Lemma lstrip_clean (s : text) : starts_clean s → Str.lstrip s = s.
Proof. destruct s as [|c s]; [done|]. simpl. by intros ->. Qed.

Lemma lstrip_starts_clean (s : text) : starts_clean (Str.lstrip s).
Proof.
  induction s as [|c s IH]; [done|]. simpl.
  destruct (Str.is_space c) eqn:E; [done|]. simpl. done.
Qed.

(** What is left of a text after [lstrip] ends as the text does. *)
Lemma lstrip_suffix (s : text) : ∃ a, blank a ∧ s = a ++ Str.lstrip s.
Proof.
  induction s as [|c s (a & Ha & IH)];
    [exists []; split; [constructor | done]|].
  simpl. destruct (Str.is_space c) eqn:E.
  - exists (c :: a). split; [by constructor | by rewrite IH at 1].
  - exists []. split; [constructor | done].
Qed.

Lemma starts_clean_reverse_lstrip (s : text) :
  starts_clean s → starts_clean (reverse (Str.lstrip (reverse s))).
Proof.
  intros Hs. destruct (lstrip_suffix (reverse s)) as (a & Ha & Hr).
  apply (f_equal reverse) in Hr. rewrite reverse_involutive, reverse_app in Hr.
  destruct (reverse (Str.lstrip (reverse s))) as [|c r] eqn:E; [done|].
  rewrite Hr in Hs. done.
Qed.

Lemma strip_clean (s : text) :
  starts_clean s → starts_clean (reverse s) → Str.strip s = s.
Proof.
  intros H1 H2. unfold Str.strip.
  by rewrite (lstrip_clean s), (lstrip_clean (reverse s)), reverse_involutive.
Qed.

(** [strip] leaves no white space at either end, so that stripping
    again changes nothing. *)
Lemma strip_strip (s : text) : Str.strip (Str.strip s) = Str.strip s.
Proof.
  apply strip_clean.
  - unfold Str.strip. apply starts_clean_reverse_lstrip, lstrip_starts_clean.
  - unfold Str.strip. rewrite reverse_involutive. apply lstrip_starts_clean.
Qed.

Lemma strip_blank_l (a s : text) : blank a → Str.strip (a ++ s) = Str.strip s.
Proof. intros Ha. unfold Str.strip. by rewrite lstrip_blank. Qed.

Lemma blank_reverse (a : text) : blank a → blank (reverse a).
Proof. unfold blank. by rewrite Forall_reverse. Qed.

Lemma strip_blank_r (s b : text) : blank b → Str.strip (s ++ b) = Str.strip s.
Proof.
  intros Hb. unfold Str.strip.
  destruct (lstrip_suffix s) as (a & Ha & Hs).
  destruct (Str.lstrip s) as [|c u] eqn:E.
  - rewrite app_nil_r in Hs. subst s.
    assert (Str.lstrip (a ++ b) = []) as ->; [|done].
    rewrite <- (app_nil_r (a ++ b)). apply lstrip_blank.
    by apply Forall_app.
  - assert (Str.lstrip (s ++ b) = (c :: u) ++ b) as ->.
    { rewrite Hs at 1. rewrite <- (assoc_L (++)), lstrip_blank by done.
      pose proof (lstrip_starts_clean s) as Hc. rewrite E in Hc.
      simpl in *. by rewrite Hc. }
    rewrite reverse_app, lstrip_blank by (by apply blank_reverse). done.
Qed.

(** An occurrence in a text with a character foreign to [sub] lies on
    one side of that character. *)
Lemma occurs_beside (sub a b : text) (c : N) :
  c ∉ sub → occurs sub (a ++ c :: b) → occurs sub a ∨ occurs sub b.
Proof.
  intros Hc (p & q & H). symmetry in H.
  apply app_eq_app in H as [l [[-> H]|[-> H]]].
  - destruct l as [|x l]; simpl in H.
    + destruct sub as [|y sub];
        [left; exists a, []; by rewrite app_nil_r |].
      injection H as <- _. exfalso. apply Hc. left.
    + injection H as <- ->. right. by exists l, q.
  - symmetry in H. apply app_eq_app in H as [l2 [[-> H]|[-> H]]].
    + left. by exists p, l2.
    + destruct l2 as [|x l2]; simpl in H.
      * left. exists p, []. by rewrite !app_nil_r.
      * injection H as <- _. exfalso. apply Hc.
        rewrite elem_of_app. right. left.
Qed.

Lemma occurs_length (sub s : text) : occurs sub s → length sub ≤ length s.
Proof. intros (a & b & ->). rewrite !length_app. lia. Qed.

(** X15: a file written back with a generated front matter that holds
    no [---] is split again into that front matter, stripped, and the
    stripped body; the body that the splitter returned for the old
    file is returned again unchanged for the new one. *)
Theorem rewritten_note_splits_back (yaml_content : text) :
  ¬ occurs (txt "---") (Str.strip yaml_content) →
  (∀ main_content,
     split_document (new_content yaml_content main_content)
     = (Str.strip yaml_content, Str.strip main_content))
  ∧ (∀ content,
       let main_content := snd (split_document content) in
       split_document (new_content yaml_content main_content)
       = (Str.strip yaml_content, main_content)).
Proof.
  clear unicode_alnum parse_template.
  intros Hno.
  assert (Hnl : blank nl) by (by repeat constructor).
  assert (H10 : 10%N ∉ txt "---")
    by (apply (bool_decide_unpack _); vm_compute; exact I).
  assert (Hgen : ∀ main_content,
            split_document (new_content yaml_content main_content)
            = (Str.strip yaml_content, Str.strip main_content)).
  { intros main_content. unfold split_document, new_content.
    set (Y := Str.strip yaml_content) in *.
    rewrite startswith_app, split_prefix.
    replace (nl ++ Y ++ nl ++ txt "---" ++ nl ++ nl ++ main_content)
      with ((nl ++ Y ++ nl) ++ txt "---" ++ (nl ++ nl ++ main_content))
      by (by rewrite <- !(assoc_L (++))).
    rewrite split_first; [|done|].
    - cbn [Str.split length lookup list_lookup default].
      rewrite bool_decide_eq_true_2 by lia. simpl default. unfold id.
      rewrite (strip_blank_l nl), (strip_blank_r Y nl) by done.
      rewrite !(strip_blank_l nl) by done.
      unfold Y. by rewrite strip_strip.
    - change (removelast (txt "---")) with [45%N; 45%N].
      rewrite <- !(assoc_L (++)).
      intros [H|H]%(occurs_beside _ [] _ 10%N); [| |done].
      + apply occurs_length in H. simpl in H. lia.
      + apply occurs_beside in H as [H|H]; [done| |done].
        apply occurs_length in H. simpl in H. lia. }
  split; [done|]. intros content main_content. rewrite Hgen. f_equal.
  unfold main_content, split_document.
  destruct (Str.startswith (txt "---") content); [|apply strip_strip].
  destruct (bool_decide _); apply strip_strip.
Qed.

(** ** The check for a front matter *)

Example file_lines_example :
  file_lines (txt "---" ++ nl ++ txt "a: b" ++ nl ++ txt "---")
  = [txt "---" ++ nl; txt "a: b" ++ nl; txt "---"].
Proof. vm_compute. reflexivity. Qed.

Lemma closing_line_scan_spec (limit : nat) (lines : list text) (i : nat) :
  i ≤ limit + 1 →
  closing_line_scan limit i lines = true
  ↔ ∃ k line, lines !! k = Some line
              ∧ Str.strip line = txt "---" ∧ i + k ≤ limit + 1.
Proof.
  revert i. induction lines as [|line lines IH]; intros i Hi; simpl.
  - split; [done | by intros (k & l & ? & _)].
  - destruct (Str.eqb (Str.strip line) (txt "---")) eqn:E.
    + apply eqb_eq in E. split; [|done]. intros _. exists 0, line.
      split; [done|]. split; [done | lia].
    + assert (Str.strip line ≠ txt "---") as Hne
        by (intros H; apply eqb_eq in H; congruence).
      case_bool_decide as Hl.
      * split; [done|]. intros ([|k] & l & Hk & Hs & Hb); simpl in Hk.
        -- by injection Hk as ->.
        -- lia.
      * rewrite IH by lia. split.
        -- intros (k & l & Hk & Hs & Hb). exists (S k), l.
           split; [done|]. split; [done | lia].
        -- intros ([|k] & l & Hk & Hs & Hb); simpl in Hk.
           ++ by injection Hk as ->.
           ++ exists k, l. split; [done|]. split; [done | lia].
Qed.

(** X16: a file is found to have a front matter exactly when its first
    line, stripped, is [---] and one of the lines that follow, stripped,
    is [---] too and stands among the first [limit + 2] of them: the
    first 32 lines after the opening one for the check of
    add_yaml_to_files_without_yaml.py, the first 47 for that of
    find_missing_yaml.py.  A front matter that closes later is not
    found, and an empty file has none. *)
Theorem front_matter_is_found_within_bound (limit : nat) (content : text) :
  (front_matter_check limit content = true
   ↔ ∃ first_line rest,
       file_lines content = first_line :: rest
       ∧ Str.strip first_line = txt "---"
       ∧ ∃ k line, rest !! k = Some line
                   ∧ Str.strip line = txt "---" ∧ k ≤ limit + 1)
  ∧ has_yaml_front_matter = front_matter_check 30
  ∧ find_missing_has_yaml_front_matter = front_matter_check 45
  ∧ front_matter_check limit [] = false.
Proof.
  clear unicode_alnum parse_template.
  split; [|done]. unfold front_matter_check.
  destruct (file_lines content) as [|first_line rest]; simpl.
  - split; [done | by intros (? & ? & ? & _)].
  - destruct (Str.eqb (Str.strip first_line) (txt "---")) eqn:E; simpl.
    + apply eqb_eq in E. rewrite closing_line_scan_spec by lia. split.
      * intros (k & l & Hk & Hs & Hb). exists first_line, rest.
        split; [done|]. split; [done|]. by exists k, l.
      * intros (f & r & [= <- <-] & _ & k & l & Hk & Hs & Hb).
        by exists k, l.
    + split; [done|]. intros (f & r & [= <- <-] & Hs & _).
      apply eqb_eq in Hs. congruence.
Qed.

(** ** UTF-8 *)

(** Settles a test on byte values by arithmetic. *)
Ltac bool_arith :=
  rewrite ?andb_true_iff, ?andb_false_iff, ?negb_true_iff, ?negb_false_iff,
    ?andb_true_iff, ?andb_false_iff,
    ?N.ltb_lt, ?N.ltb_ge, ?N.leb_le, ?N.leb_gt, ?N.eqb_eq, ?N.eqb_neq;
  div_lia.

(** Takes the branch of a conditional that the arithmetic selects. *)
Ltac step_if :=
  match goal with
  | |- context [if ?b then _ else _] =>
    first [ replace b with true by (symmetry; bool_arith)
          | replace b with false by (symmetry; bool_arith) ]
  end;
  cbv iota.

(** The bytes of a code point are decoded as that code point. *)
Lemma utf8_decode_encode_char (c : N) (g rest : list N) :
  Codec.utf8_encode_char c = Some g →
  Codec.utf8_decode_N (g ++ rest) = cons c <$> Codec.utf8_decode_N rest.
Proof.
  clear unicode_alnum parse_template.
  unfold Codec.utf8_encode_char.
  destruct (N.ltb_spec c 128); [intros [= <-]|].
  { cbn [app Codec.utf8_decode_N]. by step_if. }
  destruct (N.ltb_spec c 2048); [intros [= <-]|].
  { cbn [app Codec.utf8_decode_N]. unfold Codec.is_cont.
    do 3 step_if. f_equal. f_equal. div_lia. }
  destruct (N.ltb_spec c 65536).
  { destruct ((55296 <=? c)%N && (c <? 57344)%N) eqn:E; [done|].
    apply andb_false_iff in E. rewrite N.leb_gt, N.ltb_ge in E.
    intros [= <-]. cbn [app Codec.utf8_decode_N]. unfold Codec.is_cont.
    do 4 step_if. f_equal. f_equal. div_lia. }
  destruct (N.ltb_spec c 1114112); [intros [= <-]|done].
  cbn [app Codec.utf8_decode_N]. unfold Codec.is_cont.
  do 5 step_if. f_equal. f_equal. div_lia.
Qed.

Lemma mapM_of_N_to_N (l : list N) (bs : list byte) :
  mapM Byte.of_N l = Some bs → Byte.to_N <$> bs = l.
Proof.
  intros H. apply mapM_Some_1 in H.
  induction H as [|n b l bs Hb _ IH]; [done|].
  rewrite fmap_cons. f_equal; [by apply Byte.to_of_N | done].
Qed.

(** What was encoded is decoded as it was. *)
Lemma utf8_decode_encode (t : text) (bs : list byte) :
  Codec.utf8_encode t = Some bs → Codec.utf8_decode bs = Some t.
Proof.
  unfold Codec.utf8_encode, Codec.utf8_decode.
  destruct (mapM Codec.utf8_encode_char t) as [ns|] eqn:E; [|done]. simpl.
  intros ->%mapM_of_N_to_N. apply mapM_Some_1 in E.
  induction E as [|c g t ns Hc _ IH]; [done|].
  simpl. by rewrite (utf8_decode_encode_char c g), IH.
Qed.

(** Turns the tests among the hypotheses into arithmetic. *)
Ltac prop_tests :=
  repeat match goal with
    | H : _ && _ = true |- _ => apply andb_true_iff in H as [? ?]
    | H : _ && _ = false |- _ =>
      apply andb_false_iff in H;
      rewrite ?N.ltb_ge, ?N.leb_gt, ?N.eqb_neq in H
    | H : negb _ = true |- _ => apply negb_true_iff in H
    | H : negb _ = false |- _ => apply negb_false_iff in H
    | H : (_ <? _)%N = true |- _ => apply N.ltb_lt in H
    | H : (_ <? _)%N = false |- _ => apply N.ltb_ge in H
    | H : (_ <=? _)%N = true |- _ => apply N.leb_le in H
    | H : (_ <=? _)%N = false |- _ => apply N.leb_gt in H
    | H : (_ =? _)%N = true |- _ => apply N.eqb_eq in H
    | H : (_ =? _)%N = false |- _ => apply N.eqb_neq in H
    end.

(** What was decoded is encoded as it was. *)
Lemma utf8_encode_decode_N (l : list N) (t : text) :
  Codec.utf8_decode_N l = Some t →
  ∃ ns, mapM Codec.utf8_encode_char t = Some ns ∧ concat ns = l.
Proof.
  clear unicode_alnum parse_template.
  remember (length l) as n eqn:Hn. revert l t Hn.
  induction (lt_wf n) as [n _ IH]. intros l t -> Hd.
  destruct l as [|b0 r0]; [injection Hd as <-; by exists []|].
  cbn [Codec.utf8_decode_N] in Hd.
  assert (Hstep : ∀ g r c t',
            b0 :: r0 = g ++ r → g ≠ [] →
            Codec.utf8_decode_N r = Some t' →
            Codec.utf8_encode_char c = Some g →
            ∃ ns, mapM Codec.utf8_encode_char (c :: t') = Some ns
                  ∧ concat ns = b0 :: r0).
  { intros g r c t' Hl Hg Hr Hc.
    destruct (IH (length r)) with (l := r) (t := t') as (ns & Hns & Hcat);
      [|done|done|].
    - rewrite Hl, length_app. destruct g; [done | simpl; lia].
    - exists (g :: ns). simpl. rewrite Hc, Hns. simpl. by rewrite Hcat. }
  destruct (b0 <? 128)%N eqn:E1.
  { destruct (Codec.utf8_decode_N r0) as [t'|] eqn:D; [|done].
    injection Hd as <-. apply (Hstep [b0] r0); [done..|].
    unfold Codec.utf8_encode_char. by rewrite E1. }
  destruct ((194 <=? b0)%N && (b0 <? 224)%N) eqn:E2.
  { destruct r0 as [|b1 r1]; [done|].
    destruct (Codec.is_cont b1) eqn:C1; [|done].
    destruct (Codec.utf8_decode_N r1) as [t'|] eqn:D; [|done].
    injection Hd as <-. apply (Hstep [b0; b1] r1); [done..|].
    unfold Codec.is_cont in *. prop_tests.
    unfold Codec.utf8_encode_char. do 2 step_if.
    f_equal. f_equal; [div_lia | f_equal; div_lia]. }
  destruct ((224 <=? b0)%N && (b0 <? 240)%N) eqn:E3.
  { destruct r0 as [|b1 [|b2 r2]]; [done..|].
    destruct (_ && _ && _ && _) eqn:C1 in Hd; [|done].
    destruct (Codec.utf8_decode_N r2) as [t'|] eqn:D; [|done].
    injection Hd as <-. apply (Hstep [b0; b1; b2] r2); [done..|].
    unfold Codec.is_cont in *. prop_tests.
    unfold Codec.utf8_encode_char. do 4 step_if.
    f_equal. f_equal; [div_lia | f_equal; [div_lia | f_equal; div_lia]]. }
  destruct ((240 <=? b0)%N && (b0 <? 245)%N) eqn:E4; [|done].
  destruct r0 as [|b1 [|b2 [|b3 r3]]]; [done..|].
  destruct (_ && _ && _ && _ && _) eqn:C1 in Hd; [|done].
  destruct (Codec.utf8_decode_N r3) as [t'|] eqn:D; [|done].
  injection Hd as <-. apply (Hstep [b0; b1; b2; b3] r3); [done..|].
  unfold Codec.is_cont in *. prop_tests.
  unfold Codec.utf8_encode_char. do 4 step_if.
  f_equal.
  f_equal; [div_lia | f_equal; [div_lia | f_equal; [div_lia | f_equal; div_lia]]].
Qed.

Lemma utf8_encode_decode (bs : list byte) (t : text) :
  Codec.utf8_decode bs = Some t → Codec.utf8_encode t = Some bs.
Proof.
  unfold Codec.utf8_decode, Codec.utf8_encode. intros H.
  apply utf8_encode_decode_N in H as (ns & Hns & Hcat).
  rewrite Hns. simpl. rewrite Hcat. apply latin1_encode_decode.
Qed.

(** ** The backups *)

Lemma utf8_encode_char_bytes (c : N) (g : list N) :
  Codec.utf8_encode_char c = Some g → latin1_text g.
Proof.
  clear unicode_alnum parse_template.
  unfold Codec.utf8_encode_char, latin1_text.
  destruct (N.ltb_spec c 128); [intros [= <-]; repeat constructor; lia|].
  destruct (N.ltb_spec c 2048);
    [intros [= <-]; repeat constructor; div_lia|].
  destruct (N.ltb_spec c 65536).
  { destruct (_ && _); [done|]. intros [= <-]. repeat constructor; div_lia. }
  destruct (N.ltb_spec c 1114112); [|done].
  intros [= <-]. repeat constructor; div_lia.
Qed.

(** A text of code points that UTF-8 can encode is encoded. *)
Lemma utf8_encode_total (t : text) :
  Forall (λ c, is_Some (Codec.utf8_encode_char c)) t →
  ∃ bs, Codec.utf8_encode t = Some bs.
Proof.
  intros Ht. unfold Codec.utf8_encode.
  assert (∃ ns, mapM Codec.utf8_encode_char t = Some ns) as [ns Hns].
  { induction Ht as [|c t [g Hg] _ [ns IH]]; [by exists []|].
    exists (g :: ns). simpl. by rewrite Hg, IH. }
  rewrite Hns. simpl. apply latin1_encode_total. clear Ht.
  apply mapM_Some_1 in Hns. unfold latin1_text.
  induction Hns as [|c g t ns Hc _ IH]; [constructor|].
  simpl. apply Forall_app. split; [by eapply utf8_encode_char_bytes | done].
Qed.

Lemma utf8_decode_encodable (bs : list byte) (t : text) :
  Codec.utf8_decode bs = Some t →
  Forall (λ c, is_Some (Codec.utf8_encode_char c)) t.
Proof.
  intros H. apply utf8_encode_decode_N in H as (ns & Hns & _).
  apply mapM_Some_1 in Hns.
  induction Hns as [|c g t ns Hc _ IH]; constructor; [by exists g | done].
Qed.

(** The text that was read holds no carriage return. *)
Lemma universal_newlines_no_cr (t : text) :
  13%N ∉ Codec.universal_newlines t.
Proof.
  remember (length t) as n eqn:Hn.
  revert t Hn. induction (lt_wf n) as [n _ IH]. intros t ->.
  destruct t as [|c r]; [apply not_elem_of_nil|]. simpl.
  destruct (c =? 13)%N eqn:E.
  - apply not_elem_of_cons. split; [done|]. destruct r as [|d r'].
    + apply not_elem_of_nil.
    + destruct (d =? 10)%N.
      * apply (IH (length r')); [simpl; lia | done].
      * apply (IH (length (d :: r'))); [simpl; lia | done].
  - apply not_elem_of_cons. apply N.eqb_neq in E. split; [done|].
    apply (IH (length r)); [simpl; lia | done].
Qed.

Lemma app_ne_self (p suffix : text) : suffix ≠ [] → p ++ suffix ≠ p.
Proof.
  intros Hs H. apply (f_equal length) in H. rewrite length_app in H.
  destruct suffix; [done | simpl in H; lia].
Qed.

(** What the write phase of a script leaves in the backup. *)
Lemma write_phase_backup (file_path backup_path : path)
  (content modified_content : text) (e : event) (old_bytes : list byte)
  (w w' : world) :
  backup_path ≠ file_path →
  Codec.utf8_encode content = Some old_bytes →
  (let* _ := write_text Utf8 backup_path content in
   let* _ := write_text Utf8 file_path modified_content in
   print e) w = (w', Ok tt) →
  files w' !! backup_path = Some old_bytes.
Proof.
  intros Hne Hold. unfold bind, write_text, print. simpl encode. rewrite Hold.
  case_bool_decide; [done|]. simpl locked.
  case_bool_decide; [done|].
  destruct (Codec.utf8_encode modified_content); [|done].
  intros [= <-]. simpl. rewrite lookup_insert_ne by done.
  apply lookup_insert_eq.
Qed.

(** The same for the write phase as the scripts have it outside a dry
    run and with backups. *)
Lemma commit_backup {A} (file_path backup_path : path)
  (content modified_content : text) (e : event) (r r' : A)
  (old_bytes : list byte) (w w' : world) :
  backup_path ≠ file_path →
  Codec.utf8_encode content = Some old_bytes →
  (let* _ :=
     when (negb false)
       (let* _ := when true (write_text Utf8 backup_path content) in
        let* _ := write_text Utf8 file_path modified_content in
        print e) in
   ret r) w = (w', Ok r') →
  files w' !! backup_path = Some old_bytes.
Proof.
  intros Hne Hold. cbn [negb when]. unfold bind at 1.
  destruct ((let* _ := write_text Utf8 backup_path content in
             let* _ := write_text Utf8 file_path modified_content in
             print e) w) as [w1 [[]|e']] eqn:E; [|done].
  intros [= <- _]. by eapply write_phase_backup.
Qed.

(** X17: the text that a script reads from a note can always be
    encoded again, and its bytes decode to the same text; they are the
    bytes of the note itself when the note holds no carriage return.
    Whenever the tag conversion, the wikilink simplification, the
    navigation fix or the tag cleaner reports a note as modified,
    outside a dry run and with backups, the backup of the note holds
    these bytes. *)
Theorem backup_restores_text_read (file_path : path) (w : world)
  (bs : list byte) (raw : text) :
  files w !! file_path = Some bs →
  Codec.utf8_decode bs = Some raw →
  let content := Codec.universal_newlines raw in
  ∃ old_bytes,
    Codec.utf8_encode content = Some old_bytes
    ∧ Codec.utf8_decode old_bytes = Some content
    ∧ Codec.universal_newlines content = content
    ∧ (13%N ∉ raw → old_bytes = bs)
    ∧ (∀ tag wikilink convert_yaml exact_match w' n,
         convert_tag_to_wikilink file_path tag wikilink true false
           convert_yaml exact_match w = (w', Ok (true, n)) →
         files w' !! (file_path ++ txt "." ++ Str.replace tag (txt "#") []
                        ++ txt ".backup") = Some old_bytes)
    ∧ (∀ max_size_kb w' n,
         simplify_wikilinks file_path true false max_size_kb w
         = (w', Ok (true, n)) →
         files w' !! (file_path ++ txt ".backup") = Some old_bytes)
    ∧ (∀ w' n,
         fix_navigation_links file_path true false w = (w', Ok (true, n)) →
         files w' !! (file_path ++ txt ".navfix.backup") = Some old_bytes)
    ∧ (∀ verbose w' n,
         clean_done_tags file_path true false verbose w
         = (w', Ok (true, n)) →
         files w' !! (file_path ++ txt ".backup") = Some old_bytes).
Proof.
  intros Hf Hd content.
  pose proof (read_text_ok Utf8 _ _ _ _ Hf Hd) as Hr. fold content in Hr.
  destruct (utf8_encode_total content) as [old_bytes Hold].
  { apply universal_newlines_Forall; [by eexists|].
    by eapply utf8_decode_encodable. }
  exists old_bytes. split; [done|].
  split; [by apply utf8_decode_encode|].
  split; [apply universal_newlines_id, universal_newlines_no_cr|].
  split.
  { intros H13. unfold content in Hold.
    rewrite universal_newlines_id in Hold by done.
    apply utf8_encode_decode in Hd. congruence. }
  split; [|split; [|split]].
  - intros tag wikilink cy em w' n. unfold convert_tag_to_wikilink, try_except.
    match goal with
    | |- context [match ?m w with _ => _ end] =>
      destruct (m w) as [w1 [a|e]] eqn:Hbody
    end; [|by intros [= _ ?]].
    intros [= -> ->]. unfold bind at 1 in Hbody. rewrite Hr in Hbody.
    destruct (negb (Str.contains tag content)); [done|].
    unfold bind at 1, lift at 1 in Hbody.
    destruct (convert_content tag wikilink cy em content) as [[mc k]|];
      [|done].
    destruct (negb (Str.eqb content mc)); [|done].
    eapply commit_backup; [|done|exact Hbody].
    apply app_ne_self. by destruct (Str.replace tag (txt "#") []).
  - intros k w' n. unfold simplify_wikilinks, try_except.
    match goal with
    | |- context [match ?m w with _ => _ end] =>
      destruct (m w) as [w1 [a|e]] eqn:Hbody
    end; [|by intros [= _ ?]].
    intros [= -> ->]. unfold bind at 1, getsize in Hbody. rewrite Hf in Hbody.
    destruct (_ <? _)%Z; [done|].
    unfold bind at 1 in Hbody. rewrite Hr in Hbody.
    unfold bind at 1, lift at 1 in Hbody.
    destruct (link_replacements _) as [pairs|]; [|done].
    destruct (length pairs =? 0); [done|].
    destruct (negb (Str.eqb content _)); [|done].
    eapply commit_backup; [|done|exact Hbody]. by apply app_ne_self.
  - intros w' n. unfold fix_navigation_links, try_except.
    match goal with
    | |- context [match ?m w with _ => _ end] =>
      destruct (m w) as [w1 [a|e]] eqn:Hbody
    end; [|by intros [= _ ?]].
    intros [= -> ->]. unfold bind at 1 in Hbody. rewrite Hr in Hbody.
    destruct (Re.search BROKEN_NAV_PATTERN content) as [m|]; [|done].
    destruct (negb (Str.eqb content _)); [|done].
    eapply commit_backup; [|done|exact Hbody]. by apply app_ne_self.
  - intros verbose w' n. unfold clean_done_tags, try_except.
    match goal with
    | |- context [match ?m w with _ => _ end] =>
      destruct (m w) as [w1 [a|e]] eqn:Hbody
    end.
    + intros [= -> ->]. unfold bind at 1 in Hbody. rewrite Hr in Hbody.
      unfold bind at 1 in Hbody.
      destruct (when (verbose && Str.contains (txt "#done") content)
                  (print (PrintDebugFound file_path)) w)
        as [w2 [[]|e2]] eqn:Hw2; [|by destruct (_ && _)].
      destruct (clean_content content) as [[mp ms] modified].
      unfold bind at 1 in Hbody.
      destruct (when (verbose && bool_decide (0 < length (mp ++ ms)))
                  (print (PrintDebugCounts (length mp) (length ms) (mp ++ ms)))
                  w2)
        as [w3 [[]|e3]] eqn:Hw3; [|by destruct (_ && _)].
      destruct (length (mp ++ ms) =? 0); [done|].
      destruct (negb (Str.eqb content modified)).
      * eapply commit_backup; [|done|exact Hbody]. by apply app_ne_self.
      * unfold bind, when, print, ret in Hbody.
        by destruct (bool_decide (0 < length (mp ++ ms))).
    + destruct e; try (by intros [= _ ?]).
      exfalso. unfold bind at 1 in Hbody. rewrite Hr in Hbody.
      destruct (clean_content content) as [[mp ms] modified].
      unfold bind, when, print, ret, write_text in Hbody.
      repeat (case_match; simplify_eq/=).
Qed.

(** ** clean_done_tags_vault.py: the errors of a call *)

(** What a call of [clean_done_tags] reads from the bytes of a file:
    the text in UTF-8 when the bytes are valid UTF-8, and the text in
    latin-1 otherwise. *)
Definition clean_reading (bs : list byte) : encoding * text :=
  match Codec.utf8_decode bs with
  | Some raw => (Utf8, Codec.universal_newlines raw)
  | None => (Latin1, Codec.universal_newlines (Codec.latin1_decode bs))
  end.

(** The line that reports an error of the call: that of the outer
    handler for a file read in UTF-8, that of the handler of the
    fallback for a file read in latin-1. *)
Definition clean_error_line (enc : encoding) (p : path) (e : exn) : event :=
  match enc with
  | Utf8 => PrintErrorProcessing p e
  | Latin1 => PrintErrorAlternate p e
  end.

Definition is_error_line (ev : event) : bool :=
  match ev with
  | PrintErrorProcessing _ _ | PrintErrorAlternate _ _ => true
  | _ => false
  end.

(** The lines that a verbose call prints before it writes; the
    fallback prints none. *)
Definition clean_debug_lines (verbose : bool) (enc : encoding) (p : path)
  (content : text) : list event :=
  match enc with
  | Latin1 => []
  | Utf8 =>
    let found := fst (clean_content content) in
    (if verbose && Str.contains (txt "#done") content
     then [PrintDebugFound p] else [])
    ++ (if verbose && bool_decide (0 < length (fst found ++ snd found))
        then [PrintDebugCounts (length (fst found)) (length (snd found))
                (fst found ++ snd found)]
        else [])
  end.

(** The line that reports the modification. *)
Definition clean_modified_line (enc : encoding) (p : path) (n : nat) : event :=
  match enc with
  | Utf8 => PrintModified p n
  | Latin1 => PrintModifiedLatin1 p n
  end.

Lemma when_print_run (b : bool) (e : event) (w : world) :
  when b (print e) w
  = ({| files := files w; locked := locked w;
        stdout := stdout w ++ (if b then [e] else []) |}, Ok tt).
Proof.
  destruct b; [done|]. unfold when, ret. rewrite app_nil_r. by destruct w.
Qed.

(** A text with nothing found in it is left as it is. *)
Lemma clean_content_nothing_found (content : text) :
  length (fst (fst (clean_content content)) ++ snd (fst (clean_content content)))
  = 0 →
  snd (clean_content content) = content.
Proof.
  unfold clean_content. cbn [fst snd]. intros H.
  apply length_zero_iff_nil, app_eq_nil in H as [-> ->]. done.
Qed.

(** Both the text read and the cleaned text can be written back in the
    encoding of the reading. *)
Lemma clean_reading_encodes (bs : list byte) :
  let enc := fst (clean_reading bs) in
  let content := snd (clean_reading bs) in
  ∃ old_bytes new_bytes,
    encode enc content = Some old_bytes
    ∧ encode enc (snd (clean_content content)) = Some new_bytes.
Proof.
  unfold clean_reading. destruct (Codec.utf8_decode bs) as [raw|] eqn:Hd;
    cbn [fst snd encode].
  - assert (Hc : Forall (λ c, is_Some (Codec.utf8_encode_char c))
                   (Codec.universal_newlines raw)).
    { apply universal_newlines_Forall; [by eexists|].
      by eapply utf8_decode_encodable. }
    destruct (utf8_encode_total _ Hc) as [old Hold].
    destruct (utf8_encode_total _ (clean_content_Forall _ _ Hc)) as [new Hnew].
    by exists old, new.
  - assert (Hc : latin1_text (Codec.universal_newlines (Codec.latin1_decode bs))).
    { apply universal_newlines_Forall; [lia | apply latin1_decode_text]. }
    destruct (latin1_encode_total _ Hc) as [old Hold].
    destruct (latin1_encode_total _ (clean_content_Forall _ _ Hc))
      as [new Hnew].
    by exists old, new.
Qed.

(** The write phase of a call: the backup when one is asked for, the
    note, and the line that reports the modification.  It stops at the
    first file that cannot be opened for writing. *)
Lemma write_phase_run (enc : encoding) (file_path backup_path : path)
  (content modified_content : text) (ev : event) (create_backup : bool)
  (old_bytes new_bytes : list byte) (w : world) :
  encode enc content = Some old_bytes →
  encode enc modified_content = Some new_bytes →
  (let* _ := when create_backup (write_text enc backup_path content) in
   let* _ := write_text enc file_path modified_content in
   print ev) w
  = let w1 := if create_backup then set_file backup_path old_bytes w else w in
    if create_backup && bool_decide (backup_path ∈ locked w)
    then (w, Raise PermissionError)
    else if bool_decide (file_path ∈ locked w)
         then (w1, Raise PermissionError)
         else ({| files := <[file_path := new_bytes]> (files w1);
                  locked := locked w; stdout := stdout w ++ [ev] |}, Ok tt).
Proof.
  intros Hold Hnew. unfold bind, when, write_text, print, ret.
  rewrite Hold, Hnew.
  destruct create_backup; cbn [andb];
    repeat (case_bool_decide; cbn [locked set_file files stdout]); done.
Qed.

(** What a call does with a file that it can read. *)
Lemma clean_done_tags_run (file_path : path)
  (create_backup dry_run verbose : bool) (w : world) (bs : list byte) :
  files w !! file_path = Some bs →
  let enc := fst (clean_reading bs) in
  let content := snd (clean_reading bs) in
  let found := fst (clean_content content) in
  let modified_content := snd (clean_content content) in
  let tag_count := length (fst found ++ snd found) in
  let w1 := {| files := files w; locked := locked w;
               stdout := stdout w
                         ++ clean_debug_lines verbose enc file_path content |} in
  clean_done_tags file_path create_backup dry_run verbose w
  = if Str.eqb content modified_content
    then ({| files := files w; locked := locked w;
             stdout := stdout w1
                       ++ match enc with
                          | Utf8 =>
                            if bool_decide (0 < tag_count)
                            then [PrintWarningNotModified tag_count file_path]
                            else []
                          | Latin1 => []
                          end |}, Ok (false, 0))
    else if dry_run then (w1, Ok (true, tag_count))
    else match (let* _ := when create_backup
                            (write_text enc (file_path ++ txt ".backup")
                               content) in
                let* _ := write_text enc file_path modified_content in
                print (clean_modified_line enc file_path tag_count)) w1 with
         | (w2, Ok _) => (w2, Ok (true, tag_count))
         | (w2, Raise e) =>
           ({| files := files w2; locked := locked w2;
               stdout := stdout w2 ++ [clean_error_line enc file_path e] |},
            Ok (false, 0))
         end.
Proof.
  intros Hf. unfold clean_reading.
  destruct (Codec.utf8_decode bs) as [raw|] eqn:Hd; cbn [fst snd];
    cbv zeta.
  - set (content := Codec.universal_newlines raw).
    pose proof (clean_content_nothing_found content) as Hnone.
    unfold clean_done_tags, try_except, bind at 1.
    rewrite (read_text_ok Utf8 _ _ bs raw) by done. fold content.
    unfold bind at 1. rewrite when_print_run.
    unfold clean_debug_lines.
    destruct (clean_content content) as [[mp ms] modified].
    cbn [fst snd] in *. unfold bind at 1. rewrite when_print_run.
    cbn [stdout files locked]. rewrite <- (assoc_L (++)).
    destruct (length (mp ++ ms) =? 0) eqn:E0.
    { apply Nat.eqb_eq in E0. rewrite <- (Hnone E0), eqb_refl, E0.
      rewrite (bool_decide_eq_false_2 (0 < 0)) by lia.
      by rewrite !andb_false_r, !app_nil_r. }
    destruct (Str.eqb content modified) eqn:Eeq; cbn [negb].
    { unfold bind, when, print, ret. apply Nat.eqb_neq in E0.
      rewrite (bool_decide_eq_true_2 (0 < length (mp ++ ms))) by lia.
      cbn [stdout files locked]. by rewrite <- !(assoc_L (++)). }
    destruct dry_run; cbn [negb when]; [done|].
    unfold bind at 1.
    cbn [clean_modified_line clean_error_line].
    set (w1 := {| files := files w; locked := locked w;
                  stdout := stdout w ++ _ ++ _ |}).
    destruct ((let* _ := when create_backup
                           (write_text Utf8 (file_path ++ txt ".backup")
                              content) in
               let* _ := write_text Utf8 file_path modified in
               print (PrintModified file_path (length (mp ++ ms)))) w1)
      as [w2 [[]|e]] eqn:Hphase; [done|].
    destruct e; try done. exfalso.
    unfold bind, when, write_text, print in Hphase.
    repeat (case_match; simplify_eq/=).
  - set (content := Codec.universal_newlines (Codec.latin1_decode bs)).
    pose proof (clean_content_nothing_found content) as Hnone.
    unfold clean_done_tags, try_except at 1, bind at 1, read_text at 1.
    rewrite Hf. cbn [decode]. rewrite Hd.
    unfold clean_done_tags_latin1, try_except, bind at 1, read_text.
    rewrite Hf. cbn [decode]. fold content.
    unfold clean_debug_lines.
    destruct (clean_content content) as [[mp ms] modified].
    cbn [fst snd] in *. rewrite !app_nil_r.
    assert (Hw : {| files := files w; locked := locked w; stdout := stdout w |}
                 = w) by (by destruct w).
    rewrite ?Hw.
    destruct (length (mp ++ ms) =? 0) eqn:E0.
    { apply Nat.eqb_eq in E0.
      by rewrite <- (Hnone E0), eqb_refl, ?app_nil_r, ?Hw. }
    destruct (Str.eqb content modified) eqn:Eeq; cbn [negb];
      [by rewrite ?app_nil_r, ?Hw|].
    destruct dry_run; cbn [negb when]; [done|].
    unfold bind at 1.
    cbn [clean_modified_line clean_error_line].
    destruct ((let* _ := when create_backup
                           (write_text Latin1 (file_path ++ txt ".backup")
                              content) in
               let* _ := write_text Latin1 file_path modified in
               print (PrintModifiedLatin1 file_path (length (mp ++ ms)))) w)
      as [w2 [[]|e]] eqn:Hphase; done.
Qed.

Lemma clean_debug_lines_no_error (verbose : bool) (enc : encoding)
  (p : path) (content : text) :
  Forall (λ ev, is_error_line ev = false)
    (clean_debug_lines verbose enc p content).
Proof.
  unfold clean_debug_lines. destruct enc; [|constructor].
  apply Forall_app. split; destruct (_ && _); by repeat constructor.
Qed.

(** The outcome of a call that met the error [e] after its debugging
    lines: the files [fs], one error line that names the path, and the
    value [(False, 0)]. *)
Definition clean_failure (w : world) (verbose : bool) (enc : encoding)
  (p : path) (content : text) (fs : gmap (list N) (list byte)) (e : exn)
  : world * result (bool * nat) :=
  ({| files := fs; locked := locked w;
      stdout := stdout w ++ clean_debug_lines verbose enc p content
                ++ [clean_error_line enc p e] |},
   Ok (false, 0)).

(** The batch calls [clean_done_tags] on every file, in order, and
    keeps the files whose call reported a modification. *)
Lemma clean_batch_runs (md_files : list path)
  (create_backup dry_run verbose : bool) (w : world) :
  ∃ w0 w' rs,
    files w0 = files w ∧ locked w0 = locked w
    ∧ runs (λ i, i mod 100 =? 0) (length md_files)
        (λ file_path, clean_done_tags file_path create_backup dry_run verbose)
        0 md_files w0 rs w'
    ∧ process_vault md_files create_backup dry_run verbose w
      = (w', Ok (reported md_files rs, sum_list (reported md_files rs).*2,
                 length md_files)).
Proof.
  unfold process_vault.
  unfold bind at 1. unfold print at 1. cbv beta iota.
  unfold bind at 1.
  set (w1 := {| files := files w; locked := locked w;
                stdout := stdout w ++ [PrintFoundFiles (length md_files)] |}).
  set (scan := when verbose
                 (let* sample_files := sample_scan md_files [] in
                  if bool_decide (sample_files ≠ [])
                  then print (PrintSampleFiles sample_files)
                  else print PrintNoSampleFiles)).
  assert (Hscan : writes_within (λ _, False) scan).
  { apply writes_within_when. intros _.
    apply writes_within_bind; [apply sample_scan_writes|].
    intros l. destruct (bool_decide _); apply writes_within_print. }
  assert (∃ w2, scan w1 = (w2, Ok tt)) as [w2 Hw2].
  { unfold scan. destruct verbose; simpl; [|unfold ret; eauto].
    unfold bind. destruct (sample_scan_returns md_files [] w1) as (w2 & l & ->).
    destruct (bool_decide (l ≠ [])); unfold print; eauto. }
  pose proof (writes_within_nowhere scan w1 Hscan) as Hfiles.
  destruct (Hscan w1) as [Hlocked _]. rewrite Hw2 in Hfiles, Hlocked |- *.
  unfold bind.
  destruct (loop_runs
              (λ i fs acc, clean_loop create_backup dry_run verbose
                             (length md_files) i fs acc)
              (λ i, i mod 100 =? 0) (length md_files)
              (λ f, clean_done_tags f create_backup dry_run verbose)
              ltac:(done) ltac:(done)
              ltac:(intros; apply clean_done_tags_returns)
              md_files 0 {| modified_files := []; total_tags := 0 |} w2)
    as (w' & rs & Hruns & ->).
  by exists w2, w', rs.
Qed.

(** C6, as the code has it: a call of [clean_done_tags] always
    returns.  The errors it can meet are a file that cannot be read
    and, when there is a change to write outside a dry run, a backup
    or a note that cannot be opened for writing, in the UTF-8 pass as
    in the latin-1 fallback; each is caught inside the call, which
    prints exactly one error line that names the path and returns
    [(False, 0)], the value of a call that finds nothing to change;
    a note that cannot be written leaves its backup behind.  A call
    that meets none of them prints no error line.  The batch calls
    [clean_done_tags] on every file in order, whatever the calls
    before met, and returns the total, the number of files, and the
    files whose call reported a modification, each with the count of
    that call: a path is listed exactly when a call on it returned
    [True], so that the path of an error is not listed. *)
Theorem clean_errors_are_printed_and_skipped :
  (∀ file_path create_backup dry_run verbose w,
     ∃ w' r, clean_done_tags file_path create_backup dry_run verbose w
             = (w', Ok r))
  ∧ (∀ file_path create_backup dry_run verbose w,
       files w !! file_path = None →
       clean_done_tags file_path create_backup dry_run verbose w
       = ({| files := files w; locked := locked w;
             stdout := stdout w
                       ++ [PrintErrorProcessing file_path FileNotFoundError] |},
          Ok (false, 0)))
  ∧ (∀ file_path verbose w bs,
       files w !! file_path = Some bs →
       let enc := fst (clean_reading bs) in
       let content := snd (clean_reading bs) in
       let backup_path := file_path ++ txt ".backup" in
       snd (clean_content content) ≠ content →
       ∃ old_bytes,
         encode enc content = Some old_bytes
         ∧ (backup_path ∈ locked w →
            clean_done_tags file_path true false verbose w
            = clean_failure w verbose enc file_path content (files w)
                PermissionError)
         ∧ (file_path ∈ locked w →
            clean_done_tags file_path false false verbose w
            = clean_failure w verbose enc file_path content (files w)
                PermissionError)
         ∧ (file_path ∈ locked w → (backup_path ∉ locked w) →
            clean_done_tags file_path true false verbose w
            = clean_failure w verbose enc file_path content
                (<[backup_path := old_bytes]> (files w)) PermissionError))
  ∧ (∀ file_path create_backup dry_run verbose w bs,
       files w !! file_path = Some bs →
       let content := snd (clean_reading bs) in
       dry_run = true
       ∨ snd (clean_content content) = content
       ∨ ((file_path ∉ locked w)
          ∧ (create_backup = true →
             (file_path ++ txt ".backup" ∉ locked w))) →
       ∃ evs,
         stdout (fst (clean_done_tags file_path create_backup dry_run verbose w))
         = stdout w ++ evs
         ∧ Forall (λ ev, is_error_line ev = false) evs)
  ∧ (∀ file_path create_backup dry_run verbose w bs,
       files w !! file_path = Some bs →
       let content := snd (clean_reading bs) in
       snd (clean_content content) = content →
       snd (clean_done_tags file_path create_backup dry_run verbose w)
       = Ok (false, 0))
  ∧ (∀ md_files create_backup dry_run verbose w,
       ∃ w0 w' rs,
         files w0 = files w ∧ locked w0 = locked w
         ∧ runs (λ i, i mod 100 =? 0) (length md_files)
             (λ file_path,
                clean_done_tags file_path create_backup dry_run verbose)
             0 md_files w0 rs w'
         ∧ process_vault md_files create_backup dry_run verbose w
           = (w', Ok (reported md_files rs,
                      sum_list (reported md_files rs).*2, length md_files))
         ∧ ∀ p n, (p, n) ∈ reported md_files rs
                  ↔ ∃ i, md_files !! i = Some p ∧ rs !! i = Some (true, n)).
Proof.
  split; [|split; [|split; [|split; [|split]]]].
  - intros. apply clean_done_tags_returns.
  - intros file_path b d v w Hf.
    unfold clean_done_tags, try_except, bind, read_text. by rewrite Hf.
  - intros file_path v w bs Hf enc content backup_path Hne.
    destruct (clean_reading_encodes bs) as (old_bytes & new_bytes & Hold & Hnew).
    fold enc content in Hold, Hnew.
    exists old_bytes. split; [done|].
    assert (Heq : Str.eqb content (snd (clean_content content)) = false).
    { unfold Str.eqb. apply bool_decide_eq_false_2. congruence. }
    assert (Hrun : ∀ b,
              clean_done_tags file_path b false v w
              = match (let* _ := when b (write_text enc backup_path content) in
                       let* _ := write_text enc file_path
                                   (snd (clean_content content)) in
                       print (clean_modified_line enc file_path
                                (length (fst (fst (clean_content content))
                                         ++ snd (fst (clean_content content))))))
                        {| files := files w; locked := locked w;
                           stdout := stdout w
                                     ++ clean_debug_lines v enc file_path
                                          content |} with
                | (w2, Ok _) =>
                  (w2, Ok (true, length (fst (fst (clean_content content))
                                         ++ snd (fst (clean_content content)))))
                | (w2, Raise e) =>
                  ({| files := files w2; locked := locked w2;
                      stdout := stdout w2 ++ [clean_error_line enc file_path e] |},
                   Ok (false, 0))
                end).
    { intros b. rewrite (clean_done_tags_run _ _ _ _ _ _ Hf).
      fold enc content. by rewrite Heq. }
    unfold clean_failure. split; [|split].
    + intros Hl. rewrite Hrun, (write_phase_run _ _ _ _ _ _ _ _ _ _ Hold Hnew).
      cbn [locked andb]. rewrite bool_decide_eq_true_2 by done.
      cbn [files locked stdout]. by rewrite <- (assoc_L (++)).
    + intros Hl. rewrite Hrun, (write_phase_run _ _ _ _ _ _ _ _ _ _ Hold Hnew).
      cbn [locked andb]. rewrite bool_decide_eq_true_2 by done.
      cbn [files locked stdout]. by rewrite <- (assoc_L (++)).
    + intros Hl Hb.
      rewrite Hrun, (write_phase_run _ _ _ _ _ _ _ _ _ _ Hold Hnew).
      cbn [locked andb]. rewrite bool_decide_eq_false_2 by done.
      rewrite bool_decide_eq_true_2 by done.
      cbn [files locked stdout set_file]. by rewrite <- (assoc_L (++)).
  - intros file_path b d v w bs Hf content Hcase.
    destruct (clean_reading_encodes bs) as (old_bytes & new_bytes & Hold & Hnew).
    fold content in Hold, Hnew.
    rewrite (clean_done_tags_run _ _ _ _ _ _ Hf). fold content.
    pose proof (clean_debug_lines_no_error v (fst (clean_reading bs)) file_path
                  content) as Hdebug.
    destruct (Str.eqb content (snd (clean_content content))) eqn:Heq.
    { cbn [fst stdout]. rewrite <- (assoc_L (++)). eexists. split; [done|].
      apply Forall_app. split; [done|].
      destruct (fst (clean_reading bs)); [|constructor].
      destruct (bool_decide _); by repeat constructor. }
    destruct d. { cbn [fst stdout]. by eexists. }
    destruct Hcase as [?|[Hsame|[Hl Hb]]]; [done| |].
    { unfold Str.eqb in Heq. by rewrite bool_decide_eq_true_2 in Heq. }
    rewrite (write_phase_run _ _ _ _ _ _ _ _ _ _ Hold Hnew).
    cbn [locked]. rewrite (bool_decide_eq_false_2 (file_path ∈ locked w)) by done.
    destruct b; cbn [andb];
      [rewrite (bool_decide_eq_false_2
                  (file_path ++ txt ".backup" ∈ locked w)) by auto|];
      cbn [fst stdout]; rewrite <- (assoc_L (++)); (eexists; split; [done|]);
      (apply Forall_app; split; [done|]);
      destruct (fst (clean_reading bs)); by repeat constructor.
  - intros file_path b d v w bs Hf content Hsame.
    rewrite (clean_done_tags_run _ _ _ _ _ _ Hf). fold content.
    by rewrite Hsame, eqb_refl.
  - intros md_files b d v w.
    destruct (clean_batch_runs md_files b d v w)
      as (w0 & w' & rs & H1 & H2 & H3 & H4).
    exists w0, w', rs. repeat (split; [done|]). apply reported_spec.
Qed.

(** ** clean_done_tags_vault.py: what the latin-1 fallback writes *)

(** C7: when the bytes of a file are not valid UTF-8, [clean_done_tags]
    reads the file as latin-1.  The text read and the cleaned text can
    both be encoded in latin-1 and decode back to themselves, and the
    bytes of the text read are the original bytes when the file has no
    carriage return.  When cleaning changes the text and the note can
    be written, a call outside a dry run writes the latin-1 bytes of
    the cleaned text to the note and, when a backup is asked for and
    can be written, the latin-1 bytes of the text read to the backup,
    prints the line of the fallback and returns [True] with the number
    of tags; in a dry run it writes nothing and returns the same
    value.  No other file is ever changed by the call. *)
Theorem latin1_fallback_writes_latin1 (file_path : path) (verbose : bool)
  (w : world) (bs : list byte) :
  files w !! file_path = Some bs →
  Codec.utf8_decode bs = None →
  let content := Codec.universal_newlines (Codec.latin1_decode bs) in
  let found := fst (clean_content content) in
  let modified_content := snd (clean_content content) in
  let tag_count := length (fst found ++ snd found) in
  let backup_path := file_path ++ txt ".backup" in
  ∃ old_bytes new_bytes,
    Codec.latin1_encode content = Some old_bytes
    ∧ Codec.latin1_decode old_bytes = content
    ∧ (13%N ∉ Codec.latin1_decode bs → old_bytes = bs)
    ∧ Codec.latin1_encode modified_content = Some new_bytes
    ∧ Codec.latin1_decode new_bytes = modified_content
    ∧ (modified_content ≠ content → (file_path ∉ locked w) →
       (backup_path ∉ locked w) →
       clean_done_tags file_path true false verbose w
       = ({| files := <[file_path := new_bytes]>
                        (<[backup_path := old_bytes]> (files w));
             locked := locked w;
             stdout := stdout w ++ [PrintModifiedLatin1 file_path tag_count] |},
          Ok (true, tag_count)))
    ∧ (modified_content ≠ content → (file_path ∉ locked w) →
       clean_done_tags file_path false false verbose w
       = ({| files := <[file_path := new_bytes]> (files w);
             locked := locked w;
             stdout := stdout w ++ [PrintModifiedLatin1 file_path tag_count] |},
          Ok (true, tag_count)))
    ∧ (modified_content ≠ content →
       ∀ create_backup,
         clean_done_tags file_path create_backup true verbose w
         = (w, Ok (true, tag_count)))
    ∧ (∀ create_backup dry_run p,
         let r := clean_done_tags file_path create_backup dry_run verbose w in
         files (fst r) !! p = files w !! p
         ∨ (p = file_path ∧ files (fst r) !! p = Some new_bytes)
         ∨ (p = backup_path ∧ create_backup = true
            ∧ files (fst r) !! p = Some old_bytes)).
Proof.
  intros Hf Hd content found modified_content tag_count backup_path.
  assert (Hread : clean_reading bs = (Latin1, content))
    by (unfold clean_reading; by rewrite Hd).
  assert (Hct : latin1_text content).
  { apply universal_newlines_Forall; [lia | apply latin1_decode_text]. }
  destruct (latin1_encode_total content Hct) as [old_bytes Hold].
  destruct (latin1_encode_total modified_content
              (clean_content_Forall _ _ Hct)) as [new_bytes Hnew].
  exists old_bytes, new_bytes.
  split; [done|]. split; [by apply latin1_decode_encode|].
  split.
  { intros H13. unfold content in Hold.
    rewrite universal_newlines_id, latin1_encode_decode in Hold by done.
    congruence. }
  split; [done|]. split; [by apply latin1_decode_encode|].
  assert (Hw : {| files := files w; locked := locked w;
                  stdout := stdout w |} = w) by (by destruct w).
  assert (Hrun : ∀ b d,
            clean_done_tags file_path b d verbose w
            = if Str.eqb content modified_content then (w, Ok (false, 0))
              else if d then (w, Ok (true, tag_count))
              else if b && bool_decide (backup_path ∈ locked w)
              then ({| files := files w; locked := locked w;
                       stdout := stdout w
                                 ++ [PrintErrorAlternate file_path
                                       PermissionError] |}, Ok (false, 0))
              else if bool_decide (file_path ∈ locked w)
              then ({| files := if b then <[backup_path := old_bytes]> (files w)
                                else files w;
                       locked := locked w;
                       stdout := stdout w
                                 ++ [PrintErrorAlternate file_path
                                       PermissionError] |}, Ok (false, 0))
              else ({| files := <[file_path := new_bytes]>
                                  (if b
                                   then <[backup_path := old_bytes]> (files w)
                                   else files w);
                       locked := locked w;
                       stdout := stdout w
                                 ++ [PrintModifiedLatin1 file_path tag_count] |},
                    Ok (true, tag_count))).
  { intros b d. rewrite (clean_done_tags_run _ _ _ _ _ _ Hf), Hread.
    cbn [fst snd clean_debug_lines clean_modified_line clean_error_line].
    fold modified_content found tag_count backup_path.
    rewrite !app_nil_r, !Hw.
    destruct (Str.eqb content modified_content); [done|].
    destruct d; [done|].
    rewrite (write_phase_run Latin1 _ _ _ _ _ _ _ _ _ Hold Hnew).
    destruct b; cbn [andb]; repeat case_bool_decide; by destruct w. }
  assert (Heq : modified_content ≠ content →
                Str.eqb content modified_content = false).
  { intros Hne. unfold Str.eqb. apply bool_decide_eq_false_2. congruence. }
  split; [|split; [|split]].
  - intros Hne Hl Hb. rewrite Hrun, Heq by done. cbn [andb].
    by rewrite !bool_decide_eq_false_2 by done.
  - intros Hne Hl. rewrite Hrun, Heq by done. cbn [andb].
    by rewrite bool_decide_eq_false_2 by done.
  - intros Hne b. by rewrite Hrun, Heq.
  - intros b d p. cbv zeta. rewrite Hrun. clear Hrun.
    pose proof (backup_path_ne file_path) as Hbp. fold backup_path in Hbp.
    destruct (Str.eqb content modified_content); [by left|].
    destruct d; [by left|].
    destruct b; cbn [andb]; repeat case_bool_decide; cbn [fst files];
      try (by left).
    + destruct (decide (p = backup_path)) as [->|Hp].
      * right. right. by rewrite lookup_insert_eq.
      * left. by rewrite lookup_insert_ne.
    + destruct (decide (p = file_path)) as [->|Hp].
      { right. left. by rewrite lookup_insert_eq. }
      rewrite lookup_insert_ne by done.
      destruct (decide (p = backup_path)) as [->|Hp'].
      { right. right. by rewrite lookup_insert_eq. }
      left. by rewrite lookup_insert_ne.
    + destruct (decide (p = file_path)) as [->|Hp].
      { right. left. by rewrite lookup_insert_eq. }
      left. by rewrite lookup_insert_ne.
Qed.

(** ** The replacement template *)

Lemma rebuild_ext (f g : Re.rmatch_obj → text) (ms : list Re.rmatch_obj)
  (pos : nat) (s : text) :
  (∀ m, f m = g m) → Re.rebuild f ms pos s = Re.rebuild g ms pos s.
Proof.
  intros Hfg. revert pos s. induction ms as [|m ms IH]; intros pos s; [done|].
  cbn [Re.rebuild]. by rewrite Hfg, IH.
Qed.

(** A template without group reference expands to its text at every
    match. *)
Lemma sub_with_literal (r : Re.re) (t s : text) :
  Re.sub_with r (Re.expand [Re.PLit t]) s = Re.sub r t s.
Proof.
  apply rebuild_ext. intros m. unfold Re.expand. simpl. apply app_nil_r.
Qed.

(** The text [[[wikilink]]] stands for itself when the wikilink holds
    no backslash. *)
Lemma compile_template_plain (wikilink : text) :
  92%N ∉ wikilink →
  compile_template (wikilink_text wikilink)
  = Ok [Re.PLit (wikilink_text wikilink)].
Proof.
  intros Hno. unfold compile_template.
  rewrite bool_decide_eq_false_2; [done|].
  unfold wikilink_text. rewrite !not_elem_of_app.
  split; [|split; [done|]];
    by (apply (bool_decide_unpack _); vm_compute; exact I).
Qed.

(** ** convert_tags_to_wikilinks.py: the front matter *)

Lemma split_nonempty (sep s : text) (m : nat) : Str.split sep m s ≠ [].
Proof.
  destruct m; [done|]. rewrite split_S. by destruct (Str.find_at sep s 0).
Qed.

(** Joining what was split gives the text back. *)
Lemma join_split (sep s : text) (m : nat) :
  Str.join sep (Str.split sep m s) = s.
Proof.
  revert s. induction m as [|m IH]; intros s; [done|].
  rewrite split_S. destruct (Str.find_at sep s 0) as [i|] eqn:E; [|done].
  apply find_at_Some in E as (a & b & -> & ->). simpl Nat.add.
  rewrite take_app_length.
  replace (drop (length a + length sep) (a ++ sep ++ b)) with b
    by (by rewrite (assoc_L (++)), <- length_app, drop_app_length).
  pose proof (split_nonempty sep b m) as Hne. specialize (IH b).
  destruct (Str.split sep m b) as [|p ps]; [done|].
  cbn [Str.join]. cbn [Str.join] in IH. by rewrite IH.
Qed.

(** Outside a block of tags, and with nothing to add, the loop copies
    every line that does not open such a block. *)
Lemma yaml_loop_copies (tag wikilink yaml_content : text) (exact_match : bool)
  (lines : list text) (st : yaml_loop) :
  in_tags_block st = false → yaml_count st = 0 →
  Forall (λ line, Str.startswith (txt "tags:") (Str.strip line) = false) lines →
  foldl (yaml_step tag wikilink yaml_content exact_match) st lines
  = {| modified_yaml_lines := modified_yaml_lines st ++ lines;
       in_tags_block := false; yaml_count := 0 |}.
Proof.
  intros Hb Hc Hl. revert st Hb Hc.
  induction Hl as [|line lines Hline _ IH]; intros st Hb Hc.
  - simpl. rewrite app_nil_r. destruct st. simpl in *. by subst.
  - cbn [foldl]. rewrite IH.
    + unfold yaml_step. rewrite Hline, Hb, Hc. cbn [andb].
      rewrite bool_decide_eq_false_2 by lia. rewrite andb_false_r.
      cbn [modified_yaml_lines]. by rewrite <- (assoc_L (++)).
    + unfold yaml_step. rewrite Hline, Hb, Hc. cbn [andb].
      rewrite bool_decide_eq_false_2 by lia. by rewrite andb_false_r.
    + unfold yaml_step. rewrite Hline, Hb, Hc. cbn [andb].
      rewrite bool_decide_eq_false_2 by lia. by rewrite andb_false_r.
Qed.

(** X18: the front matter of a note, as the conversion cuts it off, is
    left as it is when the conversion of the front matter is not asked
    for, and also when it is asked for and no line of the front matter
    starts, once stripped, with [tags:]; nothing is counted for it.
    The converted text is then the front matter followed by the body
    in which the matches of the tag pattern are replaced, and the
    count is the number of these matches. *)
Theorem front_matter_without_tags_is_kept (tag wikilink content : text)
  (convert_yaml exact_match : bool) :
  let yaml_content := fst (split_frontmatter content) in
  let body_content := snd (split_frontmatter content) in
  (convert_yaml = false
   ∨ ∀ line, line ∈ Str.split_all nl yaml_content →
             Str.startswith (txt "tags:") (Str.strip line) = false) →
  convert_yaml_block tag wikilink yaml_content convert_yaml exact_match
  = (yaml_content, 0)
  ∧ (∀ template, compile_template (wikilink_text wikilink) = Ok template →
       convert_content tag wikilink convert_yaml exact_match content
       = Ok (yaml_content
               ++ Re.sub_with (tag_pattern tag exact_match)
                    (Re.expand template) body_content,
             length (Re.findall (tag_pattern tag exact_match) body_content)))
  ∧ (92%N ∉ wikilink →
     convert_content tag wikilink convert_yaml exact_match content
     = Ok (yaml_content
             ++ Re.sub (tag_pattern tag exact_match) (wikilink_text wikilink)
                  body_content,
           length (Re.findall (tag_pattern tag exact_match) body_content))).
Proof.
  intros yaml_content body_content H.
  assert (Hblock : convert_yaml_block tag wikilink yaml_content convert_yaml
                     exact_match = (yaml_content, 0)).
  { unfold convert_yaml_block.
    destruct (convert_yaml && negb (Str.eqb yaml_content [])) eqn:E; [|done].
    destruct H as [->|H]; [done|].
    rewrite yaml_loop_copies; [|done|done|by apply Forall_forall].
    simpl. unfold Str.split_all. by rewrite join_split. }
  split; [done|].
  assert (Hall : ∀ template,
            compile_template (wikilink_text wikilink) = Ok template →
            convert_content tag wikilink convert_yaml exact_match content
            = Ok (yaml_content
                    ++ Re.sub_with (tag_pattern tag exact_match)
                         (Re.expand template) body_content,
                  length (Re.findall (tag_pattern tag exact_match)
                            body_content))).
  { intros template Hrepl. unfold convert_content.
    fold yaml_content body_content in Hblock.
    unfold yaml_content, body_content in *.
    destruct (split_frontmatter content) as [y b]. simpl in *.
    rewrite Hrepl, Hblock. by rewrite Nat.add_0_r. }
  split; [done|]. intros Hno.
  rewrite (Hall _ (compile_template_plain wikilink Hno)).
  by rewrite sub_with_literal.
Qed.

(** ** convert_tags_to_wikilinks.py: what the body becomes *)











End Scripts.

(** The part of [str.isalnum] below U+0100; above it the closed
    examples of this file never ask. *)
Definition latin1_alnum (c : N) : bool :=
  ((c =? 170) || (c =? 178) || (c =? 179) || (c =? 181) || (c =? 185)
   || (c =? 186) || (188 <=? c) && (c <=? 190)
   || (192 <=? c) && (c <=? 214) || (216 <=? c) && (c <=? 246)
   || (248 <=? c) && (c <=? 255))%N.

(** The parser's answer at the one template with a backslash that the
    closed examples use, [[[\g<0>]]]; their other templates hold no
    backslash and do not reach the parser. *)
Definition example_templates (t : text) : result (list Re.piece) :=
  if Str.eqb t (txt "[[\g<0>]]")
  then Ok [Re.PLit (txt "[["); Re.PGroup 0; Re.PLit (txt "]]")]
  else Raise ReError.

(** ** Closed instances *)

(** A vault with one note. *)
Definition one_note (p : path) (content : string) : world :=
  {| files := {[ p := list_byte_of_string content ]};
     locked := ∅; stdout := [] |}.

Lemma convert_tag_absent_witness :
  convert_tag_to_wikilink latin1_alnum example_templates (txt "n.md") (txt "#x")
    (txt "X") true false true false (one_note (txt "n.md") "hello")
  = (one_note (txt "n.md") "hello", Ok (false, 0)).
Proof.
  apply (convert_tag_absent_is_noop latin1_alnum example_templates (txt "n.md")
           (txt "#x") (txt "X") true false true false
           (one_note (txt "n.md") "hello")
           (list_byte_of_string "hello") (txt "hello")).
  - vm_compute. reflexivity.
  - vm_compute. reflexivity.
  - apply contains_false. vm_compute. reflexivity.
Defined.

Lemma unchanged_text_witness :
  convert_tag_to_wikilink latin1_alnum example_templates (txt "n.md") (txt "#a")
    (txt "A") true false false true (one_note (txt "n.md") "x#a")
  = (one_note (txt "n.md") "x#a", Ok (false, 0)).
Proof.
  refine (proj1 (unchanged_text_is_skipped latin1_alnum example_templates
                   (txt "n.md") (one_note (txt "n.md") "x#a")
                   (list_byte_of_string "x#a") (txt "x#a") _ _)
            (txt "#a") (txt "A") true false false true 0 _);
    vm_compute; reflexivity.
Defined.

(** C4, as the specification states it, fails: the only line of this
    text is not the delimiter, yet a metadata block is found and the
    body is not the whole text. *)
Lemma split_document_prefix_counterexample :
  Str.split_all nl (txt "---a---b") = [txt "---a---b"]
  ∧ split_document (txt "---a---b") = (txt "a", txt "b").
Proof. split; vm_compute; reflexivity. Qed.

(** C3, as the specification states it, fails for every rule family:
    the second pass over the output of the first changes the text
    again and counts a change.  For tags, the occurrence that follows a
    word character is matched only once the text before it has become
    a bracket; for wikilinks, a link inside an alias is matched once
    the outer link has been cut; for navigation rows, each pass repairs
    one row. *)
Lemma second_pass_changes_text_counterexample :
  (let r1 := convert_tag_to_wikilink latin1_alnum example_templates (txt "n.md")
               (txt "#a") (txt "w") false false false true
               (one_note (txt "n.md") "#a#a") in
   let r2 := convert_tag_to_wikilink latin1_alnum example_templates (txt "n.md")
               (txt "#a") (txt "w") false false false true (fst r1) in
   snd r1 = Ok (true, 1)
   ∧ content_of (txt "n.md") (fst r1) = Some (txt "[[w]]#a")
   ∧ snd r2 = Ok (true, 1)
   ∧ content_of (txt "n.md") (fst r2) = Some (txt "[[w]][[w]]"))
  ∧ (let r1 := simplify_wikilinks (txt "n.md") false false 1000
                 (one_note (txt "n.md") "[[a/b|[[c/d]]]]") in
     let r2 := simplify_wikilinks (txt "n.md") false false 1000 (fst r1) in
     snd r1 = Ok (true, 1)
     ∧ content_of (txt "n.md") (fst r1) = Some (txt "[[b|[[c/d]]")
     ∧ snd r2 = Ok (true, 1)
     ∧ content_of (txt "n.md") (fst r2) = Some (txt "[[b|[[d]]"))
  ∧ (let r1 := fix_navigation_links (txt "d.md") false false two_rows_note in
     let r2 := fix_navigation_links (txt "d.md") false false (fst r1) in
     snd r1 = Ok (true, 1)
     ∧ snd r2 = Ok (true, 1)
     ∧ content_of (txt "d.md") (fst r2) ≠ content_of (txt "d.md") (fst r1)).
Proof.
  split; [|split].
  - vm_compute. repeat split; reflexivity.
  - vm_compute. repeat split; reflexivity.
  - vm_compute. repeat split; try reflexivity. discriminate.
Qed.

(** A note with one broken row, as in the script's description. *)
Definition one_row_note : world :=
  one_note (txt "d.md")
    "←← [[2025-W12 |THIS WEEK / [[2025-03-21 |-1D / [[2025-03-23 |+1D / [[2025-W13 |NEXT WEEK →→".

(** The second pass over a note with one broken row is a no-op. *)
Lemma pass_without_match_witness :
  let w1 := fst (fix_navigation_links (txt "d.md") false false one_row_note) in
  content_of (txt "d.md") w1
  = Some (txt "←← [[01 - Calendar/Weekly/2025-W12 |THIS WEEK]] / [[01 - Calendar/Daily/2025-03-21 |-1D]] / [[01 - Calendar/Daily/2025-03-23 |+1D]] / [[01 - Calendar/Weekly/2025-W13 |NEXT WEEK]] →→")
  ∧ fix_navigation_links (txt "d.md") true false w1 = (w1, Ok (false, 0)).
Proof.
  split; [vm_compute; reflexivity|].
  refine (proj2 (proj2 (pass_without_match_is_noop latin1_alnum example_templates
            (txt "d.md") _
            (list_byte_of_string "←← [[01 - Calendar/Weekly/2025-W12 |THIS WEEK]] / [[01 - Calendar/Daily/2025-03-21 |-1D]] / [[01 - Calendar/Daily/2025-03-23 |+1D]] / [[01 - Calendar/Weekly/2025-W13 |NEXT WEEK]] →→")
            _ _ _)) true false _);
    vm_compute; reflexivity.
Defined.

(** Two vaults for the same list of paths: in the first, [a.md] cannot
    be read; in the second it holds nothing to remove. *)
Definition vault_unreadable : world :=
  {| files := {[ txt "b.md" := list_byte_of_string "x #done(1) y" ]};
     locked := ∅; stdout := [] |}.

Definition vault_plain : world :=
  {| files := {[ txt "a.md" := list_byte_of_string "nothing";
                 txt "b.md" := list_byte_of_string "x #done(1) y" ]};
     locked := ∅; stdout := [] |}.

(** C6, as the specification states it, fails: the error on [a.md] is
    printed when it happens, but the value of the call is that of a
    file with nothing to remove, and the value of the batch, from which
    the summary is printed, is the same as in the vault without any
    error: the errored path is recorded nowhere. *)
Lemma errored_file_not_recorded_counterexample :
  let r_err := process_vault latin1_alnum [txt "a.md"; txt "b.md"]
                 false false false vault_unreadable in
  let r_ok := process_vault latin1_alnum [txt "a.md"; txt "b.md"]
                false false false vault_plain in
  snd (clean_done_tags latin1_alnum (txt "a.md") false false false
         vault_unreadable) = Ok (false, 0)
  ∧ snd (clean_done_tags latin1_alnum (txt "a.md") false false false
           vault_plain) = Ok (false, 0)
  ∧ stdout (fst r_err)
    = [PrintFoundFiles 2; PrintProgress 1 2;
       PrintErrorProcessing (txt "a.md") FileNotFoundError;
       PrintModified (txt "b.md") 1]
  ∧ snd r_err = Ok ([(txt "b.md", 1)], 1, 2)
  ∧ snd r_ok = snd r_err
  ∧ summary_report ([(txt "b.md", 1)], 1, 2)
    = PrintSummary 2 [(txt "b.md", 1)] 1.
Proof. vm_compute. repeat split; reflexivity. Qed.

(** The table for five matched tags. *)
Example sorted_tags_example :
  sorted_tags
    (counter_update [] [txt "#b"; txt "#a"; txt "#b"; txt "#c"; txt "#a"]) 1
  = [(txt "#a", 2); (txt "#b", 2); (txt "#c", 1)].
Proof. vm_compute. reflexivity. Qed.

(** A note whose bytes are latin-1 (["café #done(1) x"] with the byte
    E9), not valid UTF-8. *)
Definition latin1_bytes : list byte :=
  list_byte_of_string "caf" ++ [default x00 (Byte.of_N 233)]
    ++ list_byte_of_string " #done(1) x".

Definition latin1_note : world :=
  {| files := {[ txt "n.md" := latin1_bytes ]}; locked := ∅; stdout := [] |}.

(** The latin-1 bytes of the cleaned text, ["café  x"]. *)
Definition latin1_cleaned_bytes : list byte :=
  list_byte_of_string "caf" ++ [default x00 (Byte.of_N 233)]
    ++ list_byte_of_string "  x".

(** On that note the call writes the original bytes to the backup and
    the latin-1 bytes of the cleaned text to the note. *)
Lemma latin1_fallback_witness :
  files latin1_note !! txt "n.md" = Some latin1_bytes
  ∧ Codec.utf8_decode latin1_bytes = None
  ∧ clean_done_tags latin1_alnum (txt "n.md") true false false latin1_note
    = ({| files := <[txt "n.md" := latin1_cleaned_bytes]>
                     (<[txt "n.md" ++ txt ".backup" := latin1_bytes]>
                        (files latin1_note));
          locked := locked latin1_note;
          stdout := stdout latin1_note
                    ++ [PrintModifiedLatin1 (txt "n.md") 1] |},
       Ok (true, 1)).
Proof.
  assert (H1 : files latin1_note !! txt "n.md" = Some latin1_bytes)
    by (vm_compute; reflexivity).
  assert (H2 : Codec.utf8_decode latin1_bytes = None)
    by (vm_compute; reflexivity).
  split; [exact H1|]. split; [exact H2|].
  destruct (latin1_fallback_writes_latin1 latin1_alnum (txt "n.md") false
              latin1_note latin1_bytes H1 H2)
    as (old_bytes & new_bytes & Hold & _ & _ & Hnew & _ & Hwrite & _).
  vm_compute in Hold. injection Hold as <-.
  vm_compute in Hnew. injection Hnew as <-.
  rewrite Hwrite.
  - vm_compute. reflexivity.
  - intros H. vm_compute in H. discriminate H.
  - apply not_elem_of_empty.
  - apply not_elem_of_empty.
Defined.

(** On that note the call removes the tag, keeps the original bytes as
    the backup and writes the cleaned text in latin-1. *)
Example latin1_fallback_example :
  let r := clean_done_tags latin1_alnum (txt "n.md") true false false
             latin1_note in
  snd r = Ok (true, 1)
  ∧ files (fst r) !! (txt "n.md.backup") = Some latin1_bytes
  ∧ (Codec.latin1_decode <$> files (fst r) !! txt "n.md")
    = Some (txt "café  x")
  ∧ stdout (fst r) = [PrintModifiedLatin1 (txt "n.md") 1].
Proof. vm_compute. repeat split; reflexivity. Qed.






(** A note whose only tag follows a space: the tag is found, nothing
    is removed, and the call warns. *)
Lemma standalone_done_witness :
  clean_done_tags latin1_alnum (txt "n.md") true false false
    (one_note (txt "n.md") "task #done")
  = ({| files := files (one_note (txt "n.md") "task #done"); locked := ∅;
        stdout := [PrintWarningNotModified 1 (txt "n.md")] |},
     Ok (false, 0)).
Proof.
  destruct (standalone_done_after_non_word_is_kept latin1_alnum (txt "n.md")
              true false (one_note (txt "n.md") "task #done")
              (list_byte_of_string "task #done") (txt "task #done"))
    as (_ & _ & H).
  - vm_compute. reflexivity.
  - vm_compute. reflexivity.
  - vm_compute. reflexivity.
  - intros a c b Hc. vm_compute in Hc.
    repeat (destruct a as [|? a]; simplify_eq/=; try done).
  - rewrite H. vm_compute. reflexivity.
Defined.

(** The link [[[a/b|c]]] is recorded and replaced with [[[b|c]. *)
Lemma simplified_link_witness :
  ∃ m, m ∈ Re.finditer WIKILINK_PATTERN (txt "[[a/b|c]]")
       ∧ simplified_link m = Ok (txt "[[b|c")
       ∧ ∃ folders note,
           last folders = Some 47%N
           ∧ note ≠ [] ∧ (47%N ∉ note)
           ∧ ((Re.m_text m = txt "[[" ++ folders ++ note ++ txt "]]"
               ∧ simplified_link m = Ok (txt "[[" ++ note ++ txt "]]"))
              ∨ ∃ alias,
                  Re.m_text m = txt "[[" ++ folders ++ note ++ txt "|" ++ alias
                                ++ txt "]]"
                  ∧ simplified_link m
                    = Ok (txt "[[" ++ note ++ txt "|" ++ alias)).
Proof.
  pose (ms := Re.finditer WIKILINK_PATTERN (txt "[[a/b|c]]")).
  assert (Hms : ∃ m rest, ms = m :: rest ∧ simplified_link m = Ok (txt "[[b|c"))
    by (vm_compute; eauto).
  destruct Hms as (m & rest & Hms & Hs). exists m.
  assert (Hin : m ∈ Re.finditer WIKILINK_PATTERN (txt "[[a/b|c]]"))
    by (fold ms; rewrite Hms; left).
  split; [exact Hin|]. split; [exact Hs|].
  exact (simplified_link_of_match _ m Hin).
Defined.

(** A content of ten characters summarised to four: two characters, a
    mark, an empty sample, a mark and one character, 61 in all. *)
Lemma summary_witness :
  extract_content_summary (txt "abcdefghij") 4
  = txt "ab" ++ truncated_mark ++ truncated_mark ++ txt "j"
  ∧ length (extract_content_summary (txt "abcdefghij") 4) = 61.
Proof.
  destruct (summary_exceeds_max_length (txt "abcdefghij") 4) as [_ H];
    [vm_compute; discriminate|].
  destruct H as (H1 & H2 & _); [vm_compute; reflexivity|].
  split; [rewrite H1 | rewrite H2]; vm_compute; reflexivity.
Defined.

(** A note written back with a one-line front matter. *)
Lemma rewritten_note_witness :
  split_document (new_content (txt "title: x") (txt "body"))
  = (txt "title: x", txt "body").
Proof.
  assert (H : ¬ occurs (txt "---") (Str.strip (txt "title: x")))
    by (apply contains_false; vm_compute; reflexivity).
  rewrite (proj1 (rewritten_note_splits_back (txt "title: x") H) (txt "body")).
  vm_compute. reflexivity.
Defined.

(** A note with one tag with parentheses and no carriage return: the
    backup holds the bytes of the note. *)
Lemma backup_restores_witness :
  let r := clean_done_tags latin1_alnum (txt "b.md") true false false
             (one_note (txt "b.md") "x #done(1) y") in
  snd r = Ok (true, 1)
  ∧ files (fst r) !! txt "b.md.backup"
    = Some (list_byte_of_string "x #done(1) y").
Proof.
  intros r. split; [vm_compute; reflexivity|].
  assert (H1 : files (one_note (txt "b.md") "x #done(1) y") !! txt "b.md"
               = Some (list_byte_of_string "x #done(1) y"))
    by (vm_compute; reflexivity).
  assert (H2 : Codec.utf8_decode (list_byte_of_string "x #done(1) y")
               = Some (txt "x #done(1) y"))
    by (vm_compute; reflexivity).
  assert (H13 : 13%N ∉ txt "x #done(1) y")
    by (apply (bool_decide_unpack _); vm_compute; exact I).
  destruct (backup_restores_text_read latin1_alnum example_templates (txt "b.md")
              _ _ _ H1 H2)
    as (old_bytes & _ & _ & _ & Hsame & _ & _ & _ & Hclean).
  rewrite <- (Hsame H13).
  assert (Hr : r = (fst r, Ok (true, 1))) by (vm_compute; reflexivity).
  exact (Hclean false (fst r) 1 Hr).
Defined.

(** A note whose front matter has a title only: the front matter is
    copied and the one tag of the body is converted. *)
Lemma front_matter_witness :
  convert_content latin1_alnum example_templates (txt "#a") (txt "A") true false
    (txt "---" ++ nl ++ txt "title: x" ++ nl ++ txt "---" ++ nl ++ txt "see #a")
  = Ok (txt "---" ++ nl ++ txt "title: x" ++ nl ++ txt "---" ++ nl
        ++ txt "see [[A]]", 1).
Proof.
  pose (content := txt "---" ++ nl ++ txt "title: x" ++ nl ++ txt "---" ++ nl
                   ++ txt "see #a").
  destruct (front_matter_without_tags_is_kept latin1_alnum example_templates
              (txt "#a") (txt "A") content true false) as (_ & _ & H).
  { right. intros line Hin.
    assert (Hl : Str.split_all nl (fst (split_frontmatter content))
                 = [txt "---"; txt "title: x"; txt "---"])
      by (vm_compute; reflexivity).
    rewrite Hl in Hin.
    repeat (apply elem_of_cons in Hin as [->|Hin];
            [vm_compute; reflexivity|]).
    by apply elem_of_nil in Hin. }
  fold content. rewrite H.
  - vm_compute. reflexivity.
  - apply (bool_decide_unpack _). vm_compute. exact I.
Defined.


(** The template is expanded at each match: with the wikilink
    [\g<0>] every tag becomes a link to its own text. *)
Example template_expands_at_each_match :
  convert_content latin1_alnum example_templates (txt "#a") (txt "\g<0>")
    false false (txt "#a/b #a")
  = Ok (txt "[[#a/b]] [[#a]]", 2).
Proof. vm_compute. reflexivity. Qed.

(** The pattern of the empty tag matches the empty text wherever no
    word character stands on either side. *)
Example empty_tag_matches_between_spaces :
  (Re.m_start <$> Re.finditer (tag_pattern latin1_alnum [] true) (txt " a  b "))
  = [0; 3; 6]
  ∧ convert_content latin1_alnum example_templates [] (txt "w") false true
      (txt " a  b ")
    = Ok (txt "[[w]] a [[w]] b [[w]]", 3).
Proof. split; vm_compute; reflexivity. Qed.

(** After an empty match the search goes on at the same place for a
    match that is not empty. *)
Example empty_matches_example :
  let r := Re.Star false (Re.Lit 97) in
  ((λ m, (Re.m_start m, Re.m_text m)) <$> Re.finditer r (txt "aa"))
  = [(0, []); (0, txt "a"); (1, []); (1, txt "a"); (2, [])]
  ∧ Re.sub r (txt "-") (txt "aa") = txt "-----".
Proof. split; vm_compute; reflexivity. Qed.
